(** * NukeExecution: a shallow embedding of src/core/execution/NukeExecution.ts

    The weapon strike execution of the tick-driven simulation kernel, with
    the part of the world state it reads and writes, the trace of the calls
    it makes on its collaborators, and the properties of its life cycle. *)

From Stdlib Require Import String ZArith QArith Bool Arith PeanoNat Lia List.
Import ListNotations.
Close Scope Q_scope.
Close Scope Z_scope.

Set Implicit Arguments.

(** ** Data model *)

(** [TileRef] is a number indexing the map grid; players and units are
    objects, identified here by a number. *)
Definition TileRef := nat.
Definition PlayerID := nat.
Definition UnitID := nat.

(** [NukeType] (StatsSchemas): the unit types that a strike can carry. *)
Inductive NukeType : Type :=
| AtomBomb
| HydrogenBomb
| MIRV
| MIRVWarhead.

(** [UnitType]: the members of the enumeration that the file names, and
    the remaining ones under a tag. *)
Inductive UnitType : Type :=
| Nuke (n : NukeType)
| MissileSilo
| TransportShip
| OtherUnit (tag : nat).

Coercion Nuke : NukeType >-> UnitType.

Inductive MessageType : Type :=
| NUKE_INBOUND
| HYDROGEN_BOMB_INBOUND.

(** [Player | TerraNullius], as [Game.owner] returns it. *)
Inductive Owner : Type :=
| TerraNullius
| OwnerPlayer (p : PlayerID).

Definition isPlayer (o : Owner) : bool :=
  match o with
  | OwnerPlayer _ => true
  | TerraNullius => false
  end.

Definition NukeType_eqb (a b : NukeType) : bool :=
  match a, b with
  | AtomBomb, AtomBomb => true
  | HydrogenBomb, HydrogenBomb => true
  | MIRV, MIRV => true
  | MIRVWarhead, MIRVWarhead => true
  | _, _ => false
  end.

Definition UnitType_eqb (a b : UnitType) : bool :=
  match a, b with
  | Nuke x, Nuke y => NukeType_eqb x y
  | MissileSilo, MissileSilo => true
  | TransportShip, TransportShip => true
  | OtherUnit x, OtherUnit y => Nat.eqb x y
  | _, _ => false
  end.

(** The (inner, outer) radius pair of a weapon class. *)
Record Magnitude : Type := mkMagnitude { inner : Z; outer : Z }.

Record TrajectoryTile : Type :=
  mkTrajectoryTile { tt_tile : TileRef; tt_targetable : bool }.

(** A unit object.  Deleting a unit clears [unit_active]; the object stays
    reachable from whoever holds a reference to it. *)
Record Unit : Type := mkUnit {
  unit_id : UnitID;
  unit_type : UnitType;
  unit_owner : PlayerID;
  unit_tile : TileRef;
  unit_active : bool;
  unit_targetTile : option TileRef;
  unit_trajectory : list TrajectoryTile;
  unit_trajectoryIndex : Z;
  unit_targetable : bool;
  unit_reachedTarget : bool;
  unit_troops : Z
}.

(** An outgoing attack of a player. *)
Record Attack : Type := mkAttack { attack_owner : PlayerID; attack_troops : Z }.

(** The part of the game state that the execution reads back.  Alliances
    are a symmetric relation and alliance requests a directed one
    (requestor, recipient), both kept as lists of pairs. *)
Record World : Type := mkWorld {
  ticks : Z;
  tileOwners : list (TileRef * PlayerID);
  worldUnits : list Unit;
  playerTroops : list (PlayerID * Z);
  attacks : list Attack;
  fallout : list TileRef;
  allianceRequests : list (PlayerID * PlayerID);
  alliances : list (PlayerID * PlayerID)
}.

(** Every call that the execution makes on a mutating method of a
    collaborator, in the order of the calls. *)
Inductive Event : Type :=
| ConsoleWarn (msg : string)
| ConsoleLog (msg : string)
| BuildUnit (p : PlayerID) (ty : NukeType) (spawn : TileRef) (u : UnitID)
| RejectRequest (requestor recipient : PlayerID)
| BreakAlliance (breaker other : PlayerID)
| UpdateRelation (p other : PlayerID) (delta : Z)
| DisplayIncomingUnit (u : UnitID) (msg : string) (ty : MessageType)
    (target : PlayerID)
| BombLaunch (attacker : PlayerID) (target : Owner) (ty : NukeType)
| SiloLaunch (silo : UnitID)
| UnitMove (u : UnitID) (t : TileRef)
| SetTargetable (u : UnitID) (b : bool)
| SetTrajectoryIndex (u : UnitID) (i : Z)
| Relinquish (p : PlayerID) (t : TileRef)
| RemoveTroops (p : PlayerID) (n : Z)
| AttackSetTroops (p : PlayerID) (n : Z)
| UnitSetTroops (u : UnitID) (n : Z)
| SetFallout (t : TileRef)
| UnitDelete (u : UnitID) (displayMessage : bool) (destroyer : option PlayerID)
| UnitTouch (u : UnitID)
| SetReachedTarget (u : UnitID)
| BombLand (attacker : PlayerID) (target : Owner) (ty : UnitType).

(** ** Maps and sets in insertion order

    A JavaScript [Map] keeps its keys in the order of first insertion and
    [set] on a present key replaces the value in place. *)
Section AssocMap.
Variable V : Type.

Fixpoint map_get (k : nat) (m : list (nat * V)) : option V :=
  match m with
  | [] => None
  | (k', v) :: m' => if Nat.eqb k k' then Some v else map_get k m'
  end.

Fixpoint map_set (k : nat) (v : V) (m : list (nat * V)) : list (nat * V) :=
  match m with
  | [] => [(k, v)]
  | (k', v') :: m' =>
      if Nat.eqb k k' then (k, v) :: m' else (k', v') :: map_set k v m'
  end.
End AssocMap.

Definition mem (t : nat) (s : list nat) : bool := existsb (Nat.eqb t) s.

(** No number occurs twice. *)
Fixpoint distinct (l : list nat) : bool :=
  match l with
  | [] => true
  | x :: l' => negb (mem x l') && distinct l'
  end.

(** ** World queries and mutators *)

(** [Game.owner]: the player that owns the tile, or TerraNullius. *)
Definition owner (w : World) (t : TileRef) : Owner :=
  match map_get t (tileOwners w) with
  | Some p => OwnerPlayer p
  | None => TerraNullius
  end.

(** Modelled from the spec: [Game.hasOwner] is not in the sources; a tile
    has an owner exactly when its ownership lookup gives a player. *)
Definition hasOwner (w : World) (t : TileRef) : bool := isPlayer (owner w t).

Definition findUnit (w : World) (u : UnitID) : option Unit :=
  find (fun x => Nat.eqb (unit_id x) u) (worldUnits w).

(** [Unit.isActive]. *)
Definition unitIsActive (w : World) (u : UnitID) : bool :=
  match findUnit w u with
  | Some x => unit_active x
  | None => false
  end.

(** [Game.units()]: the active units. *)
Definition units (w : World) : list Unit := filter unit_active (worldUnits w).

(** [Player.units(type)]. *)
Definition playerUnits (w : World) (p : PlayerID) (ty : UnitType) : list Unit :=
  filter (fun x => Nat.eqb (unit_owner x) p && UnitType_eqb (unit_type x) ty)
    (units w).

Definition troops (w : World) (p : PlayerID) : Z :=
  match map_get p (playerTroops w) with
  | Some n => n
  | None => 0%Z
  end.

Definition numTilesOwned (w : World) (p : PlayerID) : Z :=
  Z.of_nat (length (filter (fun e => Nat.eqb (snd e) p) (tileOwners w))).

Definition pairIs (a b : PlayerID) (e : PlayerID * PlayerID) : bool :=
  Nat.eqb (fst e) a && Nat.eqb (snd e) b.

(** [attacked.incomingAllianceRequests().find(ar => ar.requestor() === p)]. *)
Definition findRequest (w : World) (requestor recipient : PlayerID)
  : option (PlayerID * PlayerID) :=
  find (pairIs requestor recipient) (allianceRequests w).

Definition sameAlliance (a b : PlayerID) (e : PlayerID * PlayerID) : bool :=
  pairIs a b e || pairIs b a e.

(** [Player.allianceWith]. *)
Definition allianceWith (w : World) (a b : PlayerID)
  : option (PlayerID * PlayerID) :=
  find (sameAlliance a b) (alliances w).

Definition set_worldUnits (us : list Unit) (w : World) : World :=
  mkWorld (ticks w) (tileOwners w) us (playerTroops w) (attacks w)
    (fallout w) (allianceRequests w) (alliances w).

Definition set_tileOwners (o : list (TileRef * PlayerID)) (w : World) : World :=
  mkWorld (ticks w) o (worldUnits w) (playerTroops w) (attacks w)
    (fallout w) (allianceRequests w) (alliances w).

Definition set_playerTroops (t : list (PlayerID * Z)) (w : World) : World :=
  mkWorld (ticks w) (tileOwners w) (worldUnits w) t (attacks w)
    (fallout w) (allianceRequests w) (alliances w).

Definition set_attacks (a : list Attack) (w : World) : World :=
  mkWorld (ticks w) (tileOwners w) (worldUnits w) (playerTroops w) a
    (fallout w) (allianceRequests w) (alliances w).

Definition set_fallout (f : list TileRef) (w : World) : World :=
  mkWorld (ticks w) (tileOwners w) (worldUnits w) (playerTroops w) (attacks w)
    f (allianceRequests w) (alliances w).

Definition set_allianceRequests (r : list (PlayerID * PlayerID)) (w : World)
  : World :=
  mkWorld (ticks w) (tileOwners w) (worldUnits w) (playerTroops w) (attacks w)
    (fallout w) r (alliances w).

Definition set_alliances (a : list (PlayerID * PlayerID)) (w : World) : World :=
  mkWorld (ticks w) (tileOwners w) (worldUnits w) (playerTroops w) (attacks w)
    (fallout w) (allianceRequests w) a.

Definition set_ticks (n : Z) (w : World) : World :=
  mkWorld n (tileOwners w) (worldUnits w) (playerTroops w) (attacks w)
    (fallout w) (allianceRequests w) (alliances w).

(** Apply [f] to the unit object [u]. *)
Definition updateUnit (u : UnitID) (f : Unit -> Unit) (w : World) : World :=
  set_worldUnits
    (map (fun x => if Nat.eqb (unit_id x) u then f x else x) (worldUnits w)) w.

Definition unit_set_active (b : bool) (x : Unit) : Unit :=
  mkUnit (unit_id x) (unit_type x) (unit_owner x) (unit_tile x) b
    (unit_targetTile x) (unit_trajectory x) (unit_trajectoryIndex x)
    (unit_targetable x) (unit_reachedTarget x) (unit_troops x).

Definition unit_set_tile (t : TileRef) (x : Unit) : Unit :=
  mkUnit (unit_id x) (unit_type x) (unit_owner x) t (unit_active x)
    (unit_targetTile x) (unit_trajectory x) (unit_trajectoryIndex x)
    (unit_targetable x) (unit_reachedTarget x) (unit_troops x).

Definition unit_set_trajectoryIndex (i : Z) (x : Unit) : Unit :=
  mkUnit (unit_id x) (unit_type x) (unit_owner x) (unit_tile x) (unit_active x)
    (unit_targetTile x) (unit_trajectory x) i
    (unit_targetable x) (unit_reachedTarget x) (unit_troops x).

Definition unit_set_targetable (b : bool) (x : Unit) : Unit :=
  mkUnit (unit_id x) (unit_type x) (unit_owner x) (unit_tile x) (unit_active x)
    (unit_targetTile x) (unit_trajectory x) (unit_trajectoryIndex x)
    b (unit_reachedTarget x) (unit_troops x).

Definition unit_set_reachedTarget (b : bool) (x : Unit) : Unit :=
  mkUnit (unit_id x) (unit_type x) (unit_owner x) (unit_tile x) (unit_active x)
    (unit_targetTile x) (unit_trajectory x) (unit_trajectoryIndex x)
    (unit_targetable x) b (unit_troops x).

Definition unit_set_troops (n : Z) (x : Unit) : Unit :=
  mkUnit (unit_id x) (unit_type x) (unit_owner x) (unit_tile x) (unit_active x)
    (unit_targetTile x) (unit_trajectory x) (unit_trajectoryIndex x)
    (unit_targetable x) (unit_reachedTarget x) n.

(** ** Calls on the collaborators

    A call changes the world and is logged. *)
Definition Effect : Type := World -> World * list Event.

Definition skip : Effect := fun w => (w, []).

Definition andThen (f g : Effect) : Effect :=
  fun w =>
    let (w1, out1) := f w in
    let (w2, out2) := g w1 in
    (w2, out1 ++ out2).

(** [for (const x of l) body(x)]: [l] is fixed before the loop, the body
    sees the world as the previous rounds left it. *)
Fixpoint forEach {A : Type} (l : list A) (body : A -> Effect) : Effect :=
  match l with
  | [] => skip
  | x :: l' => andThen (body x) (forEach l' body)
  end.

Definition logOnly (ev : Event) : Effect := fun w => (w, [ev]).

(** Modelled from the spec: the mutating methods of [Unit], [Player],
    [AllianceRequest] and [Game] are not in the sources.  Each one does to
    the state what the spec's data model says of it: deleting a unit
    deactivates it, rejecting a request and breaking an alliance remove
    the pair from the relation, relinquishing a tile leaves it unowned,
    troops are reduced by the amount given, fallout is a flag of the tile. *)
Definition freshUnitID (w : World) : UnitID :=
  S (fold_right Nat.max 0 (map unit_id (worldUnits w))).

Definition buildUnit (p : PlayerID) (ty : NukeType) (spawn targetTile : TileRef)
    (trajectory : list TrajectoryTile) (w : World)
  : UnitID * World * list Event :=
  let u := freshUnitID w in
  (u,
   set_worldUnits
     (worldUnits w ++
      [mkUnit u ty p spawn true (Some targetTile) trajectory 0%Z true false
         0%Z]) w,
   [BuildUnit p ty spawn u]).

Definition unitDelete (u : UnitID) (displayMessage : bool)
    (destroyer : option PlayerID) : Effect :=
  fun w =>
    (updateUnit u (unit_set_active false) w,
     [UnitDelete u displayMessage destroyer]).

Definition unitMove (u : UnitID) (t : TileRef) : Effect :=
  fun w => (updateUnit u (unit_set_tile t) w, [UnitMove u t]).

Definition unitSetTargetable (u : UnitID) (b : bool) : Effect :=
  fun w => (updateUnit u (unit_set_targetable b) w, [SetTargetable u b]).

Definition unitSetTrajectoryIndex (u : UnitID) (i : Z) : Effect :=
  fun w =>
    (updateUnit u (unit_set_trajectoryIndex i) w, [SetTrajectoryIndex u i]).

Definition unitSetReachedTarget (u : UnitID) : Effect :=
  fun w => (updateUnit u (unit_set_reachedTarget true) w, [SetReachedTarget u]).

Definition unitSetTroops (u : UnitID) (n : Z) : Effect :=
  fun w => (updateUnit u (unit_set_troops n) w, [UnitSetTroops u n]).

Definition rejectRequest (ar : PlayerID * PlayerID) : Effect :=
  fun w =>
    (set_allianceRequests
       (filter (fun e => negb (pairIs (fst ar) (snd ar) e))
          (allianceRequests w)) w,
     [RejectRequest (fst ar) (snd ar)]).

(** The party of the alliance that is not [p]. *)
Definition allianceOther (al : PlayerID * PlayerID) (p : PlayerID) : PlayerID :=
  if Nat.eqb (fst al) p then snd al else fst al.

Definition breakAlliance (breaker : PlayerID) (al : PlayerID * PlayerID)
  : Effect :=
  fun w =>
    (set_alliances
       (filter (fun e => negb (sameAlliance (fst al) (snd al) e))
          (alliances w)) w,
     [BreakAlliance breaker (allianceOther al breaker)]).

Definition relinquish (p : PlayerID) (t : TileRef) : Effect :=
  fun w =>
    (set_tileOwners
       (filter (fun e => negb (Nat.eqb (fst e) t)) (tileOwners w)) w,
     [Relinquish p t]).

Definition removeTroops (p : PlayerID) (n : Z) : Effect :=
  fun w =>
    (set_playerTroops (map_set p (troops w p - n)%Z (playerTroops w)) w,
     [RemoveTroops p n]).

Definition setFallout (t : TileRef) : Effect :=
  fun w =>
    (set_fallout (if mem t (fallout w) then fallout w else fallout w ++ [t]) w,
     [SetFallout t]).

(** ** Collaborators that the sources do not contain

    The configuration provider, the map geometry and search primitives, the
    trajectory planner, the seeded random source and the player's
    build-site query are consumed through these interfaces. *)

Class Config : Type := {
  defaultNukeSpeed : Z;
  nukeMagnitudes : UnitType -> Magnitude;
  nukeAllianceBreakThreshold : Q;
  defaultNukeTargetableRange : Z;
  maxTroops : World -> PlayerID -> Z;
  nukeDeathFactor : NukeType -> Z -> Z -> Z -> Z
}.

Class GameMap : Type := {
  (** every tile of the grid *)
  mapTiles : list TileRef;
  euclideanDistSquared : TileRef -> TileRef -> Z;
  neighbors : TileRef -> list TileRef;
  isLand : TileRef -> bool;
  (** [circleSearch c r] lists the tiles that the circular search around
      [c] with radius [r] hands to its callback, with their squared
      distance to [c] *)
  circleSearch : TileRef -> Z -> list (TileRef * Z)
}.

Class GameRules : Type := {
  isStructureType : UnitType -> bool;
  (** [Player.canBuild]: the launch site, or [None] for [false] *)
  canBuild : World -> PlayerID -> NukeType -> TileRef -> option TileRef;
  playerName : PlayerID -> string
}.

(** [TileRef | true], the answer of [ParabolaPathFinder.nextTile]. *)
Inductive NextTile : Type :=
| Arrived
| Next (t : TileRef).

Class PathFinderOps (PF : Type) : Type := {
  newPathFinder : PF;
  computeControlPoints : PF -> TileRef -> TileRef -> Z -> bool -> PF;
  nextTile : PF -> Z -> NextTile * PF;
  currentIndex : PF -> Z;
  allTiles : PF -> list TileRef
}.

Class RandomOps (Rng : Type) : Type := {
  (** [new PseudoRandom(seed)] *)
  newPseudoRandom : Z -> Rng;
  (** [chance(odds)] *)
  chance : Rng -> Z -> bool * Rng
}.

(** ** Breadth-first search with a stateful admission test *)

Section Bfs.
Context {gm : GameMap}.
Variable St : Type.
Variable test : TileRef -> St -> bool * St.

(** Offer the neighbours [ns] of the current tile, in order: one that is
    not yet in [seen] and passes [test] joins [seen] and the tiles
    [added] to the queue. *)
Fixpoint visit (ns seen added : list TileRef) (s : St)
  : list TileRef * list TileRef * St :=
  match ns with
  | [] => (seen, added, s)
  | n :: ns' =>
      if mem n seen then visit ns' seen added s
      else
        let (ok, s') := test n s in
        if ok then visit ns' (seen ++ [n]) (added ++ [n]) s'
        else visit ns' seen added s'
  end.

Fixpoint bfs_loop (fuel : nat) (queue seen : list TileRef) (s : St)
  : list TileRef * St :=
  match fuel with
  | O => (seen, s)
  | S fuel' =>
      match queue with
      | [] => (seen, s)
      | curr :: rest =>
          let '(seen', added, s') := visit (neighbors curr) seen [] s in
          bfs_loop fuel' (rest ++ added) seen' s'
      end
  end.

(** Modelled from the spec: [Game.bfs] is not in the sources; it is the
    breadth-first expansion from the start tile that admits a neighbour
    when the test passes.  Every tile enters the queue at most once, so
    one round per tile of the map (and one more) empties the queue. *)
Definition bfs (start : TileRef) (s : St) : list TileRef * St :=
  bfs_loop (S (length mapTiles)) [start] [start] s.

(** The number of tiles of the map that are not in [seen]: with the
    length of the queue, what a round of the loop makes smaller. *)
Definition unseen (seen : list TileRef) : nat :=
  length (filter (fun t => negb (mem t seen)) mapTiles).

(** The neighbours of a tile of the map are tiles of the map. *)
Definition mapClosed : bool :=
  forallb (fun t => forallb (fun n => mem n mapTiles) (neighbors t)) mapTiles.

(** Every tile of [seen] is still in the queue, or has in [seen] those
    of its neighbours that are [sure] to pass the test. *)
Definition expanded (sure : TileRef -> Prop) (queue seen : list TileRef)
  : Prop :=
  forall t, In t seen ->
    In t queue \/ forall n, In n (neighbors t) -> sure n -> In n seen.
End Bfs.

(** ** The execution object *)

Section Execution.
Variable PF : Type.
Variable Rng : Type.
Context {pfOps : PathFinderOps PF} {rngOps : RandomOps Rng}.
Context {cfg : Config} {gm : GameMap} {rules : GameRules}.

(** The fields of the class.  [mg] tells whether [init] has bound the
    game; [nuke] is [null] or the spawned unit; [src] is [null] (or
    undefined) or the launch site. *)
Record NukeExecution : Type := mkNukeExecution {
  active : bool;
  mg : bool;
  nuke : option UnitID;
  tilesToDestroyCache : option (list TileRef);
  pathFinder : option PF;
  nukeType : NukeType;
  player : PlayerID;
  dst : TileRef;
  src : option TileRef;
  speed : Z;
  waitTicks : Z
}.

(** [new NukeExecution(nukeType, player, dst, src, speed = -1,
    waitTicks = 0)]. *)
Definition newNukeExecution (ty : NukeType) (p : PlayerID) (d : TileRef)
    (s : option TileRef) (sp : Z) (wt : Z) : NukeExecution :=
  mkNukeExecution true false None None None ty p d s sp wt.

Definition set_active (b : bool) (e : NukeExecution) : NukeExecution :=
  mkNukeExecution b (mg e) (nuke e) (tilesToDestroyCache e) (pathFinder e)
    (nukeType e) (player e) (dst e) (src e) (speed e) (waitTicks e).

Definition set_mg (b : bool) (e : NukeExecution) : NukeExecution :=
  mkNukeExecution (active e) b (nuke e) (tilesToDestroyCache e)
    (pathFinder e) (nukeType e) (player e) (dst e) (src e) (speed e)
    (waitTicks e).

Definition set_nuke (u : option UnitID) (e : NukeExecution) : NukeExecution :=
  mkNukeExecution (active e) (mg e) u (tilesToDestroyCache e) (pathFinder e)
    (nukeType e) (player e) (dst e) (src e) (speed e) (waitTicks e).

Definition set_tilesToDestroyCache (c : option (list TileRef))
    (e : NukeExecution) : NukeExecution :=
  mkNukeExecution (active e) (mg e) (nuke e) c (pathFinder e)
    (nukeType e) (player e) (dst e) (src e) (speed e) (waitTicks e).

Definition set_pathFinder (p : option PF) (e : NukeExecution)
  : NukeExecution :=
  mkNukeExecution (active e) (mg e) (nuke e) (tilesToDestroyCache e) p
    (nukeType e) (player e) (dst e) (src e) (speed e) (waitTicks e).

Definition set_src (s : option TileRef) (e : NukeExecution) : NukeExecution :=
  mkNukeExecution (active e) (mg e) (nuke e) (tilesToDestroyCache e)
    (pathFinder e) (nukeType e) (player e) (dst e) s (speed e) (waitTicks e).

Definition set_speed (s : Z) (e : NukeExecution) : NukeExecution :=
  mkNukeExecution (active e) (mg e) (nuke e) (tilesToDestroyCache e)
    (pathFinder e) (nukeType e) (player e) (dst e) (src e) s (waitTicks e).

Definition set_waitTicks (n : Z) (e : NukeExecution) : NukeExecution :=
  mkNukeExecution (active e) (mg e) (nuke e) (tilesToDestroyCache e)
    (pathFinder e) (nukeType e) (player e) (dst e) (src e) (speed e) n.

(** *** Methods run on the object and the world, log their calls, and
    may throw *)

Inductive Result (A : Type) : Type :=
| Ok (a : A) (this : NukeExecution) (w : World) (out : list Event)
| Throw (msg : string) (this : NukeExecution) (w : World) (out : list Event).

Arguments Ok {A} a this w out.
Arguments Throw {A} msg this w out.

Definition M (A : Type) : Type := NukeExecution -> World -> Result A.

Definition ret {A} (a : A) : M A := fun this w => Ok a this w [].

Definition bind {A B} (m : M A) (k : A -> M B) : M B :=
  fun this w =>
    match m this w with
    | Ok a this1 w1 out1 =>
        match k a this1 w1 with
        | Ok b this2 w2 out2 => Ok b this2 w2 (out1 ++ out2)
        | Throw msg this2 w2 out2 => Throw msg this2 w2 (out1 ++ out2)
        end
    | Throw msg this1 w1 out1 => Throw msg this1 w1 out1
    end.

Definition throw {A} (msg : string) : M A :=
  fun this w => Throw msg this w [].

Definition getThis : M NukeExecution := fun this w => Ok this this w [].
Definition getWorld : M World := fun this w => Ok w this w [].
Definition modifyThis (f : NukeExecution -> NukeExecution) : M unit :=
  fun this w => Ok tt (f this) w [].
(** A call on a collaborator: it changes the world and is logged. *)
Definition call (f : World -> World * list Event) : M unit :=
  fun this w => let (w', out) := f w in Ok tt this w' out.
Definition emit (ev : Event) : M unit := fun this w => Ok tt this w [ev].

Notation "x <- m ;; k" := (bind m (fun x => k))
  (at level 61, m at next level, right associativity).
Notation "m ;; k" := (bind m (fun _ => k))
  (at level 61, right associativity).

(** A use of [this.mg] before [init] has bound it. *)
Definition derefMg : M unit :=
  this <- getThis ;;
  if mg this then ret tt else throw "TypeError: this.mg is undefined".

(** A use of [this.pathFinder]. *)
Definition derefPathFinder : M PF :=
  this <- getThis ;;
  match pathFinder this with
  | Some pf => ret pf
  | None => throw "TypeError: this.pathFinder is undefined"
  end.

(** [this.nuke.type()].  A reference always points at an object: the
    default stands for no object of the program. *)
Definition unitTypeOf (w : World) (u : UnitID) : UnitType :=
  match findUnit w u with
  | Some x => unit_type x
  | None => OtherUnit 0
  end.

Definition init (_ticks : Z) : M unit :=
  modifyThis (set_mg true) ;;
  this <- getThis ;;
  (if Z.eqb (speed this) (-1) then modifyThis (set_speed defaultNukeSpeed)
   else ret tt) ;;
  modifyThis (set_pathFinder (Some newPathFinder)).

Definition target : M (option Owner) :=
  this <- getThis ;;
  if negb (mg this) then ret None
  else w <- getWorld ;; ret (Some (owner w (dst this))).

Definition weightOf (d2 inner2 : Z) : Q :=
  if Z.leb d2 inner2 then 1%Q else (1 # 2)%Q.

(** The map that [tilesInRange] fills from the callback of the circular
    search. *)
Definition weighTiles (d : TileRef) (magnitude : Magnitude)
  : list (TileRef * Q) :=
  let inner2 := (inner magnitude * inner magnitude)%Z in
  fold_left (fun m td => map_set (fst td) (weightOf (snd td) inner2) m)
    (circleSearch d (outer magnitude)) [].

Definition tilesInRange : M (list (TileRef * Q)) :=
  this <- getThis ;;
  match nuke this with
  | None => throw "Not initialized"
  | Some u =>
      derefMg ;;
      w <- getWorld ;;
      let magnitude := nukeMagnitudes (unitTypeOf w u) in
      ret (weighTiles (dst this) magnitude)
  end.

(** The test handed to [bfs]: [d2 <= outer2 && (d2 <= inner2 ||
    rand.chance(2))], evaluated left to right. *)
Definition destroyTest (d : TileRef) (inner2 outer2 : Z) (n : TileRef)
    (rand : Rng) : bool * Rng :=
  let d2 := euclideanDistSquared d n in
  if Z.leb d2 outer2 then
    if Z.leb d2 inner2 then (true, rand) else chance rand 2%Z
  else (false, rand).

Definition tilesToDestroy : M (list TileRef) :=
  this <- getThis ;;
  match tilesToDestroyCache this with
  | Some cache => ret cache
  | None =>
      match nuke this with
      | None => throw "Not initialized"
      | Some u =>
          derefMg ;;
          w <- getWorld ;;
          let magnitude := nukeMagnitudes (unitTypeOf w u) in
          let rand := newPseudoRandom (ticks w) in
          let inner2 := (inner magnitude * inner magnitude)%Z in
          let outer2 := (outer magnitude * outer magnitude)%Z in
          let tiles :=
            fst (bfs (destroyTest (dst this) inner2 outer2) (dst this) rand)
          in
          modifyThis (set_tilesToDestroyCache (Some tiles)) ;;
          ret tiles
      end
  end.

Definition targetTile (this : NukeExecution) : TileRef := dst this.

Definition isInFlight (this : NukeExecution) : bool :=
  match nuke this with
  | Some _ => true
  | None => false
  end.

Definition destroyInFlight : M unit :=
  this <- getThis ;;
  if negb (active this) then ret tt
  else
    (match nuke this with
     | Some u =>
         call (unitDelete u false None) ;;
         modifyThis (set_nuke None)
     | None => ret tt
     end) ;;
    modifyThis (set_active false).

Definition Qgt_bool (a b : Q) : bool := negb (Qle_bool a b).

(** The first loop of [maybeBreakAlliances]: the weight of the tiles in
    range, added up per owning player. *)
Definition attackedWeights (w : World) (inRange : list (TileRef * Q))
  : list (PlayerID * Q) :=
  fold_left
    (fun attacked tw =>
       match owner w (fst tw) with
       | OwnerPlayer p =>
           let prev :=
             match map_get p attacked with
             | Some x => x
             | None => 0%Q
             end in
           map_set p (prev + snd tw)%Q attacked
       | TerraNullius => attacked
       end)
    inRange [].

(** The body of the second loop for one attacked player over the
    threshold. *)
Definition breakWith (attacker attackedPlayer : PlayerID) : Effect :=
  andThen
    (fun w =>
       match findRequest w attacker attackedPlayer with
       | Some allianceRequest => rejectRequest allianceRequest w
       | None => skip w
       end)
    (andThen
       (fun w =>
          match allianceWith w attacker attackedPlayer with
          | Some alliance => breakAlliance attacker alliance w
          | None => skip w
          end)
       (if negb (Nat.eqb attackedPlayer attacker)
        then logOnly (UpdateRelation attackedPlayer attacker (-100))
        else skip)).

(** The second loop of [maybeBreakAlliances], over the entries of
    [attacked]. *)
Definition breakLoop (attacker : PlayerID) (u : UnitID)
    (attacked : list (PlayerID * Q)) : Effect :=
  let threshold := nukeAllianceBreakThreshold in
  forEach attacked
    (fun entry w =>
       if Qgt_bool (snd entry) threshold
          && negb (UnitType_eqb (unitTypeOf w u) MIRVWarhead)
       then breakWith attacker (fst entry) w
       else skip w).

Definition maybeBreakAlliances (inRange : list (TileRef * Q)) : M unit :=
  this <- getThis ;;
  match nuke this with
  | None => throw "Not initialized"
  | Some u =>
      derefMg ;;
      w <- getWorld ;;
      let attacked := attackedWeights w inRange in
      call (breakLoop (player this) u attacked)
  end.

Definition isTargetable (this : NukeExecution) (targetTile nukeTile : TileRef)
    (targetRangeSquared : Z) : bool :=
  Z.ltb (euclideanDistSquared nukeTile targetTile) targetRangeSquared
  || match src this with
     | Some s => Z.ltb (euclideanDistSquared s nukeTile) targetRangeSquared
     | None => false
     end.

Definition getTrajectory (target : TileRef) : M (list TrajectoryTile) :=
  derefMg ;;
  let targetRangeSquared := (defaultNukeTargetableRange ^ 2)%Z in
  pf <- derefPathFinder ;;
  this <- getThis ;;
  ret (map
         (fun tile =>
            mkTrajectoryTile tile
              (isTargetable this target tile targetRangeSquared))
         (allTiles pf)).

Definition updateNukeTargetable : M unit :=
  this <- getThis ;;
  w <- getWorld ;;
  match nuke this with
  | None => ret tt
  | Some u =>
      match findUnit w u with
      | None => ret tt
      | Some x =>
          match unit_targetTile x with
          | None => ret tt
          | Some targetTile =>
              derefMg ;;
              let targetRangeSquared := (defaultNukeTargetableRange ^ 2)%Z in
              call (unitSetTargetable u
                      (isTargetable this targetTile (unit_tile x)
                         targetRangeSquared))
          end
      end
  end.

Definition SPRITE_RADIUS : Z := 16.

Definition redrawBuildings (d : TileRef) (range : Z) : Effect :=
  fun w =>
    let rangeSquared := (range * range)%Z in
    forEach (units w)
      (fun unit =>
         if isStructureType (unit_type unit)
            && Z.ltb (euclideanDistSquared d (unit_tile unit)) rangeSquared
         then logOnly (UnitTouch (unit_id unit))
         else skip) w.

(** [attack.setTroops(attack.troops() - deaths)] for every outgoing
    attack of [p]. *)
Definition attritAttacks (ty : NukeType) (maxTroops : Z) (p : PlayerID)
  : Effect :=
  fun w =>
    let deaths a := nukeDeathFactor ty (attack_troops a) (numTilesOwned w p)
                      maxTroops in
    (set_attacks
       (map (fun a =>
               if Nat.eqb (attack_owner a) p
               then mkAttack p (attack_troops a - deaths a)%Z
               else a) (attacks w)) w,
     map (fun a => AttackSetTroops p (attack_troops a - deaths a)%Z)
       (filter (fun a => Nat.eqb (attack_owner a) p) (attacks w))).

(** The same for every transport ship of [p]. *)
Definition attritTransports (ty : NukeType) (maxTroops : Z) (p : PlayerID)
  : Effect :=
  fun w =>
    forEach (playerUnits w p TransportShip)
      (fun ship w' =>
         let deaths := nukeDeathFactor ty (unit_troops ship)
                         (numTilesOwned w' p) maxTroops in
         unitSetTroops (unit_id ship) (unit_troops ship - deaths)%Z w') w.

(** The body of the loop over the destroyed tiles. *)
Definition destroyTile (ty : NukeType) (maxTroops : Z) (tile : TileRef)
  : Effect :=
  andThen
    (fun w =>
       match owner w tile with
       | OwnerPlayer p =>
           andThen (relinquish p tile)
             (andThen
                (fun w' =>
                   removeTroops p
                     (nukeDeathFactor ty (troops w' p) (numTilesOwned w' p)
                        maxTroops) w')
                (andThen (attritAttacks ty maxTroops p)
                   (attritTransports ty maxTroops p))) w
       | TerraNullius => skip w
       end)
    (if isLand tile then setFallout tile else skip).

Definition isNukeUnitType (ty : UnitType) : bool :=
  match ty with
  | Nuke _ => true
  | _ => false
  end.

(** The loop over [mg.units()] that deletes the units within the outer
    radius. *)
Definition destroyUnits (attacker : PlayerID) (d : TileRef) (outer2 : Z)
  : Effect :=
  fun w =>
    forEach (units w)
      (fun unit =>
         if negb (isNukeUnitType (unit_type unit))
            && Z.ltb (euclideanDistSquared d (unit_tile unit)) outer2
         then unitDelete (unit_id unit) true (Some attacker)
         else skip) w.

Definition detonate : M unit :=
  this <- getThis ;;
  match nuke this with
  | None => throw "Not initialized"
  | Some u =>
      tgt <- target ;;
      derefMg ;;
      w <- getWorld ;;
      let magnitude := nukeMagnitudes (unitTypeOf w u) in
      toDestroy <- tilesToDestroy ;;
      let maxTroops :=
        match tgt with
        | Some (OwnerPlayer p) => maxTroops w p
        | _ => 1%Z
        end in
      call (forEach toDestroy (destroyTile (nukeType this) maxTroops)) ;;
      let outer2 := (outer magnitude * outer magnitude)%Z in
      call (destroyUnits (player this) (dst this) outer2) ;;
      call (redrawBuildings (dst this) (outer magnitude + SPRITE_RADIUS)%Z) ;;
      modifyThis (set_active false) ;;
      call (unitSetReachedTarget u) ;;
      call (unitDelete u false None) ;;
      match tgt with
      | Some t => emit (BombLand (player this) t (unitTypeOf w u))
      | None => ret tt
      end
  end.

(** [this.player.buildUnit(...)], a call that answers with the unit. *)
Definition callBuildUnit (p : PlayerID) (ty : NukeType)
    (spawn target : TileRef) (trajectory : list TrajectoryTile) : M UnitID :=
  fun this w =>
    let '(u, w', out) := buildUnit p ty spawn target trajectory w in
    Ok u this w' out.

(** The launch notifications of [tick]: the alert to the owner of the
    destination and the launch statistics. *)
Definition announceLaunch (u : UnitID) : M unit :=
  this <- getThis ;;
  derefMg ;;
  w <- getWorld ;;
  if hasOwner w (dst this) then
    let target := owner w (dst this) in
    (match target with
     | TerraNullius => ret tt
     | OwnerPlayer targetId =>
         if NukeType_eqb (nukeType this) AtomBomb then
           emit (DisplayIncomingUnit u
                   (playerName (player this) ++ " - atom bomb inbound")
                   NUKE_INBOUND targetId)
         else if NukeType_eqb (nukeType this) HydrogenBomb then
           emit (DisplayIncomingUnit u
                   (playerName (player this) ++ " - hydrogen bomb inbound")
                   HYDROGEN_BOMB_INBOUND targetId)
         else ret tt
     end) ;;
    emit (BombLaunch (player this) target (nukeType this))
  else ret tt.

(** After sending a nuke the missile silo at the launch site is put on
    cooldown. *)
Definition cooldownSilo (spawn : TileRef) : M unit :=
  this <- getThis ;;
  w <- getWorld ;;
  match find (fun silo => Nat.eqb (unit_tile silo) spawn)
          (playerUnits w (player this) MissileSilo) with
  | Some silo => emit (SiloLaunch (unit_id silo))
  | None => ret tt
  end.

Definition tick (_ticks : Z) : M unit :=
  this <- getThis ;;
  match nuke this with
  | None =>
      w <- getWorld ;;
      match canBuild w (player this) (nukeType this) (dst this) with
      | None =>
          emit (ConsoleWarn "cannot build Nuke") ;;
          modifyThis (set_active false)
      | Some spawn =>
          modifyThis (set_src (Some spawn)) ;;
          pf <- derefPathFinder ;;
          modifyThis
            (set_pathFinder
               (Some (computeControlPoints pf spawn (dst this) (speed this)
                        (negb (NukeType_eqb (nukeType this) MIRVWarhead))))) ;;
          trajectory <- getTrajectory (dst this) ;;
          u <- callBuildUnit (player this) (nukeType this) spawn (dst this)
                 trajectory ;;
          modifyThis (set_nuke (Some u)) ;;
          w1 <- getWorld ;;
          (if negb (UnitType_eqb (unitTypeOf w1 u) MIRVWarhead) then
             inRange <- tilesInRange ;;
             maybeBreakAlliances inRange
           else ret tt) ;;
          announceLaunch u ;;
          cooldownSilo spawn
      end
  | Some u =>
      w <- getWorld ;;
      if negb (unitIsActive w u) then
        emit (ConsoleLog "Nuke destroyed before reaching target") ;;
        modifyThis (set_active false)
      else if Z.ltb 0 (waitTicks this) then
        modifyThis (set_waitTicks (waitTicks this - 1)%Z)
      else
        pf <- derefPathFinder ;;
        let (next, pf') := nextTile pf (speed this) in
        modifyThis (set_pathFinder (Some pf')) ;;
        match next with
        | Arrived => detonate
        | Next t =>
            updateNukeTargetable ;;
            call (unitMove u t) ;;
            call (unitSetTrajectoryIndex u (currentIndex pf'))
        end
  end.

Definition getNuke (this : NukeExecution) : option UnitID := nuke this.

(** [owner()], the player of the execution. *)
Definition executionOwner (this : NukeExecution) : PlayerID := player this.

Definition isActive (this : NukeExecution) : bool := active this.

Definition activeDuringSpawnPhase (this : NukeExecution) : bool := false.

Definition thisOf {A} (r : Result A) : NukeExecution :=
  match r with
  | Ok _ this _ _ => this
  | Throw _ this _ _ => this
  end.

Definition worldOf {A} (r : Result A) : World :=
  match r with
  | Ok _ _ w _ => w
  | Throw _ _ w _ => w
  end.

Definition outOf {A} (r : Result A) : list Event :=
  match r with
  | Ok _ _ _ out => out
  | Throw _ _ _ out => out
  end.

(** [n] calls of [tick] in a row, each on the state the last one left. *)
Fixpoint ticks_in_a_row (n : nat) (e : NukeExecution) (w : World)
  : NukeExecution * World * list Event :=
  match n with
  | O => (e, w, [])
  | S n' =>
      let r := tick 0%Z e w in
      let '(e', w', out) := ticks_in_a_row n' (thisOf r) (worldOf r) in
      (e', w', outOf r ++ out)
  end.

Definition intercepted : Event :=
  ConsoleLog "Nuke destroyed before reaching target".

Definition cannotBuild : Event := ConsoleWarn "cannot build Nuke".

(** *** What the launch is said to do *)

(** The alert and the launch statistics for a strike of [this] on a
    destination owned, in [w], by a player: the alert for an atom or a
    hydrogen bomb, the statistics for every weapon class. *)
Definition launchAnnouncements (u : UnitID) (this : NukeExecution)
    (w : World) : list Event :=
  match owner w (dst this) with
  | OwnerPlayer targetId =>
      match nukeType this with
      | AtomBomb =>
          [DisplayIncomingUnit u
             (playerName (player this) ++ " - atom bomb inbound")
             NUKE_INBOUND targetId]
      | HydrogenBomb =>
          [DisplayIncomingUnit u
             (playerName (player this) ++ " - hydrogen bomb inbound")
             HYDROGEN_BOMB_INBOUND targetId]
      | _ => []
      end
      ++ [BombLaunch (player this) (OwnerPlayer targetId) (nukeType this)]
  | TerraNullius => []
  end.

Definition isAnnouncement (ev : Event) : bool :=
  match ev with
  | DisplayIncomingUnit _ _ _ _ => true
  | BombLaunch _ _ _ => true
  | _ => false
  end.

Definition isDisplay (ev : Event) : bool :=
  match ev with
  | DisplayIncomingUnit _ _ _ _ => true
  | _ => false
  end.

(** The blast weight of player [p]: 1 for each tile of the circular search
    that [p] owns within the inner radius, 1/2 for each one beyond. *)
Definition blastWeight (w : World) (d : TileRef) (magnitude : Magnitude)
    (p : PlayerID) : Q :=
  let inner2 := (inner magnitude * inner magnitude)%Z in
  fold_left
    (fun acc td =>
       match owner w (fst td) with
       | OwnerPlayer q =>
           if Nat.eqb q p then (acc + weightOf (snd td) inner2)%Q else acc
       | TerraNullius => acc
       end)
    (circleSearch d (outer magnitude)) 0%Q.

(** [p] owns a tile of the circular search. *)
Definition inBlast (w : World) (d : TileRef) (magnitude : Magnitude)
    (p : PlayerID) : bool :=
  existsb
    (fun td =>
       match owner w (fst td) with
       | OwnerPlayer q => Nat.eqb q p
       | TerraNullius => false
       end)
    (circleSearch d (outer magnitude)).

Definition isDiplomacy (ev : Event) : Prop :=
  match ev with
  | RejectRequest _ _ => True
  | BreakAlliance _ _ => True
  | UpdateRelation _ _ _ => True
  | _ => False
  end.

(** What the alliance-breaking calls leave alone. *)
Definition sameBoard (w0 w : World) : Prop :=
  tileOwners w = tileOwners w0 /\ worldUnits w = worldUnits w0
  /\ ticks w = ticks w0.

Definition isSiloLaunch (ev : Event) : Prop :=
  match ev with
  | SiloLaunch _ => True
  | _ => False
  end.

(** The diplomacy step of the launch, from the world [w1] in which the
    unit [u] has just been built. *)
Definition launchDiplomacy (this : NukeExecution) (u : UnitID) : Effect :=
  fun w1 =>
    if NukeType_eqb (nukeType this) MIRVWarhead then skip w1
    else
      breakLoop (player this) u
        (attackedWeights w1
           (weighTiles (dst this) (nukeMagnitudes (nukeType this)))) w1.

(** The weight that the map [attacked] holds for [p]. *)
Definition weightIn (attacked : list (PlayerID * Q)) (p : PlayerID) : Q :=
  match map_get p attacked with
  | Some x => x
  | None => 0%Q
  end.

Definition ownedBy (w : World) (p : PlayerID) (t : TileRef) : bool :=
  match owner w t with
  | OwnerPlayer q => Nat.eqb q p
  | TerraNullius => false
  end.

(** The diplomacy calls that concern the attacked player [p]. *)
Definition concerns (p : PlayerID) (ev : Event) : bool :=
  match ev with
  | RejectRequest _ recipient => Nat.eqb recipient p
  | BreakAlliance _ other => Nat.eqb other p
  | UpdateRelation q _ _ => Nat.eqb q p
  | _ => false
  end.

(** An effect that leaves what concerns the attacked player [p] as it
    is: the request from the attacker, the alliance with the attacker,
    and the units; and makes no call that concerns [p]. *)
Definition leavesAlone (attacker p : PlayerID) (f : Effect) : Prop :=
  forall w,
    findRequest (fst (f w)) attacker p = findRequest w attacker p
    /\ allianceWith (fst (f w)) attacker p = allianceWith w attacker p
    /\ filter (concerns p) (snd (f w)) = []
    /\ worldUnits (fst (f w)) = worldUnits w.

(** What the launch owes the attacked player [p], from the world [w]
    before the launch. *)
Definition diplomacyDue (w : World) (attacker p : PlayerID) : list Event :=
  (match findRequest w attacker p with
   | Some _ => [RejectRequest attacker p]
   | None => []
   end)
  ++ (match allianceWith w attacker p with
      | Some _ => [BreakAlliance attacker p]
      | None => []
      end)
  ++ (if Nat.eqb p attacker then []
      else [UpdateRelation p attacker (-100)]).

(** The methods that change the object. *)
Inductive Operation : Type :=
| OpInit (ticks : Z)
| OpTick (ticks : Z)
| OpDestroyInFlight
| OpDetonate
| OpTilesToDestroy.

Definition perform (op : Operation) : M unit :=
  match op with
  | OpInit t => init t
  | OpTick t => tick t
  | OpDestroyInFlight => destroyInFlight
  | OpDetonate => detonate
  | OpTilesToDestroy => _ <- tilesToDestroy ;; ret tt
  end.

(** The object after a sequence of operations, each one run on the
    world as the rest of the game has left it by then; an operation that
    throws leaves the object as it was at the throw. *)
Fixpoint history (ops : list (Operation * World)) (e : NukeExecution)
  : NukeExecution :=
  match ops with
  | [] => e
  | (op, w) :: rest => history rest (thisOf (perform op e w))
  end.

(** A method that never turns an inactive object active. *)
Definition staysInactive {A} (m : M A) : Prop :=
  forall e w, active e = false -> active (thisOf (m e w)) = false.

(** ** The tick scheduler and the diplomacy hook *)

Definition ExecID := nat.

(** The scheduler's state: the executions by identity, in insertion
    order, and the world. *)
Record Game : Type := mkGame {
  executions : list (ExecID * NukeExecution);
  world : World
}.

(** A scheduler pass ends, or the exception of an execution surfaces. *)
Inductive Pass (A : Type) : Type :=
| Done (a : A)
| Aborted (msg : string).

Arguments Done {A} a.
Arguments Aborted {A} msg.

Definition freshExecID (g : Game) : ExecID :=
  S (fold_right Nat.max 0 (map fst (executions g))).

(** Modelled from the spec: [Game.addExecution] is not in the sources;
    it appends the execution, queued, and does not run [init]. *)
Definition addExecution (e : NukeExecution) (g : Game) : Game :=
  mkGame (executions g ++ [(freshExecID g, e)]) (world g).

(** The work of one pass on one execution: [init] if it has not been
    initialised, then [tick], which the scheduler calls on no execution
    that reports inactive. *)
Definition runExecution : M unit :=
  this <- getThis ;;
  w <- getWorld ;;
  (if negb (mg this) then init (ticks w) else ret tt) ;;
  this' <- getThis ;;
  if isActive this' then tick (ticks w) else ret tt.

Fixpoint tickAll (l : list (ExecID * NukeExecution)) (w : World)
  : Pass (list (ExecID * NukeExecution) * World * list Event) :=
  match l with
  | [] => Done ([], w, [])
  | (i, e) :: l' =>
      match runExecution e w with
      | Ok _ e' w' out =>
          match tickAll l' w' with
          | Done (l'', w'', out') => Done ((i, e') :: l'', w'', out ++ out')
          | Aborted msg => Aborted msg
          end
      | Throw msg _ _ _ => Aborted msg
      end
  end.

Definition removeInactive (l : list (ExecID * NukeExecution))
  : list (ExecID * NukeExecution) :=
  filter (fun ie => isActive (snd ie)) l.

(** The end of a pass: the executions that report inactive are removed. *)
Definition sweep
    (r : Pass (list (ExecID * NukeExecution) * World * list Event))
  : Pass (list (ExecID * NukeExecution) * World * list Event) :=
  match r with
  | Done (l, w, out) => Done (removeInactive l, w, out)
  | Aborted msg => Aborted msg
  end.

(** Modelled from the spec: [Game.executeNextTick] is not in the
    sources.  One pass initialises the executions that are not yet
    initialised, ticks the executions in insertion order, removes those
    that report inactive, and advances the tick counter; once
    [isActive()] is false no further [tick] call occurs. *)
Definition executeNextTick (g : Game) : Pass (Game * list Event) :=
  match sweep (tickAll (executions g) (world g)) with
  | Done (l, w, out) => Done (mkGame l (set_ticks (ticks w + 1)%Z w), out)
  | Aborted msg => Aborted msg
  end.

Fixpoint runTicks (n : nat) (g : Game) : Pass (Game * list Event) :=
  match n with
  | O => Done (g, [])
  | S n' =>
      match executeNextTick g with
      | Done (g', out) =>
          match runTicks n' g' with
          | Done (g'', out') => Done (g'', out ++ out')
          | Aborted msg => Aborted msg
          end
      | Aborted msg => Aborted msg
      end
  end.

(** A strike of one of the two players that targets a tile owned by the
    other. *)
Definition strikeBetween (w : World) (p1 p2 : PlayerID) (e : NukeExecution)
  : bool :=
  match owner w (targetTile e) with
  | OwnerPlayer q =>
      (Nat.eqb (executionOwner e) p1 && Nat.eqb q p2)
      || (Nat.eqb (executionOwner e) p2 && Nat.eqb q p1)
  | TerraNullius => false
  end.

Fixpoint destroyAll (hit : NukeExecution -> bool)
    (l : list (ExecID * NukeExecution)) (w : World)
  : list (ExecID * NukeExecution) * World * list Event :=
  match l with
  | [] => ([], w, [])
  | (i, e) :: l' =>
      if hit e then
        let r := destroyInFlight e w in
        let '(l'', w'', out') := destroyAll hit l' (worldOf r) in
        ((i, thisOf r) :: l'', w'', outOf r ++ out')
      else
        let '(l'', w'', out') := destroyAll hit l' w in
        ((i, e) :: l'', w'', out')
  end.

(** Modelled from the spec: [Game.destroyNukesBetween], run when an
    alliance between [p1] and [p2] is accepted, is not in the sources.
    It calls [destroyInFlight] on every scheduled strike of one of the
    two players that targets a tile of the other, and reports how many
    of them were in flight and how many queued. *)
Definition destroyNukesBetween (p1 p2 : PlayerID) (g : Game)
  : Game * list Event * (nat * nat) :=
  let hit := strikeBetween (world g) p1 p2 in
  let struck := filter (fun ie => hit (snd ie) && isActive (snd ie))
                  (executions g) in
  let inFlight := length (filter (fun ie => isInFlight (snd ie)) struck) in
  let '(l, w, out) := destroyAll hit (executions g) (world g) in
  (mkGame l w, out, (inFlight, length struck - inFlight)).

(** ** What the other paths of the execution are said to do *)

(** The tiles that a detonation of the unit [u] destroys: the cached set
    if there is one, the set of the search otherwise. *)
Definition destroyedTiles (this : NukeExecution) (u : UnitID) (w : World)
  : list TileRef :=
  match tilesToDestroyCache this with
  | Some cache => cache
  | None =>
      let magnitude := nukeMagnitudes (unitTypeOf w u) in
      fst (bfs (destroyTest (dst this)
                  (inner magnitude * inner magnitude)%Z
                  (outer magnitude * outer magnitude)%Z)
             (dst this) (newPseudoRandom (ticks w)))
  end.

(** The reference "max troops" of a detonation in the world [w]. *)
Definition blastMaxTroops (this : NukeExecution) (w : World) : Z :=
  match owner w (dst this) with
  | OwnerPlayer p => maxTroops w p
  | TerraNullius => 1%Z
  end.

(** The calls of [detonate] on the world, in their order, for the tiles
    [toDestroy]; [w0] is the world at the start of the detonation. *)
Definition blast (this : NukeExecution) (u : UnitID) (w0 : World)
    (toDestroy : list TileRef) : Effect :=
  let magnitude := nukeMagnitudes (unitTypeOf w0 u) in
  andThen
    (forEach toDestroy (destroyTile (nukeType this) (blastMaxTroops this w0)))
    (andThen
       (destroyUnits (player this) (dst this)
          (outer magnitude * outer magnitude)%Z)
       (andThen
          (redrawBuildings (dst this) (outer magnitude + SPRITE_RADIUS)%Z)
          (andThen (unitSetReachedTarget u) (unitDelete u false None)))).

(** The object after a detonation: inactive, with the tiles cached. *)
Definition detonated (this : NukeExecution) (u : UnitID) (w : World)
  : NukeExecution :=
  set_active false
    match tilesToDestroyCache this with
    | Some _ => this
    | None =>
        set_tilesToDestroyCache (Some (destroyedTiles this u w)) this
    end.

Definition isBuildUnit (ev : Event) : bool :=
  match ev with
  | BuildUnit _ _ _ _ => true
  | _ => false
  end.

(** An effect that adds no unit to the world, removes none and builds
    none. *)
Definition keepsUnits (f : Effect) : Prop :=
  forall w,
    map unit_id (worldUnits (fst (f w))) = map unit_id (worldUnits w)
    /\ filter isBuildUnit (snd (f w)) = [].

(** A method that, run on an object that holds the unit [u], leaves the
    reference on [u], adds no unit to the world and builds none. *)
Definition holdsUnit {A} (u : UnitID) (m : M A) : Prop :=
  forall e w,
    nuke e = Some u ->
    nuke (thisOf (m e w)) = Some u
    /\ map unit_id (worldUnits (worldOf (m e w))) = map unit_id (worldUnits w)
    /\ filter isBuildUnit (outOf (m e w)) = [].

(** An object on which [init] has run. *)
Definition isInitialised (e : NukeExecution) : Prop :=
  mg e = true /\ pathFinder e <> None.

(** The trajectory that [getTrajectory] computes on the object [this]
    whose path finder is [pf]. *)
Definition launchTrajectory (this : NukeExecution) (pf : PF)
  : list TrajectoryTile :=
  map
    (fun tile =>
       mkTrajectoryTile tile
         (isTargetable this (dst this) tile
            (defaultNukeTargetableRange ^ 2)%Z))
    (allTiles pf).

(** The call of [updateNukeTargetable] on the world. *)
Definition retarget (this : NukeExecution) : Effect :=
  fun w =>
    match nuke this with
    | None => skip w
    | Some u =>
        match findUnit w u with
        | None => skip w
        | Some x =>
            match unit_targetTile x with
            | None => skip w
            | Some targetTile =>
                unitSetTargetable u
                  (isTargetable this targetTile (unit_tile x)
                     (defaultNukeTargetableRange ^ 2)%Z) w
            end
        end
    end.


(** The world [w] differs from [w0] in its units at most. *)
Definition unitsOnly (w0 w : World) : Prop :=
  tileOwners w = tileOwners w0 /\ playerTroops w = playerTroops w0
  /\ attacks w = attacks w0 /\ fallout w = fallout w0
  /\ allianceRequests w = allianceRequests w0 /\ alliances w = alliances w0
  /\ ticks w = ticks w0.

(** The test of the collateral loop of [detonate] on a unit. *)
Definition collateral (d : TileRef) (outer2 : Z) (x : Unit) : bool :=
  negb (isNukeUnitType (unit_type x))
  && Z.ltb (euclideanDistSquared d (unit_tile x)) outer2.

(** The units [x] and [y] are the same object up to the troops aboard. *)
Definition sameButTroops (x y : Unit) : Prop :=
  unit_id y = unit_id x /\ unit_type y = unit_type x
  /\ unit_owner y = unit_owner x /\ unit_tile y = unit_tile x
  /\ unit_active y = unit_active x.

(** What a detonation of the unit [u] at [d] makes of the unit [x]. *)
Definition afterBlast (u : UnitID) (d : TileRef) (outer2 : Z) (x y : Unit)
  : Prop :=
  unit_id y = unit_id x /\ unit_type y = unit_type x
  /\ unit_owner y = unit_owner x /\ unit_tile y = unit_tile x
  /\ unit_active y
     = unit_active x && negb (collateral d outer2 x)
       && negb (Nat.eqb (unit_id x) u).

(** [Player.outgoingAttacks] of [p]. *)
Definition attacksOf (w : World) (p : PlayerID) : list Attack :=
  filter (fun a => Nat.eqb (attack_owner a) p) (attacks w).

(** The outcome of a method with the [active] flag of the object
    forgotten. *)
Definition forgetActive {A} (r : Result A) : Result A :=
  match r with
  | Ok a this w out => Ok a (set_active true this) w out
  | Throw msg this w out => Throw msg (set_active true this) w out
  end.

(** Two objects that differ in the [active] flag at most. *)
Definition sameButActive (e e' : NukeExecution) : Prop :=
  set_active true e = set_active true e'.

(** On objects that differ in [active] at most, [m] and [m'] have the
    same outcome, up to [active]. *)
Definition blind {A} (m m' : M A) : Prop :=
  forall e e' w,
    sameButActive e e' -> forgetActive (m e w) = forgetActive (m' e' w).

(** The call of [cooldownSilo]: the launch of the first missile silo of
    [p] on the tile [spawn], if there is one. *)
Definition siloCalls (p : PlayerID) (spawn : TileRef) (w : World)
  : list Event :=
  match find (fun silo => Nat.eqb (unit_tile silo) spawn)
          (playerUnits w p MissileSilo) with
  | Some silo => [SiloLaunch (unit_id silo)]
  | None => []
  end.

Definition isSiloCall (ev : Event) : bool :=
  match ev with
  | SiloLaunch _ => true
  | _ => false
  end.

End Execution.

Arguments Ok {PF A} a this w out.
Arguments Throw {PF A} msg this w out.
Arguments Done {A} a.
Arguments Aborted {A} msg.
Arguments newNukeExecution {PF} ty p d s sp wt.

(** ** A small game to run the execution on

    An 8 x 8 map of land, a missile silo of player 1 on tile 0, and
    collaborators simple enough to evaluate. *)
Module Demo.

Definition width : nat := 8.
Definition height : nat := 8.
Definition ref (x y : nat) : TileRef := y * width + x.
Definition xOf (t : TileRef) : Z := Z.of_nat (t mod width).
Definition yOf (t : TileRef) : Z := Z.of_nat (t / width).

Definition dist2 (a b : TileRef) : Z :=
  ((xOf a - xOf b) * (xOf a - xOf b) + (yOf a - yOf b) * (yOf a - yOf b))%Z.

Definition gridNeighbors (t : TileRef) : list TileRef :=
  (if width <=? t then [t - width] else [])
  ++ (if t <? (height - 1) * width then [t + width] else [])
  ++ (if Nat.eqb (t mod width) 0 then [] else [t - 1])
  ++ (if Nat.eqb (t mod width) (width - 1) then [] else [t + 1]).

Definition tiles : list TileRef := seq 0 (width * height).

#[export] Instance grid : GameMap := {|
  mapTiles := tiles;
  euclideanDistSquared := dist2;
  neighbors := gridNeighbors;
  isLand := fun _ => true;
  circleSearch := fun c r =>
    List.map (fun t => (t, dist2 c t))
      (filter (fun t => Z.leb (dist2 c t) (r * r)) tiles)
|}.

Definition magnitudes (ty : UnitType) : Magnitude :=
  match ty with
  | Nuke AtomBomb => mkMagnitude 1 2
  | Nuke HydrogenBomb => mkMagnitude 2 3
  | Nuke MIRVWarhead => mkMagnitude 1 1
  | _ => mkMagnitude 0 0
  end.

#[export] Instance config : Config := {|
  defaultNukeSpeed := 20;
  nukeMagnitudes := magnitudes;
  nukeAllianceBreakThreshold := 0%Q;
  defaultNukeTargetableRange := 2;
  maxTroops := fun _ _ => 1000%Z;
  nukeDeathFactor := fun _ troops _ _ => (troops / 2)%Z
|}.

Definition siloOf (w : World) (p : PlayerID) : option TileRef :=
  option_map unit_tile
    (find (fun x => Nat.eqb (unit_owner x) p
                    && UnitType_eqb (unit_type x) MissileSilo) (units w)).

#[export] Instance rules : GameRules := {|
  isStructureType := fun ty => UnitType_eqb ty MissileSilo;
  canBuild := fun w p _ _ => siloOf w p;
  playerName := fun p => if Nat.eqb p 1 then "player1"%string
                         else "player"%string
|}.

(** The planner walks the tile numbers from the launch site to the
    destination, [speed] tiles a step. *)
Record Path : Type := mkPath { pathTiles : list TileRef; cursor : nat }.

Definition walk (a b : TileRef) : list TileRef :=
  if a <=? b then seq a (S (b - a)) else rev (seq b (S (a - b))).

Definition stepPath (p : Path) (speed : Z) : NextTile * Path :=
  let c := cursor p + Z.to_nat speed in
  if length (pathTiles p) <=? S c then (Arrived, mkPath (pathTiles p) c)
  else (Next (nth c (pathTiles p) 0), mkPath (pathTiles p) c).

#[export] Instance planner : PathFinderOps Path := {|
  newPathFinder := mkPath [] 0;
  computeControlPoints := fun _ a b _ _ => mkPath (walk a b) 0;
  nextTile := stepPath;
  currentIndex := fun p => Z.of_nat (cursor p);
  allTiles := pathTiles
|}.

(** A linear congruential generator. *)
Definition lcg (s : Z) : Z := ((1103515245 * s + 12345) mod 2147483648)%Z.

#[export] Instance random : RandomOps Z := {|
  newPseudoRandom := fun seed => (seed mod 2147483648)%Z;
  chance := fun s odds =>
    (Z.eqb ((lcg s * odds) / 2147483648) 0, lcg s)
|}.

Definition silo : Unit :=
  mkUnit 1 MissileSilo 1 (ref 0 0) true None [] 0%Z true false 0%Z.

(** Player 1 owns tile (0,0), player 2 the tiles (0,1), (3,3) and (4,3),
    player 3 tile (6,6). *)
Definition world0 : World :=
  mkWorld 5%Z
    [(ref 0 0, 1); (ref 0 1, 2); (ref 3 3, 2); (ref 4 3, 2); (ref 6 6, 3)]
    [silo]
    [(1, 100%Z); (2, 80%Z); (3, 60%Z)]
    [mkAttack 2 10%Z]
    []
    []
    [].

Definition Exec : Type := NukeExecution Path.

Definition strike (ty : NukeType) (d : TileRef) : Exec :=
  newNukeExecution ty 1 d None (-1)%Z 0%Z.

Definition initialised (e : Exec) : Exec := thisOf (init 0%Z e world0).

(** A world in which player 1 has no silo left. *)
Definition noSilo : World := set_worldUnits [] world0.

Definition atomStrike : Exec := initialised (strike AtomBomb (ref 3 3)).

Definition warheadStrike : Exec :=
  initialised (strike MIRVWarhead (ref 3 3)).

(** The atom strike after its launch tick, and the world then. *)
Definition launchedStrike : Exec :=
  fst (fst (ticks_in_a_row (Rng := Z) 1 atomStrike world0)).

Definition launchedWorld : World :=
  snd (fst (ticks_in_a_row (Rng := Z) 1 atomStrike world0)).

(** The world after a defence of player 3 has shot the unit down. *)
Definition interceptedWorld : World :=
  fst (unitDelete 2 true (Some 3) launchedWorld).

(** The same strike with a launch delay of three ticks. *)
Definition delayedStrike : Exec := set_waitTicks 3%Z launchedStrike.

(** Player 1 has asked player 2 for an alliance and is allied with
    player 2 already. *)
Definition alliedWorld : World :=
  set_alliances [(2, 1)] (set_allianceRequests [(1, 2)] world0).

(** Two queued strikes of player 1: a hydrogen bomb on player 3 and an
    atom bomb on player 2. *)
Definition game0 : Game Path :=
  addExecution (strike AtomBomb (ref 3 3))
    (addExecution (strike HydrogenBomb (ref 6 6)) (mkGame [] world0)).

(** The atom strike before [init]. *)
Definition queuedStrike : Exec := strike AtomBomb (ref 3 3).

(** The unit object [u] of the world [w]. *)
Definition unitOf (w : World) (u : UnitID) : Unit :=
  match findUnit w u with
  | Some x => x
  | None => silo
  end.

(** The atom strike after its launch tick and one step of flight: the
    next tick reaches the target. *)
Definition arrivingStrike : Exec :=
  fst (fst (ticks_in_a_row (Rng := Z) 2 atomStrike world0)).

Definition arrivingWorld : World :=
  snd (fst (ticks_in_a_row (Rng := Z) 2 atomStrike world0)).

End Demo.

(** ** Facts about the execution *)

Unset Implicit Arguments.

Section Facts.
Variable PF : Type.
Variable Rng : Type.
Context {pfOps : PathFinderOps PF} {rngOps : RandomOps Rng}.
Context {cfg : Config} {gm : GameMap} {rules : GameRules}.

Ltac run :=
  unfold derefMg, derefPathFinder;
  unfold bind, getThis, getWorld, modifyThis, emit, ret, call, throw;
  cbn [thisOf worldOf outOf app].

(** *** Unit objects *)

Lemma findUnit_updateUnit (u : UnitID) (f : Unit -> Unit) (w : World) :
  (forall x, unit_id (f x) = unit_id x) ->
  findUnit (updateUnit u f w) u = option_map f (findUnit w u).
Proof.
  intros Hid. unfold findUnit, updateUnit. simpl.
  induction (worldUnits w) as [|x l IH]; simpl; [reflexivity|].
  destruct (Nat.eqb (unit_id x) u) eqn:E; simpl.
  - rewrite Hid, E. reflexivity.
  - rewrite E. exact IH.
Qed.

Lemma unitDelete_inactive (u : UnitID) (b : bool) (d : option PlayerID)
    (w : World) :
  unitIsActive (fst (unitDelete u b d w)) u = false.
Proof.
  unfold unitDelete, unitIsActive. simpl.
  rewrite findUnit_updateUnit by reflexivity.
  destruct (findUnit w u); reflexivity.
Qed.

(** *** Forced cancellation *)

(** C10.  [destroyInFlight] on an active execution deletes the spawned
    unit if there is one, clears the reference, so that [isInFlight()]
    is false, and makes the execution inactive; on an inactive
    execution it changes nothing, so a second call in a row is always a
    no-op. *)
Theorem destroyInFlight_once (e : NukeExecution PF) (w : World) :
  (isActive e = true ->
   exists e' w' out,
     destroyInFlight e w = Ok tt e' w' out
     /\ isActive e' = false
     /\ isInFlight e' = false
     /\ match nuke e with
        | Some u =>
            (w', out) = unitDelete u false None w
            /\ unitIsActive w' u = false
        | None => w' = w /\ out = []
        end)
  /\ (isActive e = false -> destroyInFlight e w = Ok tt e w [])
  /\ (let r := destroyInFlight e w in
      destroyInFlight (thisOf r) (worldOf r)
      = Ok tt (thisOf r) (worldOf r) []).
Proof.
  unfold isActive, isInFlight, destroyInFlight.
  split; [|split].
  - intros Ha. run. rewrite Ha. cbn [negb].
    destruct (nuke e) as [u|] eqn:En; run.
    + do 3 eexists. split; [reflexivity|]. simpl.
      repeat split. apply (unitDelete_inactive u false None w).
    + do 3 eexists. split; [reflexivity|]. simpl. rewrite En. auto.
  - intros Ha. run. rewrite Ha. reflexivity.
  - run. destruct (active e) eqn:Ha; cbn [negb].
    + destruct (nuke e); reflexivity.
    + run. rewrite Ha. reflexivity.
Qed.

(** *** Launch delay *)

(** C9.  On an in-flight tick with the unit still active and a positive
    wait-tick counter, the counter goes down by one and nothing else
    changes: the world (the unit's tile, trajectory index and targetable
    flag with it) is the same, no call is made on a collaborator, and
    the execution is as active as before. *)
Theorem tick_waits (t : Z) (e : NukeExecution PF) (w : World) (u : UnitID) :
  nuke e = Some u ->
  unitIsActive w u = true ->
  (0 < waitTicks e)%Z ->
  tick t e w = Ok tt (set_waitTicks (waitTicks e - 1) e) w []
  /\ isActive (set_waitTicks (waitTicks e - 1) e) = isActive e
  /\ pathFinder (set_waitTicks (waitTicks e - 1) e) = pathFinder e
  /\ nuke (set_waitTicks (waitTicks e - 1) e) = Some u.
Proof.
  intros Hn Hu Hw. repeat split; try assumption.
  unfold tick. run. rewrite Hn. run. rewrite Hu. cbn [negb].
  apply Z.ltb_lt in Hw. rewrite Hw. reflexivity.
Qed.

(** *** Interception *)

Lemma tick_intercepted (t : Z) (e : NukeExecution PF) (w : World) (u : UnitID) :
  nuke e = Some u ->
  unitIsActive w u = false ->
  tick t e w = Ok tt (set_active false e) w [intercepted].
Proof.
  intros Hn Hu. unfold tick. run. rewrite Hn. run. rewrite Hu. reflexivity.
Qed.

(** C6.  When the spawned unit has been deactivated, the tick makes the
    execution inactive and calls no collaborator: it only logs a line,
    without an exception, and leaves the world as it was.  The same holds
    on every later tick, in a row or on any later world in which the unit
    is still inactive, so that nothing of a detonation ever happens. *)
Theorem tick_after_interception (t : Z) (e : NukeExecution PF) (w : World)
    (u : UnitID) :
  nuke e = Some u ->
  unitIsActive w u = false ->
  tick t e w = Ok tt (set_active false e) w [intercepted]
  /\ isActive (set_active false e) = false
  /\ (forall n,
        ticks_in_a_row (Rng := Rng) (S n) e w
        = (set_active false e, w, repeat intercepted (S n)))
  /\ forall t' w',
       unitIsActive w' u = false ->
       tick (Rng := Rng) t' (set_active false e) w'
       = Ok tt (set_active false e) w' [intercepted].
Proof.
  intros Hn Hu. split; [exact (@tick_intercepted t e w u Hn Hu)|].
  split; [reflexivity|]. split.
  - intros n. revert e Hn. induction n as [|n IH]; intros e Hn.
    + simpl. rewrite (@tick_intercepted 0%Z e w u Hn Hu). reflexivity.
    + change (ticks_in_a_row (Rng := Rng) (S (S n)) e w)
        with (let r := tick (Rng := Rng) 0%Z e w in
              let '(e', w', out) :=
                ticks_in_a_row (Rng := Rng) (S n) (thisOf r) (worldOf r) in
              (e', w', outOf r ++ out)).
      rewrite (@tick_intercepted 0%Z e w u Hn Hu). cbn [thisOf worldOf outOf].
      rewrite IH by exact Hn. reflexivity.
  - intros t' w' Hu'.
    exact (@tick_intercepted t' (set_active false e) w' u Hn Hu').
Qed.

(** *** Launch refusal *)

Lemma tick_refused (t : Z) (e : NukeExecution PF) (w : World) :
  nuke e = None ->
  canBuild w (player e) (nukeType e) (dst e) = None ->
  tick t e w = Ok tt (set_active false e) w [cannotBuild].
Proof.
  intros Hn Hc. unfold tick. run. rewrite Hn. run. rewrite Hc. reflexivity.
Qed.

(** *** The scheduler leaves an inactive execution alone *)

Lemma init_ok (t : Z) (e : NukeExecution PF) (w : World) :
  exists e',
    init t e w = Ok tt e' w []
    /\ active e' = active e /\ nuke e' = nuke e /\ mg e' = true.
Proof.
  unfold init. run. cbn [set_mg speed].
  destruct (Z.eqb (speed e) (-1)); run; eexists; split;
    try reflexivity; auto.
Qed.

Lemma runExecution_inactive (e : NukeExecution PF) (w : World) :
  isActive e = false ->
  exists e',
    runExecution (Rng := Rng) e w = Ok tt e' w []
    /\ isActive e' = false /\ nuke e' = nuke e.
Proof.
  unfold isActive. intros Ha. unfold runExecution. run.
  destruct (mg e) eqn:Em; cbn [negb]; run.
  - unfold isActive. rewrite Ha. run. eauto.
  - destruct (init_ok (ticks w) e w) as (e' & Hi & Ha' & Hn' & _).
    rewrite Hi. run. unfold isActive. rewrite Ha', Ha. run.
    exists e'. rewrite Ha', Hn'. auto.
Qed.

Lemma sweep_cons_inactive (i : ExecID) (e : NukeExecution PF)
    (r : Pass (list (ExecID * NukeExecution PF) * World * list Event)) :
  isActive e = false ->
  sweep match r with
        | Done (l, w, out) => Done ((i, e) :: l, w, [] ++ out)
        | Aborted msg => Aborted msg
        end
  = sweep r.
Proof.
  intros Ha. destruct r as [[[l w] out]|msg]; simpl; [|reflexivity].
  rewrite Ha. reflexivity.
Qed.

Lemma sweep_cons (i : ExecID) (e : NukeExecution PF) (o : list Event)
    (r r' : Pass (list (ExecID * NukeExecution PF) * World * list Event)) :
  sweep r = sweep r' ->
  sweep match r with
        | Done (l, w, out) => Done ((i, e) :: l, w, o ++ out)
        | Aborted msg => Aborted msg
        end
  = sweep match r' with
          | Done (l, w, out) => Done ((i, e) :: l, w, o ++ out)
          | Aborted msg => Aborted msg
          end.
Proof.
  destruct r as [[[l w] out]|msg], r' as [[[l' w'] out']|msg']; simpl;
    intros H; inversion H; subst; reflexivity.
Qed.

(** A pass over a list that holds an inactive execution ends as the pass
    over the list without it. *)
Lemma tickAll_inert (i : ExecID) (e : NukeExecution PF)
    (l1 l2 : list (ExecID * NukeExecution PF)) (w : World) :
  isActive e = false ->
  sweep (tickAll (Rng := Rng) (l1 ++ (i, e) :: l2) w)
  = sweep (tickAll (Rng := Rng) (l1 ++ l2) w).
Proof.
  intros Ha. revert w. induction l1 as [|[j a] l1 IH]; intros w.
  - cbn [app tickAll].
    destruct (runExecution_inactive e w Ha) as (e' & Hr & Ha' & _).
    rewrite Hr. apply sweep_cons_inactive. exact Ha'.
  - cbn [app tickAll].
    destruct (runExecution a w) as [[] a' w' out|msg a' w' out];
      [|reflexivity].
    apply sweep_cons. apply IH.
Qed.

Lemma executeNextTick_inert (i : ExecID) (e : NukeExecution PF)
    (l1 l2 : list (ExecID * NukeExecution PF)) (w : World) :
  isActive e = false ->
  executeNextTick (Rng := Rng) (mkGame (l1 ++ (i, e) :: l2) w)
  = executeNextTick (Rng := Rng) (mkGame (l1 ++ l2) w).
Proof.
  intros Ha. unfold executeNextTick. cbn [executions world].
  rewrite (tickAll_inert i e l1 l2 w Ha). reflexivity.
Qed.

Lemma runTicks_inert (i : ExecID) (e : NukeExecution PF)
    (l1 l2 : list (ExecID * NukeExecution PF)) (w : World) (n : nat) :
  isActive e = false ->
  runTicks (Rng := Rng) (S n) (mkGame (l1 ++ (i, e) :: l2) w)
  = runTicks (Rng := Rng) (S n) (mkGame (l1 ++ l2) w).
Proof.
  intros Ha. cbn [runTicks].
  rewrite (executeNextTick_inert i e l1 l2 w Ha). reflexivity.
Qed.

Lemma tickAll_ids (l l' : list (ExecID * NukeExecution PF)) (w w' : World)
    (out : list Event) :
  tickAll (Rng := Rng) l w = Done (l', w', out) -> map fst l' = map fst l.
Proof.
  revert l' w w' out. induction l as [|[j a] l IH]; intros l' w w' out H.
  - simpl in H. inversion H. reflexivity.
  - simpl in H.
    destruct (runExecution a w) as [[] a' w1 o1|msg a' w1 o1];
      [|discriminate].
    destruct (tickAll l w1) as [[[l2 w2] o2]|msg] eqn:E; [|discriminate].
    inversion H; subst. simpl. f_equal. eapply IH. exact E.
Qed.

Lemma executeNextTick_ids (g g' : Game PF) (out : list Event) (i : ExecID) :
  executeNextTick (Rng := Rng) g = Done (g', out) ->
  In i (map fst (executions g')) -> In i (map fst (executions g)).
Proof.
  unfold executeNextTick, sweep.
  destruct (tickAll (executions g) (world g)) as [[[l w] o]|msg] eqn:E;
    [|discriminate].
  intros H Hi. inversion H; subst. cbn [executions] in Hi.
  rewrite <- (tickAll_ids _ _ _ _ _ E).
  unfold removeInactive in Hi. apply in_map_iff in Hi.
  destruct Hi as (x & Hx & Hin). apply filter_In in Hin.
  apply in_map_iff. exists x. tauto.
Qed.

Lemma runTicks_ids (n : nat) (g g' : Game PF) (out : list Event)
    (i : ExecID) :
  runTicks (Rng := Rng) n g = Done (g', out) ->
  In i (map fst (executions g')) -> In i (map fst (executions g)).
Proof.
  revert g g' out. induction n as [|n IH]; intros g g' out H Hi.
  - simpl in H. inversion H; subst. exact Hi.
  - simpl in H.
    destruct (executeNextTick g) as [[g1 o1]|msg] eqn:E; [|discriminate].
    destruct (runTicks n g1) as [[g2 o2]|msg] eqn:E2; [|discriminate].
    inversion H; subst.
    eapply executeNextTick_ids; [exact E|]. eapply IH; eassumption.
Qed.

(** C5.  When [canBuild] refuses on a tick without a unit, the tick ends
    without an exception, the execution is inactive from that tick on
    and still has no unit, the world is untouched and the only output
    is the warning: no diplomacy call, no statistics.  The scheduler
    then treats the execution as if it were not there, so that no unit
    is created on a later pass either. *)
Theorem tick_launch_refused (t : Z) (e : NukeExecution PF) (w : World) :
  nuke e = None ->
  canBuild w (player e) (nukeType e) (dst e) = None ->
  tick t e w = Ok tt (set_active false e) w [cannotBuild]
  /\ isActive (set_active false e) = false
  /\ isInFlight (set_active false e) = false
  /\ forall (i : ExecID) (l1 l2 : list (ExecID * NukeExecution PF))
            (w0 : World) (n : nat),
       runTicks (Rng := Rng) (S n)
         (mkGame (l1 ++ (i, set_active false e) :: l2) w0)
       = runTicks (Rng := Rng) (S n) (mkGame (l1 ++ l2) w0).
Proof.
  intros Hn Hc. split; [exact (@tick_refused t e w Hn Hc)|].
  split; [reflexivity|]. split.
  - unfold isInFlight. cbn [set_active nuke]. rewrite Hn. reflexivity.
  - intros i l1 l2 w0 n. apply runTicks_inert. reflexivity.
Qed.

(** *** Cancellation by an accepted alliance *)

Lemma destroyInFlight_queued (e : NukeExecution PF) (w : World) :
  nuke e = None ->
  exists e1,
    destroyInFlight e w = Ok tt e1 w []
    /\ isActive e1 = false /\ nuke e1 = None.
Proof.
  intros Hn. unfold destroyInFlight. run.
  destruct (active e) eqn:Ha; cbn [negb]; run.
  - rewrite Hn. run. eexists. split; [reflexivity|].
    unfold isActive. cbn [set_active active nuke]. auto.
  - exists e. unfold isActive. auto.
Qed.

Lemma destroyAll_app (hit : NukeExecution PF -> bool)
    (l1 l2 : list (ExecID * NukeExecution PF)) (w : World) :
  destroyAll hit (l1 ++ l2) w
  = let '(a, w1, o1) := destroyAll hit l1 w in
    let '(b, w2, o2) := destroyAll hit l2 w1 in
    (a ++ b, w2, o1 ++ o2).
Proof.
  revert w. induction l1 as [|[j a] l1 IH]; intros w; cbn [app destroyAll].
  - destruct (destroyAll hit l2 w) as [[b w2] o2]. reflexivity.
  - destruct (hit a).
    + rewrite IH.
      destruct (destroyAll hit l1 (worldOf (destroyInFlight a w)))
        as [[x w1] o1].
      destruct (destroyAll hit l2 w1) as [[b w2] o2].
      cbn [app]. rewrite app_assoc. reflexivity.
    + rewrite IH.
      destruct (destroyAll hit l1 w) as [[x w1] o1].
      destruct (destroyAll hit l2 w1) as [[b w2] o2].
      reflexivity.
Qed.

Lemma destroyAll_ids (hit : NukeExecution PF -> bool)
    (l : list (ExecID * NukeExecution PF)) (w : World) :
  map fst (fst (fst (destroyAll hit l w))) = map fst l.
Proof.
  revert w. induction l as [|[j a] l IH]; intros w; cbn [destroyAll];
    [reflexivity|].
  destruct (hit a).
  - specialize (IH (worldOf (destroyInFlight a w))).
    destruct (destroyAll hit l (worldOf (destroyInFlight a w)))
      as [[x w1] o1].
    simpl in *. f_equal. exact IH.
  - specialize (IH w). destruct (destroyAll hit l w) as [[x w1] o1].
    simpl in *. f_equal. exact IH.
Qed.

Lemma destroyNukesBetween_game (p1 p2 : PlayerID) (g : Game PF) :
  fst (fst (destroyNukesBetween p1 p2 g))
  = let r := destroyAll (strikeBetween (world g) p1 p2) (executions g)
               (world g) in
    mkGame (fst (fst r)) (snd (fst r)).
Proof.
  unfold destroyNukesBetween.
  destruct (destroyAll (strikeBetween (world g) p1 p2) (executions g)
              (world g)) as [[l w] out].
  reflexivity.
Qed.

(** C1.  A strike that is still queued (it has no unit) when the
    alliance between its owner and the owner of its target tile is
    accepted is inactive and without a unit afterwards.  Every run of
    the scheduler from there, over one pass or more, ends exactly as the
    run from the same state without that execution: it spawns no unit
    and makes no call; and after the run the scheduler no longer holds
    it. *)
Theorem queued_strike_never_launches_after_alliance
    (g : Game PF) (l1 l2 : list (ExecID * NukeExecution PF)) (i : ExecID)
    (e : NukeExecution PF) (p1 p2 : PlayerID) :
  executions g = l1 ++ (i, e) :: l2 ->
  ~ In i (map fst (l1 ++ l2)) ->
  isInFlight e = false ->
  strikeBetween (world g) p1 p2 e = true ->
  let g1 := fst (fst (destroyNukesBetween p1 p2 g)) in
  exists l1' e1 l2',
    executions g1 = l1' ++ (i, e1) :: l2'
    /\ isActive e1 = false
    /\ isInFlight e1 = false
    /\ forall n,
         runTicks (Rng := Rng) (S n) g1
         = runTicks (Rng := Rng) (S n) (mkGame (l1' ++ l2') (world g1))
         /\ forall g' out,
              runTicks (Rng := Rng) (S n) g1 = Done (g', out) ->
              ~ In i (map fst (executions g')).
Proof.
  intros Hl Hi Hq Hs. cbv zeta.
  assert (Hn : nuke e = None).
  { unfold isInFlight in Hq. destruct (nuke e); [discriminate|reflexivity]. }
  rewrite destroyNukesBetween_game. rewrite Hl.
  rewrite destroyAll_app. cbn [destroyAll]. rewrite Hs.
  pose proof (destroyAll_ids (strikeBetween (world g) p1 p2) l1 (world g))
    as Hid1.
  destruct (destroyAll (strikeBetween (world g) p1 p2) l1 (world g))
    as [[l1' w1] o1].
  destruct (destroyInFlight_queued e w1 Hn) as (e1 & Hd & Ha1 & Hn1).
  rewrite Hd. cbn [thisOf worldOf outOf].
  pose proof (destroyAll_ids (strikeBetween (world g) p1 p2) l2 w1) as Hid2.
  destruct (destroyAll (strikeBetween (world g) p1 p2) l2 w1)
    as [[l2' w2] o2].
  cbn [fst snd] in Hid1, Hid2. cbn [fst snd executions world].
  exists l1', e1, l2'. split; [reflexivity|]. split; [exact Ha1|].
  split; [unfold isInFlight; rewrite Hn1; reflexivity|].
  intros n. split; [apply runTicks_inert; exact Ha1|].
  intros g' out Hrun Hin.
  rewrite (runTicks_inert i e1 l1' l2' w2 n Ha1) in Hrun.
  apply (runTicks_ids _ _ _ _ i Hrun) in Hin. cbn [executions] in Hin.
  apply Hi. rewrite map_app in *. rewrite Hid1, Hid2 in Hin. exact Hin.
Qed.

(** *** Inactive is final *)

Lemma staysInactive_bind {A B} (m : M PF A) (k : A -> M PF B) :
  staysInactive m -> (forall a, staysInactive (k a)) ->
  staysInactive (bind m k).
Proof.
  intros Hm Hk e w Ha. unfold bind.
  specialize (Hm e w Ha).
  destruct (m e w) as [a e1 w1 o1|msg e1 w1 o1]; cbn [thisOf] in *;
    [|exact Hm].
  specialize (Hk a e1 w1 Hm).
  destruct (k a e1 w1); exact Hk.
Qed.

Lemma staysInactive_ret {A} (a : A) : staysInactive (ret (PF := PF) a).
Proof. intros e w Ha. exact Ha. Qed.

Lemma staysInactive_throw {A} (msg : string) :
  staysInactive (throw (PF := PF) (A := A) msg).
Proof. intros e w Ha. exact Ha. Qed.

Lemma staysInactive_getThis : staysInactive (getThis (PF := PF)).
Proof. intros e w Ha. exact Ha. Qed.

Lemma staysInactive_getWorld : staysInactive (getWorld (PF := PF)).
Proof. intros e w Ha. exact Ha. Qed.

Lemma staysInactive_emit (ev : Event) : staysInactive (emit (PF := PF) ev).
Proof. intros e w Ha. exact Ha. Qed.

Lemma staysInactive_call (f : Effect) : staysInactive (call (PF := PF) f).
Proof. intros e w Ha. unfold call. destruct (f w). exact Ha. Qed.

Lemma staysInactive_modifyThis (f : NukeExecution PF -> NukeExecution PF) :
  (forall e, active e = false -> active (f e) = false) ->
  staysInactive (modifyThis f).
Proof. intros Hf e w Ha. apply Hf. exact Ha. Qed.

Lemma staysInactive_callBuildUnit (p : PlayerID) (ty : NukeType)
    (s d : TileRef) (tr : list TrajectoryTile) :
  staysInactive (callBuildUnit (PF := PF) p ty s d tr).
Proof. intros e w Ha. exact Ha. Qed.

Ltac stays :=
  repeat first
    [ apply staysInactive_ret
    | apply staysInactive_throw
    | apply staysInactive_getThis
    | apply staysInactive_getWorld
    | apply staysInactive_emit
    | apply staysInactive_call
    | apply staysInactive_callBuildUnit
    | apply staysInactive_modifyThis; intros ? ?; assumption
    | apply staysInactive_modifyThis; intros ? ?; reflexivity
    | apply staysInactive_bind; [|intro]
    | assumption
    | match goal with
      | |- staysInactive (match ?x with _ => _ end) => destruct x
      end ].

Lemma staysInactive_derefMg : staysInactive (derefMg (PF := PF)).
Proof. unfold derefMg. stays. Qed.

Lemma staysInactive_derefPathFinder :
  staysInactive (derefPathFinder (PF := PF)).
Proof. unfold derefPathFinder. stays. Qed.

Lemma staysInactive_init (t : Z) : staysInactive (init (PF := PF) t).
Proof. unfold init. stays. Qed.

Lemma staysInactive_target : staysInactive (target (PF := PF)).
Proof. unfold target. stays. Qed.

Lemma staysInactive_tilesInRange : staysInactive (tilesInRange (PF := PF)).
Proof.
  pose proof staysInactive_derefMg. unfold tilesInRange. stays.
Qed.

Lemma staysInactive_tilesToDestroy :
  staysInactive (tilesToDestroy (PF := PF) (Rng := Rng)).
Proof.
  pose proof staysInactive_derefMg. unfold tilesToDestroy. stays.
Qed.

Lemma staysInactive_destroyInFlight :
  staysInactive (destroyInFlight (PF := PF)).
Proof. unfold destroyInFlight. stays. Qed.

Lemma staysInactive_maybeBreakAlliances (r : list (TileRef * Q)) :
  staysInactive (maybeBreakAlliances (PF := PF) r).
Proof.
  pose proof staysInactive_derefMg. unfold maybeBreakAlliances. stays.
Qed.

Lemma staysInactive_getTrajectory (d : TileRef) :
  staysInactive (getTrajectory (PF := PF) d).
Proof.
  pose proof staysInactive_derefMg.
  pose proof staysInactive_derefPathFinder.
  unfold getTrajectory. stays.
Qed.

Lemma staysInactive_updateNukeTargetable :
  staysInactive (updateNukeTargetable (PF := PF)).
Proof.
  pose proof staysInactive_derefMg. unfold updateNukeTargetable. stays.
Qed.

Lemma staysInactive_detonate :
  staysInactive (detonate (PF := PF) (Rng := Rng)).
Proof.
  pose proof staysInactive_derefMg.
  pose proof staysInactive_target.
  pose proof staysInactive_tilesToDestroy.
  unfold detonate. stays.
Qed.

Lemma staysInactive_announceLaunch (u : UnitID) :
  staysInactive (announceLaunch (PF := PF) u).
Proof.
  pose proof staysInactive_derefMg. unfold announceLaunch. stays.
Qed.

Lemma staysInactive_cooldownSilo (s : TileRef) :
  staysInactive (cooldownSilo (PF := PF) s).
Proof. unfold cooldownSilo. stays. Qed.

Lemma staysInactive_tick (t : Z) :
  staysInactive (tick (PF := PF) (Rng := Rng) t).
Proof.
  pose proof staysInactive_derefMg.
  pose proof staysInactive_derefPathFinder.
  pose proof staysInactive_tilesInRange.
  pose proof staysInactive_maybeBreakAlliances.
  pose proof staysInactive_getTrajectory.
  pose proof staysInactive_updateNukeTargetable.
  pose proof staysInactive_detonate.
  pose proof staysInactive_announceLaunch.
  pose proof staysInactive_cooldownSilo.
  unfold tick. stays.
Qed.

Lemma staysInactive_perform (op : Operation) :
  staysInactive (perform (PF := PF) (Rng := Rng) op).
Proof.
  destruct op; cbn [perform].
  - apply staysInactive_init.
  - apply staysInactive_tick.
  - apply staysInactive_destroyInFlight.
  - apply staysInactive_detonate.
  - pose proof staysInactive_tilesToDestroy. stays.
Qed.

Lemma history_app (ops1 ops2 : list (Operation * World))
    (e : NukeExecution PF) :
  history (Rng := Rng) (ops1 ++ ops2) e
  = history (Rng := Rng) ops2 (history (Rng := Rng) ops1 e).
Proof.
  revert e. induction ops1 as [|[op w] ops1 IH]; intros e; cbn [app history];
    [reflexivity|apply IH].
Qed.

(** C8.  Inactive is monotonic.  In every sequence of operations ([init],
    [tick] with its launch, refusal and detonation, [destroyInFlight],
    and the private [detonate] and [tilesToDestroy]), run on any worlds
    and thrown exceptions included, once [isActive()] is false after
    some operations it is false after every continuation of them. *)
Theorem inactive_is_final (ops1 ops2 : list (Operation * World))
    (e : NukeExecution PF) :
  isActive (history (Rng := Rng) ops1 e) = false ->
  isActive (history (Rng := Rng) (ops1 ++ ops2) e) = false.
Proof.
  rewrite history_app. generalize (history (Rng := Rng) ops1 e).
  unfold isActive. induction ops2 as [|[op w] ops2 IH]; intros e1 Ha.
  - exact Ha.
  - cbn [history]. apply IH. apply staysInactive_perform. exact Ha.
Qed.

(** *** The destroyed tiles: the search *)

Section BfsFacts.
Variable St : Type.
Variable test : TileRef -> St -> bool * St.

(** What [visit] adds was offered, was not seen, and passed the test. *)
Lemma visit_spec (P : TileRef -> Prop) (ns : list TileRef) :
  (forall n s, fst (test n s) = true -> P n) ->
  forall seen added s seen' added' s',
    visit test ns seen added s = (seen', added', s') ->
    exists new,
      seen' = seen ++ new /\ added' = added ++ new
      /\ incl new ns /\ Forall P new.
Proof.
  intros HP. induction ns as [|n ns IH]; intros seen added s seen' added' s' H.
  - simpl in H. inversion H; subst. exists []. rewrite !app_nil_r.
    repeat split; [apply incl_refl|constructor].
  - simpl in H. destruct (mem n seen) eqn:Em.
    + destruct (IH _ _ _ _ _ _ H) as (new & -> & -> & Hi & Hf).
      exists new. repeat split; auto. apply incl_tl. exact Hi.
    + destruct (test n s) as [ok s1] eqn:Ea. destruct ok.
      * destruct (IH _ _ _ _ _ _ H) as (new & -> & -> & Hi & Hf).
        exists (n :: new). rewrite <- !app_assoc. repeat split.
        -- intros x [<-|Hx]; [left; reflexivity|right; apply Hi, Hx].
        -- constructor; [|exact Hf]. apply (HP n s). rewrite Ea.
           reflexivity.
      * destruct (IH _ _ _ _ _ _ H) as (new & -> & -> & Hi & Hf).
        exists new. repeat split; auto. apply incl_tl. exact Hi.
Qed.

(** Every tile that the search returns is one of those it started
    with or one that passed the test. *)
Lemma bfs_loop_passed (P : TileRef -> Prop) :
  (forall n s, fst (test n s) = true -> P n) ->
  forall fuel queue seen s,
    Forall P seen -> Forall P (fst (bfs_loop test fuel queue seen s)).
Proof.
  intros HP. induction fuel as [|fuel IH]; intros queue seen s Hs.
  - exact Hs.
  - cbn [bfs_loop]. destruct queue as [|curr rest]; [exact Hs|].
    destruct (visit test (neighbors curr) seen [] s)
      as [[seen' added] s'] eqn:Ev.
    destruct (visit_spec P _ HP _ _ _ _ _ _ Ev) as (new & -> & _ & _ & Hf).
    apply IH. apply Forall_app. split; assumption.
Qed.

Lemma bfs_passed (P : TileRef -> Prop) (start : TileRef) (s : St) :
  (forall n s, fst (test n s) = true -> P n) ->
  P start ->
  Forall P (fst (bfs test start s)).
Proof.
  intros HP Hs. unfold bfs. apply bfs_loop_passed; [exact HP|].
  constructor; [exact Hs|constructor].
Qed.
End BfsFacts.

Lemma mem_In (t : nat) (l : list nat) : mem t l = true <-> In t l.
Proof.
  unfold mem. rewrite existsb_exists. split.
  - intros (x & Hx & E). apply Nat.eqb_eq in E. subst. exact Hx.
  - intros H. exists t. split; [exact H|apply Nat.eqb_refl].
Qed.

Lemma mem_app (t : nat) (a b : list nat) :
  mem t (a ++ b) = mem t a || mem t b.
Proof. unfold mem. apply existsb_app. Qed.

Lemma unseen_add (U seen : list TileRef) (n : TileRef) :
  mem n seen = false ->
  length (filter (fun t => negb (mem t (seen ++ [n]))) U)
  + (if mem n U then 1 else 0)
  <= length (filter (fun t => negb (mem t seen)) U).
Proof.
  intros Hn. induction U as [|t U IH]; [simpl; lia|].
  cbn [filter]. rewrite mem_app.
  assert (Et : mem t [n] = Nat.eqb t n).
  { unfold mem. simpl. apply orb_false_r. }
  rewrite Et.
  assert (En : mem n (t :: U) = Nat.eqb n t || mem n U) by reflexivity.
  rewrite En. rewrite (Nat.eqb_sym n t).
  destruct (Nat.eqb t n) eqn:E.
  - apply Nat.eqb_eq in E. subst t. rewrite Hn. cbn [orb negb length].
    destruct (mem n U); lia.
  - rewrite orb_false_r. cbn [orb].
    destruct (mem t seen); cbn [negb length]; lia.
Qed.

Section BfsFuel.
Variable St : Type.
Variable test : TileRef -> St -> bool * St.
Hypothesis closed : mapClosed = true.

Lemma neighbors_in_map (t : TileRef) :
  mem t mapTiles = true ->
  forallb (fun n => mem n mapTiles) (neighbors t) = true.
Proof.
  intros Ht. apply mem_In in Ht. unfold mapClosed in closed.
  rewrite forallb_forall in closed. apply closed. exact Ht.
Qed.

Lemma visit_measure (ns : list TileRef) :
  forallb (fun n => mem n mapTiles) ns = true ->
  forall seen added s seen' added' s',
    visit test ns seen added s = (seen', added', s') ->
    unseen seen' + length added' <= unseen seen + length added
    /\ (forallb (fun n => mem n mapTiles) added = true ->
        forallb (fun n => mem n mapTiles) added' = true).
Proof.
  induction ns as [|n ns IH]; intros Hns seen added s seen' added' s' H.
  - simpl in H. inversion H; subst. split; [lia|auto].
  - simpl in H. cbn [forallb] in Hns. apply andb_prop in Hns.
    destruct Hns as [Hn Hns].
    destruct (mem n seen) eqn:Em; [exact (IH Hns _ _ _ _ _ _ H)|].
    destruct (test n s) as [ok s1]. destruct ok;
      [|exact (IH Hns _ _ _ _ _ _ H)].
    destruct (IH Hns _ _ _ _ _ _ H) as [Hle Hin]. split.
    + pose proof (@unseen_add mapTiles seen n Em) as Hu.
      rewrite Hn in Hu. unfold unseen in *.
      rewrite length_app in Hle. cbn [length] in Hle. lia.
    + intros Ha. apply Hin. rewrite forallb_app.
      apply andb_true_intro. split; [exact Ha|].
      simpl. rewrite Hn. reflexivity.
Qed.

(** With the queue inside the map and at least as much fuel as the
    measure, more fuel changes nothing: the loop ends on an empty
    queue. *)
Lemma bfs_loop_enough (fuel : nat) :
  forall queue seen s more,
    forallb (fun n => mem n mapTiles) queue = true ->
    unseen seen + length queue <= fuel ->
    bfs_loop test (fuel + more) queue seen s
    = bfs_loop test fuel queue seen s.
Proof.
  induction fuel as [|fuel IH]; intros queue seen s more Hq Hm.
  - destruct queue as [|c q]; [|simpl in Hm; lia].
    destruct more; reflexivity.
  - cbn [Nat.add bfs_loop]. destruct queue as [|curr rest]; [reflexivity|].
    cbn [forallb] in Hq. apply andb_prop in Hq. destruct Hq as [Hc Hr].
    destruct (visit test (neighbors curr) seen [] s)
      as [[seen' added] s'] eqn:Ev.
    destruct (visit_measure _ (neighbors_in_map _ Hc) _ _ _ _ _ _ Ev)
      as [Hle Hin].
    apply IH.
    + rewrite forallb_app. apply andb_true_intro.
      split; [exact Hr|apply Hin; reflexivity].
    + rewrite length_app. cbn [length] in Hm, Hle.
      unfold TileRef in *. lia.
Qed.

Lemma bfs_enough (start : TileRef) (s : St) (more : nat) :
  mem start mapTiles = true ->
  bfs_loop test (S (length mapTiles) + more) [start] [start] s
  = bfs test start s.
Proof.
  intros Hs. unfold bfs. apply bfs_loop_enough.
  - simpl. rewrite Hs. reflexivity.
  - unfold unseen. cbn [length].
    pose proof (filter_length_le
                  (fun t => negb (mem t [start])) mapTiles).
    unfold TileRef in *. lia.
Qed.

(** A tile that passes the test whatever the state is *)
Variable sure : TileRef -> Prop.
Hypothesis sure_passes : forall n s, sure n -> fst (test n s) = true.

Lemma visit_grows (ns seen added : list TileRef) (s : St)
    (seen' added' : list TileRef) (s' : St) :
  visit test ns seen added s = (seen', added', s') ->
  exists new, seen' = seen ++ new /\ added' = added ++ new.
Proof.
  intros H.
  destruct (visit_spec _ test (fun _ => True) ns (fun _ _ _ => I)
              _ _ _ _ _ _ H)
    as (new & H1 & H2 & _).
  exists new. auto.
Qed.

Lemma visit_takes_sure (ns : list TileRef) :
  forall seen added s seen' added' s',
    visit test ns seen added s = (seen', added', s') ->
    forall n, In n ns -> sure n -> In n seen'.
Proof.
  induction ns as [|m ns IH]; intros seen added s seen' added' s' H n Hn Hs;
    [contradiction|].
  simpl in H. destruct Hn as [<-|Hn].
  - destruct (mem m seen) eqn:Em.
    + destruct (visit_grows _ _ _ _ _ _ _ H) as (new & -> & _).
      apply in_or_app. left. apply mem_In. exact Em.
    + pose proof (sure_passes m s Hs) as Ha.
      destruct (test m s) as [ok s1]. simpl in Ha. subst ok.
      destruct (visit_grows _ _ _ _ _ _ _ H) as (new & -> & _).
      apply in_or_app. left. apply in_or_app. right. left. reflexivity.
  - destruct (mem m seen); [exact (IH _ _ _ _ _ _ H n Hn Hs)|].
    destruct (test m s) as [ok s1].
    destruct ok; exact (IH _ _ _ _ _ _ H n Hn Hs).
Qed.

Lemma bfs_loop_expands (fuel : nat) :
  forall queue seen s,
    forallb (fun n => mem n mapTiles) queue = true ->
    unseen seen + length queue <= fuel ->
    expanded sure queue seen ->
    expanded sure [] (fst (bfs_loop test fuel queue seen s)).
Proof.
  induction fuel as [|fuel IH]; intros queue seen s Hq Hm He.
  - destruct queue as [|c q]; [exact He|simpl in Hm; lia].
  - cbn [bfs_loop]. destruct queue as [|curr rest]; [exact He|].
    cbn [forallb] in Hq. apply andb_prop in Hq. destruct Hq as [Hc Hr].
    destruct (visit test (neighbors curr) seen [] s)
      as [[seen' added] s'] eqn:Ev.
    destruct (visit_measure _ (neighbors_in_map _ Hc) _ _ _ _ _ _ Ev)
      as [Hle Hin].
    pose proof (visit_takes_sure _ _ _ _ _ _ _ Ev) as Hsure.
    destruct (visit_grows _ _ _ _ _ _ _ Ev) as (new & Hseen & Hadded).
    simpl in Hadded. subst seen' added.
    apply IH.
    + rewrite forallb_app. apply andb_true_intro.
      split; [exact Hr|apply Hin; reflexivity].
    + rewrite length_app. cbn [length] in Hm, Hle.
      unfold TileRef in *. lia.
    + intros t Ht. apply in_app_or in Ht. destruct Ht as [Ht|Ht].
      * destruct (He t Ht) as [[<-|Hrest]|Hcl].
        -- right. exact Hsure.
        -- left. apply in_or_app. left. exact Hrest.
        -- right. intros n Hn Hs. apply in_or_app. left.
           exact (Hcl n Hn Hs).
      * left. apply in_or_app. right. exact Ht.
Qed.

Lemma bfs_expands (start : TileRef) (s : St) :
  mem start mapTiles = true ->
  forall t n,
    In t (fst (bfs test start s)) -> In n (neighbors t) -> sure n ->
    In n (fst (bfs test start s)).
Proof.
  intros Hs t n Ht Hn Hsn.
  assert (He : expanded sure [] (fst (bfs test start s))).
  { unfold bfs. apply bfs_loop_expands.
    - simpl. rewrite Hs. reflexivity.
    - unfold unseen. cbn [length].
      pose proof (filter_length_le
                    (fun t => negb (mem t [start])) mapTiles).
      unfold TileRef in *. lia.
    - intros x Hx. left. exact Hx. }
  destruct (He t Ht) as [[]|Hcl]. exact (Hcl n Hn Hsn).
Qed.
End BfsFuel.

Lemma destroyTest_spec (d : TileRef) (inner2 outer2 : Z) (n : TileRef)
    (rand : Rng) :
  let d2 := euclideanDistSquared d n in
  fst (destroyTest d inner2 outer2 n rand)
  = Z.leb d2 outer2 && (Z.leb d2 inner2 || fst (chance rand 2))
  /\ snd (destroyTest d inner2 outer2 n rand)
     = if Z.leb d2 outer2 && negb (Z.leb d2 inner2)
       then snd (chance rand 2) else rand.
Proof.
  unfold destroyTest. cbv zeta.
  destruct (Z.leb (euclideanDistSquared d n) outer2);
    destruct (Z.leb (euclideanDistSquared d n) inner2); simpl; auto.
Qed.

(** The tiles that [tilesToDestroy] computes for a unit of type [ty] on
    tick [t] around [d]. *)
Lemma tilesToDestroy_computes (e : NukeExecution PF) (w : World)
    (u : UnitID) :
  tilesToDestroyCache e = None ->
  nuke e = Some u ->
  mg e = true ->
  let m := nukeMagnitudes (unitTypeOf w u) in
  let tiles :=
    fst (bfs (destroyTest (dst e) (inner m * inner m) (outer m * outer m))
           (dst e) (newPseudoRandom (ticks w))) in
  tilesToDestroy (Rng := Rng) e w
  = Ok tiles (set_tilesToDestroyCache (Some tiles) e) w [].
Proof.
  intros Hc Hn Hm. cbv zeta. unfold tilesToDestroy. run.
  rewrite Hc, Hn. run. rewrite Hm. reflexivity.
Qed.

(** C3.  With no cache yet, the destroyed tiles are the breadth-first
    expansion from the destination that admits a neighbour when its
    squared distance to the destination is within the outer radius and
    either it is within the inner radius or the draw [chance(2)] of the
    generator seeded with the tick count succeeds.  The expansion is
    complete (more rounds add nothing, and a neighbour within the inner
    radius of a destroyed tile is destroyed), every tile of the set is
    within the outer radius, and any execution with the same
    destination and magnitude computes the same set on the same tick. *)
Theorem tilesToDestroy_is_bfs (e : NukeExecution PF) (w : World)
    (u : UnitID) :
  tilesToDestroyCache e = None ->
  nuke e = Some u ->
  mg e = true ->
  euclideanDistSquared (dst e) (dst e) = 0%Z ->
  mapClosed = true ->
  mem (dst e) mapTiles = true ->
  let m := nukeMagnitudes (unitTypeOf w u) in
  let inner2 := (inner m * inner m)%Z in
  let outer2 := (outer m * outer m)%Z in
  let test := destroyTest (dst e) inner2 outer2 in
  let rand := newPseudoRandom (ticks w) in
  let tiles := fst (bfs test (dst e) rand) in
  tilesToDestroy (Rng := Rng) e w
  = Ok tiles (set_tilesToDestroyCache (Some tiles) e) w []
  /\ (forall n r,
        fst (test n r)
        = Z.leb (euclideanDistSquared (dst e) n) outer2
          && (Z.leb (euclideanDistSquared (dst e) n) inner2
              || fst (chance r 2)))
  /\ (forall more,
        fst (bfs_loop test (S (length mapTiles) + more) [dst e] [dst e] rand)
        = tiles)
  /\ (forall t n,
        In t tiles -> In n (neighbors t) ->
        (euclideanDistSquared (dst e) n <= inner2)%Z ->
        (euclideanDistSquared (dst e) n <= outer2)%Z ->
        In n tiles)
  /\ Forall (fun t => (euclideanDistSquared (dst e) t <= outer2)%Z) tiles
  /\ forall (e' : NukeExecution PF) (w' : World) (u' : UnitID),
       tilesToDestroyCache e' = None ->
       nuke e' = Some u' ->
       mg e' = true ->
       dst e' = dst e ->
       ticks w' = ticks w ->
       nukeMagnitudes (unitTypeOf w' u') = m ->
       tilesToDestroy (Rng := Rng) e' w'
       = Ok tiles (set_tilesToDestroyCache (Some tiles) e') w' [].
Proof.
  intros Hc Hn Hm H0 Hclosed Hdst. cbv zeta.
  split; [exact (@tilesToDestroy_computes e w u Hc Hn Hm)|].
  split; [intros n r; apply destroyTest_spec|].
  split; [intros more; rewrite (bfs_enough _ _ Hclosed _ _ more Hdst);
          reflexivity|].
  split.
  - intros t n Ht Hin Hi Ho.
    apply (bfs_expands _ _ Hclosed
             (fun n => (euclideanDistSquared (dst e) n
                        <= inner (nukeMagnitudes (unitTypeOf w u))
                           * inner (nukeMagnitudes (unitTypeOf w u)))%Z
                       /\ (euclideanDistSquared (dst e) n
                           <= outer (nukeMagnitudes (unitTypeOf w u))
                              * outer (nukeMagnitudes (unitTypeOf w u)))%Z))
      with (t := t); auto.
    intros x s [Hxi Hxo]. unfold destroyTest.
    apply Z.leb_le in Hxi, Hxo. rewrite Hxo, Hxi. reflexivity.
  - split.
    + apply bfs_passed.
      * intros n s Ha. unfold destroyTest in Ha.
        destruct (Z.leb (euclideanDistSquared (dst e) n)
                    (outer (nukeMagnitudes (unitTypeOf w u))
                     * outer (nukeMagnitudes (unitTypeOf w u)))) eqn:E;
          [apply Z.leb_le; exact E|discriminate].
      * rewrite H0. apply Z.square_nonneg.
    + intros e' w' u' Hc' Hn' Hm' Hd Ht Hmag.
      rewrite (@tilesToDestroy_computes e' w' u' Hc' Hn' Hm').
      rewrite Hd, Ht, Hmag. reflexivity.
Qed.

(** *** The cache *)

(** C4.  Once a query of the destroyed tiles has returned, every later
    query returns the same set and leaves the object and the world as
    they are, whatever the world has become: the search and its draws
    run at most once per execution. *)
Theorem tilesToDestroy_cached (e e1 : NukeExecution PF) (w w1 : World)
    (tiles : list TileRef) (out : list Event) :
  tilesToDestroy (Rng := Rng) e w = Ok tiles e1 w1 out ->
  tilesToDestroyCache e1 = Some tiles
  /\ forall w', tilesToDestroy (Rng := Rng) e1 w' = Ok tiles e1 w' [].
Proof.
  unfold tilesToDestroy at 1. run.
  destruct (tilesToDestroyCache e) as [cache|] eqn:Hc.
  - intros H. inversion H; subst. split; [exact Hc|].
    intros w'. unfold tilesToDestroy. run. rewrite Hc. reflexivity.
  - destruct (nuke e) as [u|]; [|discriminate]. run.
    destruct (mg e); [|discriminate].
    intros H. inversion H; subst. split; [reflexivity|].
    intros w'. reflexivity.
Qed.

(** *** The launch tick *)

Lemma forEach_keeps {A} (P : World -> Prop) (Q : Event -> Prop)
    (l : list A) (body : A -> Effect) :
  (forall x w, P w -> P (fst (body x w)) /\ Forall Q (snd (body x w))) ->
  forall w, P w ->
    P (fst (forEach l body w)) /\ Forall Q (snd (forEach l body w)).
Proof.
  intros Hb. induction l as [|x l IH]; intros w Hw.
  - simpl. split; [exact Hw|constructor].
  - cbn [forEach]. unfold andThen.
    destruct (Hb x w Hw) as [H1 H2].
    destruct (body x w) as [w1 o1]. cbn [fst snd] in *.
    destruct (IH w1 H1) as [H3 H4].
    destruct (forEach l body w1) as [w2 o2]. cbn [fst snd] in *.
    split; [exact H3|]. apply Forall_app. split; assumption.
Qed.

Lemma andThen_keeps (P : World -> Prop) (Q : Event -> Prop)
    (f g : Effect) :
  (forall w, P w -> P (fst (f w)) /\ Forall Q (snd (f w))) ->
  (forall w, P w -> P (fst (g w)) /\ Forall Q (snd (g w))) ->
  forall w, P w ->
    P (fst (andThen f g w)) /\ Forall Q (snd (andThen f g w)).
Proof.
  intros Hf Hg w Hw. unfold andThen.
  destruct (Hf w Hw) as [H1 H2]. destruct (f w) as [w1 o1].
  cbn [fst snd] in *.
  destruct (Hg w1 H1) as [H3 H4]. destruct (g w1) as [w2 o2].
  cbn [fst snd] in *. split; [exact H3|].
  apply Forall_app. split; assumption.
Qed.

Lemma breakWith_keeps (w0 : World) (a p : PlayerID) (w : World) :
  sameBoard w0 w ->
  sameBoard w0 (fst (breakWith a p w))
  /\ Forall isDiplomacy (snd (breakWith a p w)).
Proof.
  unfold breakWith. revert w.
  repeat apply andThen_keeps; intros w Hs.
  - destruct (findRequest w a p); simpl;
      (split; [exact Hs|repeat constructor]).
  - destruct (allianceWith w a p); simpl;
      (split; [exact Hs|repeat constructor]).
  - destruct (negb (Nat.eqb p a)); simpl;
      (split; [exact Hs|repeat constructor]).
Qed.

Lemma breakLoop_keeps (a : PlayerID) (u : UnitID)
    (attacked : list (PlayerID * Q)) (w : World) :
  sameBoard w (fst (breakLoop a u attacked w))
  /\ Forall isDiplomacy (snd (breakLoop a u attacked w)).
Proof.
  unfold breakLoop. apply (forEach_keeps (sameBoard w) isDiplomacy).
  - intros x w1 H1.
    destruct (Qgt_bool (snd x) nukeAllianceBreakThreshold
              && negb (UnitType_eqb (unitTypeOf w1 u) MIRVWarhead)).
    + apply breakWith_keeps. exact H1.
    + split; [exact H1|constructor].
  - repeat split.
Qed.

Lemma NukeType_eqb_eq (a b : NukeType) : NukeType_eqb a b = true <-> a = b.
Proof. destruct a, b; simpl; split; intro H; congruence. Qed.

Lemma unit_id_bound (l : list Unit) (x : Unit) :
  In x l -> unit_id x <= fold_right Nat.max 0 (map unit_id l).
Proof.
  induction l as [|y l IH]; [contradiction|].
  intros [<-|H]; simpl; [lia|]. specialize (IH H). lia.
Qed.

Lemma find_fresh (l : list Unit) (x : Unit) :
  unit_id x = S (fold_right Nat.max 0 (map unit_id l)) ->
  find (fun y => Nat.eqb (unit_id y) (unit_id x)) (l ++ [x]) = Some x.
Proof.
  intros Hx.
  assert (Hl : forall y, In y l -> Nat.eqb (unit_id y) (unit_id x) = false).
  { intros y Hy. apply Nat.eqb_neq. pose proof (unit_id_bound l y Hy). lia. }
  clear Hx. induction l as [|y l IH]; simpl.
  - rewrite Nat.eqb_refl. reflexivity.
  - rewrite (Hl y (or_introl eq_refl)). apply IH.
    intros z Hz. apply Hl. right. exact Hz.
Qed.

(** The unit that [buildUnit] answers with is the one it has added. *)
Lemma buildUnit_spec (p : PlayerID) (ty : NukeType) (s d : TileRef)
    (tr : list TrajectoryTile) (w : World) :
  exists w1,
    buildUnit p ty s d tr w
    = (freshUnitID w, w1, [BuildUnit p ty s (freshUnitID w)])
    /\ unitTypeOf w1 (freshUnitID w) = Nuke ty
    /\ unitIsActive w1 (freshUnitID w) = true
    /\ tileOwners w1 = tileOwners w
    /\ allianceRequests w1 = allianceRequests w
    /\ alliances w1 = alliances w
    /\ ticks w1 = ticks w.
Proof.
  unfold buildUnit. eexists. split; [reflexivity|].
  unfold unitTypeOf, unitIsActive, findUnit, freshUnitID.
  cbn [worldUnits set_worldUnits].
  pose proof (find_fresh (worldUnits w)
                (mkUnit (S (fold_right Nat.max 0 (map unit_id (worldUnits w))))
                   ty p s true (Some d) tr 0%Z true false 0%Z) eq_refl) as Hf.
  cbn [unit_id] in Hf. rewrite Hf. repeat split.
Qed.

Lemma getTrajectory_ok (d : TileRef) (e : NukeExecution PF) (w : World)
    (pf : PF) :
  mg e = true -> pathFinder e = Some pf ->
  exists tr, getTrajectory d e w = Ok tr e w [].
Proof.
  intros Hm Hp. eexists. unfold getTrajectory. run. rewrite Hm, Hp. run.
  reflexivity.
Qed.

Lemma tilesInRange_ok (e : NukeExecution PF) (w : World) (u : UnitID) :
  nuke e = Some u -> mg e = true ->
  tilesInRange e w
  = Ok (weighTiles (dst e) (nukeMagnitudes (unitTypeOf w u))) e w [].
Proof.
  intros Hn Hm. unfold tilesInRange. run. rewrite Hn. run. rewrite Hm.
  reflexivity.
Qed.

Lemma maybeBreakAlliances_ok (r : list (TileRef * Q)) (e : NukeExecution PF)
    (w : World) (u : UnitID) :
  nuke e = Some u -> mg e = true ->
  maybeBreakAlliances r e w
  = Ok tt e
      (fst (breakLoop (player e) u (attackedWeights w r) w))
      (snd (breakLoop (player e) u (attackedWeights w r) w)).
Proof.
  intros Hn Hm. unfold maybeBreakAlliances. run. rewrite Hn. run.
  rewrite Hm. run.
  destruct (breakLoop (player e) u (attackedWeights w r) w) as [w' out].
  reflexivity.
Qed.

Lemma owner_same (w w' : World) (t : TileRef) :
  tileOwners w' = tileOwners w -> owner w' t = owner w t.
Proof. intros H. unfold owner. rewrite H. reflexivity. Qed.

Lemma announceLaunch_ok (u : UnitID) (e : NukeExecution PF) (w : World) :
  mg e = true ->
  announceLaunch u e w = Ok tt e w (launchAnnouncements u e w).
Proof.
  intros Hm. unfold announceLaunch, launchAnnouncements, hasOwner. run.
  rewrite Hm. run.
  destruct (owner w (dst e)) as [|q]; cbn [isPlayer]; [reflexivity|].
  destruct (nukeType e); reflexivity.
Qed.

Lemma cooldownSilo_ok (s : TileRef) (e : NukeExecution PF) (w : World) :
  exists out,
    cooldownSilo s e w = Ok tt e w out /\ Forall isSiloLaunch out.
Proof.
  unfold cooldownSilo. run.
  destruct (find _ _); eexists; (split; [reflexivity|repeat constructor]).
Qed.

(** The launch tick, step by step: the unit is built, the alliances are
    dealt with, the launch is announced, the silo cools down. *)
Lemma tick_launch (t : Z) (e : NukeExecution PF) (w : World) (pf : PF)
    (spawn : TileRef) :
  nuke e = None ->
  mg e = true ->
  pathFinder e = Some pf ->
  canBuild w (player e) (nukeType e) (dst e) = Some spawn ->
  let u := freshUnitID w in
  exists e' w1 siloOut,
    tick (Rng := Rng) t e w
    = Ok tt e' (fst (launchDiplomacy e u w1))
        (BuildUnit (player e) (nukeType e) spawn u
         :: snd (launchDiplomacy e u w1)
            ++ launchAnnouncements u e w ++ siloOut)
    /\ nuke e' = Some u
    /\ active e' = active e
    /\ unitTypeOf w1 u = Nuke (nukeType e)
    /\ tileOwners w1 = tileOwners w
    /\ allianceRequests w1 = allianceRequests w
    /\ alliances w1 = alliances w
    /\ Forall isSiloLaunch siloOut.
Proof.
  intros Hn Hm Hp Hc u.
  unfold tick. run. rewrite Hn. run. rewrite Hc. run.
  cbn [pathFinder set_src]. rewrite Hp. run.
  match goal with
  | |- context [getTrajectory ?d ?e2 ?w2] =>
      destruct (getTrajectory_ok d e2 w2
                  (computeControlPoints pf spawn (dst e) (speed e)
                     (negb (NukeType_eqb (nukeType e) MIRVWarhead)))
                  Hm eq_refl) as [tr Htr];
      rewrite Htr
  end.
  unfold callBuildUnit.
  destruct (buildUnit_spec (player e) (nukeType e) spawn (dst e) tr w)
    as (w1 & Hb & Hty & _ & Hto & Har & Hal & _).
  fold u in Hb, Hty. rewrite Hb. run. rewrite Hty.
  cbn [UnitType_eqb].
  assert (Hann : forall (e3 : NukeExecution PF) (w2 : World),
             dst e3 = dst e -> nukeType e3 = nukeType e ->
             player e3 = player e -> tileOwners w2 = tileOwners w ->
             launchAnnouncements u e3 w2 = launchAnnouncements u e w).
  { intros e3 w2 H1 H2 H3 H4. unfold launchAnnouncements.
    rewrite H1, H2, H3, (owner_same w w2 (dst e) H4). reflexivity. }
  unfold launchDiplomacy.
  destruct (NukeType_eqb (nukeType e) MIRVWarhead) eqn:Ew; cbn [negb]; run.
  - match goal with
    | |- context [announceLaunch ?u0 ?e3 ?w2] =>
        rewrite (announceLaunch_ok u0 e3 w2 Hm);
        rewrite (Hann e3 w2 eq_refl eq_refl eq_refl Hto)
    end.
    match goal with
    | |- context [cooldownSilo ?s ?e3 ?w2] =>
        destruct (cooldownSilo_ok s e3 w2) as (siloOut & Hs & Hsilo);
        rewrite Hs;
        exists e3, w2, siloOut
    end.
    cbn [skip fst snd app]. repeat split; assumption.
  - match goal with
    | |- context [tilesInRange ?e3 ?w2] =>
        rewrite (tilesInRange_ok e3 w2 u eq_refl Hm)
    end.
    rewrite Hty.
    match goal with
    | |- context [maybeBreakAlliances ?r ?e3 ?w2] =>
        rewrite (maybeBreakAlliances_ok r e3 w2 u eq_refl Hm)
    end.
    cbn [player set_nuke set_pathFinder set_src dst].
    destruct (breakLoop_keeps (player e) u
                (attackedWeights w1
                   (weighTiles (dst e) (nukeMagnitudes (nukeType e)))) w1)
      as [(Hk1 & Hk2 & Hk3) _].
    match goal with
    | |- context [announceLaunch ?u0 ?e3 ?w2] =>
        rewrite (announceLaunch_ok u0 e3 w2 Hm);
        rewrite (Hann e3 w2 eq_refl eq_refl eq_refl
                   (eq_trans Hk1 Hto))
    end.
    match goal with
    | |- context [cooldownSilo ?s ?e3 ?w2] =>
        destruct (cooldownSilo_ok s e3 w2) as (siloOut & Hs & Hsilo);
        rewrite Hs;
        exists e3, w1, siloOut
    end.
    cbn [app]. repeat split; assumption.
Qed.

Lemma filter_nothing {A} (f : A -> bool) (P : A -> Prop) (l : list A) :
  (forall x, P x -> f x = false) -> Forall P l -> filter f l = [].
Proof.
  intros Hf H. induction H as [|x l Hx _ IH]; simpl; [reflexivity|].
  rewrite (Hf x Hx). exact IH.
Qed.

Lemma launchDiplomacy_keeps (e : NukeExecution PF) (u : UnitID) (w1 : World) :
  sameBoard w1 (fst (launchDiplomacy e u w1))
  /\ Forall isDiplomacy (snd (launchDiplomacy e u w1)).
Proof.
  unfold launchDiplomacy.
  destruct (NukeType_eqb (nukeType e) MIRVWarhead).
  - simpl. repeat split. constructor.
  - apply breakLoop_keeps.
Qed.

Lemma launchAnnouncements_filter (u : UnitID) (e : NukeExecution PF)
    (w : World) :
  filter isAnnouncement (launchAnnouncements u e w)
  = launchAnnouncements u e w.
Proof.
  unfold launchAnnouncements.
  destruct (owner w (dst e)); [reflexivity|].
  destruct (nukeType e); reflexivity.
Qed.

(** C7, as the code has it.  On the launch tick the calls on the display
    channel and on the statistics sink are these: when the destination
    is owned by a player, one launch notification carrying the
    attacker, that player and the weapon class, for every weapon class,
    preceded by one alert addressed to that player when the weapon is
    an atom bomb or a hydrogen bomb, and by none for the other
    classes; when the destination has no player owner, none at all. *)
Theorem launch_announcements (t : Z) (e : NukeExecution PF) (w : World)
    (pf : PF) (spawn : TileRef) :
  nuke e = None ->
  mg e = true ->
  pathFinder e = Some pf ->
  canBuild w (player e) (nukeType e) (dst e) = Some spawn ->
  exists e' w' out,
    tick (Rng := Rng) t e w = Ok tt e' w' out
    /\ filter isAnnouncement out = launchAnnouncements (freshUnitID w) e w
    /\ (forall p,
          owner w (dst e) = OwnerPlayer p ->
          In (BombLaunch (player e) (OwnerPlayer p) (nukeType e)) out
          /\ (nukeType e = AtomBomb ->
              filter isDisplay out
              = [DisplayIncomingUnit (freshUnitID w)
                   (playerName (player e) ++ " - atom bomb inbound")
                   NUKE_INBOUND p])
          /\ (nukeType e = HydrogenBomb ->
              filter isDisplay out
              = [DisplayIncomingUnit (freshUnitID w)
                   (playerName (player e) ++ " - hydrogen bomb inbound")
                   HYDROGEN_BOMB_INBOUND p])
          /\ (nukeType e = MIRV \/ nukeType e = MIRVWarhead ->
              filter isDisplay out = []))
    /\ (hasOwner w (dst e) = false -> filter isAnnouncement out = []).
Proof.
  intros Hn Hm Hp Hc.
  destruct (tick_launch t e w pf spawn Hn Hm Hp Hc)
    as (e' & w1 & siloOut & Ht & _ & _ & _ & _ & _ & _ & Hsilo).
  destruct (launchDiplomacy_keeps e (freshUnitID w) w1) as [_ Hd].
  set (diplo := snd (launchDiplomacy e (freshUnitID w) w1)) in *.
  set (ann := launchAnnouncements (freshUnitID w) e w) in *.
  assert (Hfa : filter isAnnouncement
                  (BuildUnit (player e) (nukeType e) spawn (freshUnitID w)
                   :: diplo ++ ann ++ siloOut) = ann).
  { cbn [filter isAnnouncement]. rewrite !filter_app.
    rewrite (filter_nothing isAnnouncement isDiplomacy diplo);
      [|intros [] H; simpl in *; tauto|exact Hd].
    rewrite (filter_nothing isAnnouncement isSiloLaunch siloOut);
      [|intros [] H; simpl in *; tauto|exact Hsilo].
    unfold ann. rewrite launchAnnouncements_filter.
    rewrite app_nil_r. reflexivity. }
  assert (Hfd : filter isDisplay
                  (BuildUnit (player e) (nukeType e) spawn (freshUnitID w)
                   :: diplo ++ ann ++ siloOut) = filter isDisplay ann).
  { cbn [filter isDisplay]. rewrite !filter_app.
    rewrite (filter_nothing isDisplay isDiplomacy diplo);
      [|intros [] H; simpl in *; tauto|exact Hd].
    rewrite (filter_nothing isDisplay isSiloLaunch siloOut);
      [|intros [] H; simpl in *; tauto|exact Hsilo].
    rewrite app_nil_r. reflexivity. }
  do 3 eexists. split; [exact Ht|]. split; [exact Hfa|]. split.
  - intros p Ho. rewrite Hfd. unfold ann, launchAnnouncements. rewrite Ho.
    split.
    + right. apply in_or_app. right. apply in_or_app. left.
      apply in_or_app. right. left. reflexivity.
    + repeat split.
      * intros ->. reflexivity.
      * intros ->. reflexivity.
      * intros [-> | ->]; reflexivity.
  - intros Ho. rewrite Hfa. unfold ann, launchAnnouncements.
    unfold hasOwner in Ho. destruct (owner w (dst e)); [reflexivity|].
    discriminate.
Qed.

(** *** Tiles in range and blast weights *)

Lemma distinct_NoDup (l : list nat) : distinct l = true -> NoDup l.
Proof.
  induction l as [|x l IH]; simpl; intros H; constructor.
  - apply andb_prop in H. destruct H as [H _]. intros Hin.
    apply mem_In in Hin. rewrite Hin in H. discriminate.
  - apply IH. apply andb_prop in H. tauto.
Qed.

Lemma map_get_None {V} (k : nat) (m : list (nat * V)) :
  map_get k m = None <-> ~ In k (map fst m).
Proof.
  induction m as [|[k' v] m IH]; simpl; [tauto|].
  destruct (Nat.eqb k k') eqn:E.
  - apply Nat.eqb_eq in E. subst. split; [discriminate|tauto].
  - apply Nat.eqb_neq in E. rewrite IH. split.
    + intros H [H1|H1]; [congruence|tauto].
    + tauto.
Qed.

Lemma map_set_new {V} (k : nat) (v : V) (m : list (nat * V)) :
  ~ In k (map fst m) -> map_set k v m = m ++ [(k, v)].
Proof.
  induction m as [|[k' v'] m IH]; simpl; intros H; [reflexivity|].
  destruct (Nat.eqb k k') eqn:E.
  - apply Nat.eqb_eq in E. subst. tauto.
  - rewrite IH by tauto. reflexivity.
Qed.

Lemma map_get_set {V} (k k' : nat) (v : V) (m : list (nat * V)) :
  map_get k (map_set k' v m)
  = if Nat.eqb k k' then Some v else map_get k m.
Proof.
  induction m as [|[j x] m IH]; simpl.
  - destruct (Nat.eqb k k'); reflexivity.
  - destruct (Nat.eqb k' j) eqn:E; simpl.
    + apply Nat.eqb_eq in E. subst j.
      destruct (Nat.eqb k k'); reflexivity.
    + rewrite IH. destruct (Nat.eqb k k') eqn:E2; [|reflexivity].
      apply Nat.eqb_eq in E2. subst k'. rewrite E. reflexivity.
Qed.

Lemma map_set_keys {V} (k : nat) (v : V) (m : list (nat * V)) :
  NoDup (map fst m) -> NoDup (map fst (map_set k v m)).
Proof.
  intros H. destruct (in_dec Nat.eq_dec k (map fst m)) as [Hin|Hn].
  - assert (E : map fst (map_set k v m) = map fst m).
    { clear H. induction m as [|[j x] m IH]; simpl in *; [tauto|].
      destruct (Nat.eqb k j) eqn:E; simpl.
      - apply Nat.eqb_eq in E. subst. reflexivity.
      - apply Nat.eqb_neq in E. f_equal. apply IH.
        destruct Hin; [congruence|assumption]. }
    rewrite E. exact H.
  - rewrite (map_set_new _ _ _ Hn), map_app. simpl.
    apply NoDup_app; [exact H|repeat constructor; tauto|].
    intros x Hx [<-|[]]. tauto.
Qed.

Lemma fold_map_set_fresh {V} (g : TileRef * Z -> V)
    (l : list (TileRef * Z)) (acc : list (nat * V)) :
  NoDup (map fst acc ++ map fst l) ->
  fold_left (fun m td => map_set (fst td) (g td) m) l acc
  = acc ++ map (fun td => (fst td, g td)) l.
Proof.
  revert acc. induction l as [|[t d2] l IH]; intros acc H; simpl.
  - rewrite app_nil_r. reflexivity.
  - rewrite map_set_new.
    + rewrite IH.
      * rewrite <- app_assoc. reflexivity.
      * rewrite map_app. simpl. rewrite <- app_assoc. exact H.
    + simpl in H. apply NoDup_remove_2 in H. intros Hin. apply H.
      apply in_or_app. left. exact Hin.
Qed.

(** With every tile handed over once, the map of the tiles in range is
    the list of the search with the weights in place of the distances. *)
Lemma weighTiles_map (d : TileRef) (m : Magnitude) :
  NoDup (map fst (circleSearch d (outer m))) ->
  weighTiles d m
  = map (fun td => (fst td, weightOf (snd td) (inner m * inner m)))
      (circleSearch d (outer m)).
Proof.
  intros H. unfold weighTiles. cbv zeta.
  rewrite (fold_map_set_fresh
             (fun td => weightOf (snd td) (inner m * inner m))
             (circleSearch d (outer m)) []); [reflexivity|exact H].
Qed.

Lemma attackedWeights_step (w : World) (p : PlayerID)
    (r : list (TileRef * Q)) (acc : list (PlayerID * Q)) :
  let step := fun attacked (tw : TileRef * Q) =>
    match owner w (fst tw) with
    | OwnerPlayer q =>
        let prev := match map_get q attacked with
                    | Some x => x
                    | None => 0%Q
                    end in
        map_set q (prev + snd tw)%Q attacked
    | TerraNullius => attacked
    end in
  weightIn (fold_left step r acc) p
  = fold_left
      (fun a (tw : TileRef * Q) =>
         if ownedBy w p (fst tw) then (a + snd tw)%Q else a)
      r (weightIn acc p)
  /\ (NoDup (map fst acc) -> NoDup (map fst (fold_left step r acc)))
  /\ (map_get p (fold_left step r acc) = None ->
      map_get p acc = None
      /\ existsb (fun tw => ownedBy w p (fst tw)) r = false).
Proof.
  cbv zeta. revert acc. induction r as [|[t wt] r IH]; intros acc.
  - simpl. auto.
  - cbn [fold_left existsb fst snd].
    assert (Eb : ownedBy w p t
                 = match owner w t with
                   | OwnerPlayer q => Nat.eqb q p
                   | TerraNullius => false
                   end) by reflexivity.
    rewrite Eb. clear Eb.
    destruct (owner w t) as [|q] eqn:Eo.
    + destruct (IH acc) as (H1 & H2 & H3). cbn [orb]. auto.
    + destruct (IH (map_set q
                      (match map_get q acc with
                       | Some x => x
                       | None => 0%Q
                       end + wt)%Q acc)) as (H1 & H2 & H3).
      split; [|split].
      * rewrite H1. f_equal. unfold weightIn. rewrite map_get_set.
        rewrite (Nat.eqb_sym p q).
        destruct (Nat.eqb q p) eqn:E; [|reflexivity].
        apply Nat.eqb_eq in E. subst q. reflexivity.
      * intros Hnd. apply H2. apply map_set_keys. exact Hnd.
      * intros Hnone. destruct (H3 Hnone) as [Hg He].
        rewrite map_get_set in Hg. rewrite (Nat.eqb_sym p q) in Hg.
        destruct (Nat.eqb q p); [discriminate|]. auto.
Qed.

Lemma fold_left_weights (w : World) (p : PlayerID) (inner2 : Z)
    (l : list (TileRef * Z)) (a : Q) :
  fold_left
    (fun a (tw : TileRef * Q) =>
       if ownedBy w p (fst tw) then (a + snd tw)%Q else a)
    (map (fun td => (fst td, weightOf (snd td) inner2)) l) a
  = fold_left
      (fun acc td =>
         match owner w (fst td) with
         | OwnerPlayer q =>
             if Nat.eqb q p then (acc + weightOf (snd td) inner2)%Q
             else acc
         | TerraNullius => acc
         end) l a.
Proof.
  revert a. induction l as [|[t d2] l IH]; intros a; [reflexivity|].
  cbn [map fold_left fst snd]. rewrite IH. unfold ownedBy.
  destruct (owner w t); reflexivity.
Qed.

Lemma existsb_over_map {A B} (f : B -> bool) (g : A -> B) (l : list A) :
  existsb f (map g l) = existsb (fun x => f (g x)) l.
Proof.
  induction l as [|x l IH]; simpl; [reflexivity|]. rewrite IH. reflexivity.
Qed.

(** The entry of [attacked] for a player who owns a tile in range holds
    the player's blast weight. *)
Lemma attackedWeights_entry (w : World) (d : TileRef) (m : Magnitude)
    (p : PlayerID) :
  NoDup (map fst (circleSearch d (outer m))) ->
  inBlast w d m p = true ->
  NoDup (map fst (attackedWeights w (weighTiles d m)))
  /\ map_get p (attackedWeights w (weighTiles d m))
     = Some (blastWeight w d m p).
Proof.
  intros Hnd Hin. rewrite (weighTiles_map d m Hnd).
  unfold attackedWeights.
  destruct (attackedWeights_step w p
              (map (fun td => (fst td, weightOf (snd td) (inner m * inner m)))
                 (circleSearch d (outer m))) [])
    as (H1 & H2 & H3).
  cbv zeta in H1, H2, H3. split; [apply H2; constructor|].
  unfold weightIn in H1. cbn [map_get] in H1.
  rewrite fold_left_weights in H1.
  destruct (map_get p _) as [x|] eqn:Eg.
  - rewrite H1. reflexivity.
  - exfalso. destruct (H3 eq_refl) as [_ He].
    unfold inBlast in Hin. rewrite existsb_over_map in He.
    cbn [fst] in He. unfold ownedBy in He. rewrite Hin in He.
    discriminate.
Qed.

(** *** Breaking alliances at launch *)

Ltac nat_cases :=
  repeat match goal with
         | H : context [Nat.eqb ?a ?b] |- _ => destruct (Nat.eqb_spec a b)
         | |- context [Nat.eqb ?a ?b] => destruct (Nat.eqb_spec a b)
         end;
  subst; simpl in *; try congruence; try tauto.

Lemma find_filter_keep {A} (f g : A -> bool) (l : list A) :
  (forall x, f x = true -> g x = true) ->
  find f (filter g l) = find f l.
Proof.
  intros H. induction l as [|x l IH]; simpl; [reflexivity|].
  destruct (f x) eqn:Ef.
  - rewrite (H x Ef). simpl. rewrite Ef. reflexivity.
  - destruct (g x); simpl; [rewrite Ef|]; exact IH.
Qed.

Lemma find_filter_drop {A} (f g : A -> bool) (l : list A) :
  (forall x, f x = true -> g x = false) ->
  find f (filter g l) = None.
Proof.
  intros H. induction l as [|x l IH]; simpl; [reflexivity|].
  destruct (g x) eqn:Eg; [|exact IH].
  simpl. destruct (f x) eqn:Ef; [|exact IH].
  rewrite (H x Ef) in Eg. discriminate.
Qed.

Lemma allianceOther_found (a q : PlayerID) (al : PlayerID * PlayerID) :
  sameAlliance a q al = true -> allianceOther al a = q.
Proof.
  destruct al as [x y]. unfold sameAlliance, pairIs, allianceOther.
  simpl. intros H. nat_cases.
Qed.

Lemma frame_andThen (a p : PlayerID) (f g : Effect) :
  leavesAlone a p f -> leavesAlone a p g -> leavesAlone a p (andThen f g).
Proof.
  intros Hf Hg w. unfold andThen.
  destruct (Hf w) as (F1 & F2 & F3 & F4). destruct (f w) as [w1 o1].
  destruct (Hg w1) as (G1 & G2 & G3 & G4). destruct (g w1) as [w2 o2].
  cbn [fst snd] in *. rewrite filter_app, F3, G3.
  repeat split; congruence.
Qed.

Lemma frame_skip (a p : PlayerID) : leavesAlone a p skip.
Proof. intros w. repeat split. Qed.

Lemma frame_forEach {A} (a p : PlayerID) (l : list A) (body : A -> Effect) :
  (forall x, In x l -> leavesAlone a p (body x)) ->
  leavesAlone a p (forEach l body).
Proof.
  induction l as [|x l IH]; intros H; cbn [forEach].
  - apply frame_skip.
  - apply frame_andThen.
    + apply H. left. reflexivity.
    + apply IH. intros y Hy. apply H. right. exact Hy.
Qed.

Lemma frame_reject (a p q : PlayerID) :
  q <> p ->
  leavesAlone a p
    (fun w =>
       match findRequest w a q with
       | Some allianceRequest => rejectRequest allianceRequest w
       | None => skip w
       end).
Proof.
  intros Hq w. destruct (findRequest w a q) as [ar|] eqn:Er;
    [|repeat split].
  apply find_some in Er. destruct Er as [_ Ear].
  destruct ar as [r1 r2]. unfold pairIs in Ear. simpl in Ear.
  unfold rejectRequest, findRequest, allianceWith. simpl.
  repeat split.
  - apply find_filter_keep. intros [x y]. unfold pairIs. simpl.
    intros H. nat_cases.
  - nat_cases.
Qed.

Lemma frame_break (a p q : PlayerID) :
  q <> p ->
  leavesAlone a p
    (fun w =>
       match allianceWith w a q with
       | Some alliance => breakAlliance a alliance w
       | None => skip w
       end).
Proof.
  intros Hq w. destruct (allianceWith w a q) as [al|] eqn:Ea;
    [|repeat split].
  apply find_some in Ea. destruct Ea as [_ Eal].
  unfold breakAlliance. cbn [fst snd].
  rewrite (allianceOther_found a q al Eal).
  unfold findRequest, allianceWith. simpl.
  repeat split.
  - apply find_filter_keep. intros [x y]. destruct al as [l1 l2].
    unfold sameAlliance, pairIs in *. simpl in *. intros H. nat_cases.
  - nat_cases.
Qed.

Lemma frame_relation (a p q : PlayerID) :
  q <> p ->
  leavesAlone a p
    (if negb (Nat.eqb q a)
     then logOnly (UpdateRelation q a (-100))
     else skip).
Proof.
  intros Hq w. destruct (negb (Nat.eqb q a)); simpl; repeat split.
  nat_cases.
Qed.

(** The calls for an attacked player [q] leave what concerns another
    player [p] as it is. *)
Lemma breakWith_other (a p q : PlayerID) :
  q <> p -> leavesAlone a p (breakWith a q).
Proof.
  intros Hq. unfold breakWith.
  apply frame_andThen; [apply frame_reject; exact Hq|].
  apply frame_andThen; [apply frame_break; exact Hq|].
  apply frame_relation. exact Hq.
Qed.

(** The calls for the attacked player [p] itself. *)
Lemma breakWith_own (a p : PlayerID) (w : World) :
  findRequest (fst (breakWith a p w)) a p = None
  /\ allianceWith (fst (breakWith a p w)) a p = None
  /\ filter (concerns p) (snd (breakWith a p w)) = diplomacyDue w a p
  /\ worldUnits (fst (breakWith a p w)) = worldUnits w.
Proof.
  unfold breakWith, andThen, diplomacyDue.
  assert (Hpp : Nat.eqb p p = true) by apply Nat.eqb_refl.
  assert (Hr : forall w0 ar,
             findRequest w0 a p = Some ar ->
             findRequest (fst (rejectRequest ar w0)) a p = None
             /\ snd (rejectRequest ar w0) = [RejectRequest a p]).
  { intros w0 ar Er. apply find_some in Er. destruct Er as [_ Ear].
    destruct ar as [r1 r2]. unfold pairIs in Ear. simpl in Ear.
    unfold rejectRequest, findRequest. simpl. split.
    - apply find_filter_drop. intros [x y]. unfold pairIs. simpl.
      intros H. nat_cases.
    - nat_cases. }
  assert (Hb : forall w0 al,
             allianceWith w0 a p = Some al ->
             allianceWith (fst (breakAlliance a al w0)) a p = None
             /\ snd (breakAlliance a al w0) = [BreakAlliance a p]).
  { intros w0 al Ea. apply find_some in Ea. destruct Ea as [_ Eal].
    unfold breakAlliance. cbn [fst snd].
    rewrite (allianceOther_found a p al Eal). split; [|reflexivity].
    unfold allianceWith. simpl. apply find_filter_drop.
    intros [x y]. destruct al as [l1 l2].
    unfold sameAlliance, pairIs in *. simpl in *. intros H. nat_cases. }
  destruct (findRequest w a p) as [ar|] eqn:Er.
  - destruct (Hr w ar Er) as [Hr1 Hr2].
    destruct (rejectRequest ar w) as [w1 o1] eqn:Erej.
    cbn [fst snd] in Hr1, Hr2. subst o1.
    assert (Hal : allianceWith w1 a p = allianceWith w a p).
    { unfold rejectRequest in Erej. inversion Erej. reflexivity. }
    assert (Hun : worldUnits w1 = worldUnits w).
    { unfold rejectRequest in Erej. inversion Erej. reflexivity. }
    rewrite <- Hal.
    destruct (allianceWith w1 a p) as [al|] eqn:Ea.
    + destruct (Hb w1 al Ea) as [Hb1 Hb2].
      destruct (breakAlliance a al w1) as [w2 o2] eqn:Ebr.
      cbn [fst snd] in Hb1, Hb2. subst o2.
      assert (Hrq : findRequest w2 a p = findRequest w1 a p).
      { unfold breakAlliance in Ebr. inversion Ebr. reflexivity. }
      assert (Hu2 : worldUnits w2 = worldUnits w1).
      { unfold breakAlliance in Ebr. inversion Ebr. reflexivity. }
      destruct (Nat.eqb p a) eqn:Epa; simpl; rewrite Hpp;
        repeat split; congruence.
    + cbn [skip]. destruct (Nat.eqb p a) eqn:Epa; simpl; rewrite Hpp;
        repeat split; congruence.
  - cbn [skip]. destruct (allianceWith w a p) as [al|] eqn:Ea.
    + destruct (Hb w al Ea) as [Hb1 Hb2].
      destruct (breakAlliance a al w) as [w2 o2] eqn:Ebr.
      cbn [fst snd] in Hb1, Hb2. subst o2.
      assert (Hrq : findRequest w2 a p = findRequest w a p).
      { unfold breakAlliance in Ebr. inversion Ebr. reflexivity. }
      assert (Hu2 : worldUnits w2 = worldUnits w).
      { unfold breakAlliance in Ebr. inversion Ebr. reflexivity. }
      destruct (Nat.eqb p a) eqn:Epa; simpl; rewrite ?Hpp;
        repeat split; congruence.
    + destruct (Nat.eqb p a) eqn:Epa; simpl; rewrite ?Hpp;
        repeat split; congruence.
Qed.

Lemma forEach_app {A} (l1 l2 : list A) (body : A -> Effect) (w : World) :
  forEach (l1 ++ l2) body w
  = andThen (forEach l1 body) (forEach l2 body) w.
Proof.
  revert w. induction l1 as [|x l1 IH]; intros w; cbn [app forEach].
  - unfold andThen, skip. destruct (forEach l2 body w). reflexivity.
  - unfold andThen at 1 2 3. destruct (body x w) as [w1 o1].
    rewrite IH. unfold andThen.
    destruct (forEach l1 body w1) as [w2 o2].
    destruct (forEach l2 body w2) as [w3 o3].
    rewrite app_assoc. reflexivity.
Qed.

Lemma unitTypeOf_same (w w' : World) (u : UnitID) :
  worldUnits w' = worldUnits w -> unitTypeOf w' u = unitTypeOf w u.
Proof. intros H. unfold unitTypeOf, findUnit. rewrite H. reflexivity. Qed.

Lemma diplomacyDue_same (w w' : World) (a p : PlayerID) :
  findRequest w' a p = findRequest w a p ->
  allianceWith w' a p = allianceWith w a p ->
  diplomacyDue w' a p = diplomacyDue w a p.
Proof. intros H1 H2. unfold diplomacyDue. rewrite H1, H2. reflexivity. Qed.

Lemma breakLoop_others (a p : PlayerID) (u : UnitID)
    (l : list (PlayerID * Q)) :
  ~ In p (map fst l) -> leavesAlone a p (breakLoop a u l).
Proof.
  intros Hp. unfold breakLoop. apply frame_forEach.
  intros [q wt] Hin w. cbn [fst snd].
  assert (Hq : q <> p).
  { intros ->. apply Hp. apply in_map_iff. exists (p, wt). auto. }
  destruct (Qgt_bool wt nukeAllianceBreakThreshold
            && negb (UnitType_eqb (unitTypeOf w u) MIRVWarhead)).
  - apply breakWith_other. exact Hq.
  - apply frame_skip.
Qed.

(** The loop over [attacked], for the one entry of a player over the
    threshold. *)
Lemma breakLoop_entry (a p : PlayerID) (u : UnitID) (wt : Q)
    (l1 l2 : list (PlayerID * Q)) (w : World) :
  ~ In p (map fst l1) ->
  ~ In p (map fst l2) ->
  Qgt_bool wt nukeAllianceBreakThreshold = true ->
  UnitType_eqb (unitTypeOf w u) MIRVWarhead = false ->
  let r := breakLoop a u (l1 ++ (p, wt) :: l2) w in
  filter (concerns p) (snd r) = diplomacyDue w a p
  /\ findRequest (fst r) a p = None
  /\ allianceWith (fst r) a p = None.
Proof.
  intros H1 H2 Hwt Hty. cbv zeta.
  pose proof (breakLoop_others a p u l1 H1 w) as (A1 & A2 & A3 & A4).
  unfold breakLoop in *. rewrite forEach_app. unfold andThen.
  destruct (forEach l1 _ w) as [wA oA]. cbn [fst snd] in *.
  cbn [forEach]. unfold andThen. cbn [fst snd].
  rewrite Hwt, (unitTypeOf_same w wA u A4), Hty. cbn [negb andb].
  pose proof (breakWith_own a p wA) as (B1 & B2 & B3 & B4).
  destruct (breakWith a p wA) as [wB oB]. cbn [fst snd] in *.
  pose proof (breakLoop_others a p u l2 H2 wB) as (C1 & C2 & C3 & C4).
  unfold breakLoop in *.
  destruct (forEach l2 _ wB) as [wC oC]. cbn [fst snd] in *.
  rewrite !filter_app, A3, B3, C3, app_nil_r. cbn [app].
  split; [apply diplomacyDue_same; assumption|].
  split; congruence.
Qed.

Lemma map_get_split {V} (k : nat) (v : V) (m : list (nat * V)) :
  NoDup (map fst m) ->
  map_get k m = Some v ->
  exists l1 l2,
    m = l1 ++ (k, v) :: l2
    /\ ~ In k (map fst l1) /\ ~ In k (map fst l2).
Proof.
  induction m as [|[j x] m IH]; simpl; intros Hnd Hg; [discriminate|].
  inversion Hnd as [|? ? Hj Hm]; subst.
  destruct (Nat.eqb k j) eqn:E.
  - apply Nat.eqb_eq in E. subst j. inversion Hg; subst.
    exists [], m. simpl. auto.
  - apply Nat.eqb_neq in E.
    destruct (IH Hm Hg) as (l1 & l2 & -> & H1 & H2).
    exists ((j, x) :: l1), l2. simpl. repeat split; auto.
    intros [H|H]; [congruence|tauto].
Qed.

Lemma attackedWeights_same (w w' : World) (r : list (TileRef * Q)) :
  tileOwners w' = tileOwners w ->
  attackedWeights w' r = attackedWeights w r.
Proof.
  intros H. unfold attackedWeights, owner. rewrite H. reflexivity.
Qed.

Lemma Qgt_bool_lt (a b : Q) : (b < a)%Q -> Qgt_bool a b = true.
Proof.
  intros H. unfold Qgt_bool. destruct (Qle_bool a b) eqn:E; [|reflexivity].
  apply Qle_bool_iff in E. exfalso. exact (Qlt_not_le _ _ H E).
Qed.

(** C2.  On the tick that spawns the unit of a weapon that is not the
    warhead sub-munition, for every player who owns a tile of the
    circular search and whose blast weight (1 per tile within the inner
    radius, 1/2 per tile beyond) exceeds the threshold, the calls that
    concern that player are, in this order: the rejection of the
    pending request from the attacker if there is one, the breaking of
    the alliance with the attacker if there is one, and, for a player
    other than the attacker, the relation update by -100.  Afterwards
    no request from the attacker to that player is pending and no
    alliance between them exists. *)
Theorem launch_breaks_alliances (t : Z) (e : NukeExecution PF) (w : World)
    (pf : PF) (spawn : TileRef) (p : PlayerID) :
  nuke e = None ->
  mg e = true ->
  pathFinder e = Some pf ->
  canBuild w (player e) (nukeType e) (dst e) = Some spawn ->
  nukeType e <> MIRVWarhead ->
  let m := nukeMagnitudes (nukeType e) in
  distinct (map fst (circleSearch (dst e) (outer m))) = true ->
  inBlast w (dst e) m p = true ->
  (nukeAllianceBreakThreshold < blastWeight w (dst e) m p)%Q ->
  exists e' w' out,
    tick (Rng := Rng) t e w = Ok tt e' w' out
    /\ nuke e' = Some (freshUnitID w)
    /\ filter (concerns p) out = diplomacyDue w (player e) p
    /\ findRequest w' (player e) p = None
    /\ allianceWith w' (player e) p = None.
Proof.
  intros Hn Hm Hp Hc Hty m Hd Hin Hw. unfold m in *. clear m.
  destruct (tick_launch t e w pf spawn Hn Hm Hp Hc)
    as (e' & w1 & siloOut & Ht & Hnuke & _ & Hut & Hto & Har & Hal & Hsilo).
  assert (Ew : NukeType_eqb (nukeType e) MIRVWarhead = false).
  { destruct (NukeType_eqb (nukeType e) MIRVWarhead) eqn:E; [|reflexivity].
    apply NukeType_eqb_eq in E. contradiction. }
  unfold launchDiplomacy in Ht. rewrite Ew in Ht.
  rewrite (attackedWeights_same w w1 _ Hto) in Ht.
  apply distinct_NoDup in Hd.
  destruct (attackedWeights_entry w (dst e) _ p Hd Hin) as [Hnd Hg].
  destruct (map_get_split p _ _ Hnd Hg) as (l1 & l2 & Hs & Hl1 & Hl2).
  rewrite Hs in Ht.
  assert (Hu : UnitType_eqb (unitTypeOf w1 (freshUnitID w)) MIRVWarhead
               = false).
  { rewrite Hut. exact Ew. }
  destruct (breakLoop_entry (player e) p (freshUnitID w)
              _ l1 l2 w1 Hl1 Hl2
              (Qgt_bool_lt _ _ Hw) Hu) as (D1 & D2 & D3).
  cbv zeta in D1, D2, D3.
  do 3 eexists. split; [exact Ht|]. split; [exact Hnuke|].
  split; [|split; assumption].
  cbn [filter concerns]. rewrite !filter_app.
  rewrite (filter_nothing (concerns p) isSiloLaunch siloOut);
    [|intros [] H; simpl in *; tauto|exact Hsilo].
  assert (Ha : filter (concerns p)
                 (launchAnnouncements (freshUnitID w) e w) = []).
  { unfold launchAnnouncements. destruct (owner w (dst e)); [reflexivity|].
    destruct (nukeType e); reflexivity. }
  rewrite Ha, !app_nil_r.
  etransitivity; [exact D1|].
  apply diplomacyDue_same.
  - unfold findRequest. rewrite Har. reflexivity.
  - unfold allianceWith. rewrite Hal. reflexivity.
Qed.

(** ** Further facts: the rest of the life cycle *)

(** *** [init] *)

(** X1.  [init] binds the game and installs a fresh path finder; it
    replaces the speed by the configured default exactly when the speed
    is the placeholder -1; it leaves every other field and the world as
    they are, and logs nothing.  Run again on its own result, in any
    world, it changes nothing. *)
Theorem init_binds_once (t : Z) (e : NukeExecution PF) (w : World) :
  exists e',
    init t e w = Ok tt e' w []
    /\ mg e' = true
    /\ pathFinder e' = Some newPathFinder
    /\ speed e' = (if Z.eqb (speed e) (-1) then defaultNukeSpeed else speed e)
    /\ (active e', nuke e', tilesToDestroyCache e', nukeType e', player e',
        dst e', src e', waitTicks e')
       = (active e, nuke e, tilesToDestroyCache e, nukeType e, player e,
          dst e, src e, waitTicks e)
    /\ forall t' w', init t' e' w' = Ok tt e' w' [].
Proof.
  unfold init. run. cbn [set_mg speed].
  destruct (Z.eqb (speed e) (-1)) eqn:Es; run.
  - eexists. split; [reflexivity|]. cbn. repeat split.
    intros t' w'. destruct (Z.eqb defaultNukeSpeed (-1)) eqn:Ed; reflexivity.
  - eexists. split; [reflexivity|]. cbn. repeat split.
    intros t' w'. rewrite Es. reflexivity.
Qed.

(** *** Calls out of order *)

(** X2.  On an object without a unit, [tilesInRange],
    [maybeBreakAlliances] and [detonate] throw "Not initialized" at once,
    and so does [tilesToDestroy] unless the set is cached, in which case
    it answers with the cache even without a unit; the object and the
    world are as before and nothing is logged. *)
Theorem no_unit_not_initialized (e : NukeExecution PF) (w : World)
    (r : list (TileRef * Q)) :
  nuke e = None ->
  tilesInRange e w = Throw "Not initialized" e w []
  /\ maybeBreakAlliances r e w = Throw "Not initialized" e w []
  /\ detonate (Rng := Rng) e w = Throw "Not initialized" e w []
  /\ (tilesToDestroyCache e = None ->
      tilesToDestroy (Rng := Rng) e w = Throw "Not initialized" e w [])
  /\ (forall cache,
        tilesToDestroyCache e = Some cache ->
        tilesToDestroy (Rng := Rng) e w = Ok cache e w []).
Proof.
  intros Hn. repeat split.
  - unfold tilesInRange. run. rewrite Hn. reflexivity.
  - unfold maybeBreakAlliances. run. rewrite Hn. reflexivity.
  - unfold detonate. run. rewrite Hn. reflexivity.
  - intros Hc. unfold tilesToDestroy. run. rewrite Hc, Hn. reflexivity.
  - intros cache Hc. unfold tilesToDestroy. run. rewrite Hc. reflexivity.
Qed.

(** X3.  A tick on an execution on which [init] has not run: with a
    launch site at hand it throws on the missing path finder, after it
    has overwritten [src] and before it builds a unit or calls any
    collaborator; the execution stays active and without a unit. *)
Theorem tick_before_init (t : Z) (e : NukeExecution PF) (w : World)
    (spawn : TileRef) :
  nuke e = None ->
  pathFinder e = None ->
  canBuild w (player e) (nukeType e) (dst e) = Some spawn ->
  tick (Rng := Rng) t e w
  = Throw "TypeError: this.pathFinder is undefined"
      (set_src (Some spawn) e) w []
  /\ nuke (set_src (Some spawn) e) = None
  /\ isActive (set_src (Some spawn) e) = isActive e.
Proof.
  intros Hn Hp Hc. repeat split; [|exact Hn].
  unfold tick. run. rewrite Hn. run. rewrite Hc. run.
  cbn [pathFinder set_src]. rewrite Hp. reflexivity.
Qed.

(** *** Detonation *)

Lemma andThen_fst (f g : Effect) (w : World) :
  fst (andThen f g w) = fst (g (fst (f w))).
Proof.
  unfold andThen. destruct (f w) as [w1 o1]. cbn [fst snd].
  destruct (g w1). reflexivity.
Qed.

Lemma andThen_snd (f g : Effect) (w : World) :
  snd (andThen f g w) = snd (f w) ++ snd (g (fst (f w))).
Proof.
  unfold andThen. destruct (f w) as [w1 o1]. cbn [fst snd].
  destruct (g w1). reflexivity.
Qed.

Lemma call_eq (f : Effect) (e : NukeExecution PF) (w : World) :
  call f e w = Ok tt e (fst (f w)) (snd (f w)).
Proof. unfold call. destruct (f w). reflexivity. Qed.

Lemma tilesToDestroy_ok (e : NukeExecution PF) (w : World) (u : UnitID) :
  nuke e = Some u ->
  mg e = true ->
  tilesToDestroy (Rng := Rng) e w
  = Ok (destroyedTiles e u w)
      match tilesToDestroyCache e with
      | Some _ => e
      | None => set_tilesToDestroyCache (Some (destroyedTiles e u w)) e
      end w [].
Proof.
  intros Hn Hm. unfold tilesToDestroy, destroyedTiles. run.
  destruct (tilesToDestroyCache e); [reflexivity|].
  rewrite Hn. run. rewrite Hm. reflexivity.
Qed.

(** [detonate] on an initialised object with a unit. *)
Lemma detonate_ok (e : NukeExecution PF) (w : World) (u : UnitID) :
  nuke e = Some u ->
  mg e = true ->
  detonate (Rng := Rng) e w
  = Ok tt (detonated e u w)
      (fst (blast e u w (destroyedTiles e u w) w))
      (snd (blast e u w (destroyedTiles e u w) w)
       ++ [BombLand (player e) (owner w (dst e)) (unitTypeOf w u)]).
Proof.
  intros Hn Hm. unfold detonate, target.
  unfold bind at 1. unfold getThis at 1. rewrite Hn.
  unfold bind at 1. unfold bind at 1. unfold getThis at 1. rewrite Hm.
  cbn [negb]. unfold bind at 1. unfold getWorld at 1. unfold ret at 1.
  cbn [app].
  unfold bind at 1. unfold derefMg. unfold bind at 1. unfold getThis at 1.
  rewrite Hm. unfold ret at 1. cbn [app].
  unfold bind at 1. unfold getWorld at 1. cbn [app].
  unfold bind at 1. rewrite (tilesToDestroy_ok e w u Hn Hm).
  unfold blast, blastMaxTroops, detonated.
  set (e1 := match tilesToDestroyCache e with
             | Some _ => e
             | None => set_tilesToDestroyCache (Some (destroyedTiles e u w)) e
             end).
  set (f1 := forEach (destroyedTiles e u w) _).
  unfold bind at 1. rewrite call_eq.
  unfold bind at 1. rewrite call_eq.
  unfold bind at 1. rewrite call_eq.
  unfold bind at 1. unfold modifyThis at 1.
  unfold bind at 1. rewrite call_eq.
  unfold bind at 1. rewrite call_eq.
  unfold emit. cbn [app].
  rewrite !andThen_fst, !andThen_snd, <- !app_assoc. reflexivity.
Qed.

(** *** The paths of [tick] on an initialised object *)

Lemma getTrajectory_eq (e : NukeExecution PF) (w : World) (pf : PF) :
  mg e = true -> pathFinder e = Some pf ->
  getTrajectory (dst e) e w = Ok (launchTrajectory e pf) e w [].
Proof.
  intros Hm Hp. unfold getTrajectory, launchTrajectory. run.
  rewrite Hm, Hp. run. reflexivity.
Qed.

Lemma cooldownSilo_eq (s : TileRef) (e : NukeExecution PF) (w : World) :
  cooldownSilo s e w = Ok tt e w (siloCalls (player e) s w).
Proof.
  unfold cooldownSilo, siloCalls. run.
  destruct (find _ _); reflexivity.
Qed.

Lemma siloCalls_isSiloLaunch (p : PlayerID) (s : TileRef) (w : World) :
  Forall isSiloLaunch (siloCalls p s w).
Proof. unfold siloCalls. destruct (find _ _); repeat constructor. Qed.

Lemma tick_launch_trace (t : Z) (e : NukeExecution PF) (w : World) (pf : PF)
    (spawn : TileRef) :
  nuke e = None ->
  mg e = true ->
  pathFinder e = Some pf ->
  canBuild w (player e) (nukeType e) (dst e) = Some spawn ->
  let u := freshUnitID w in
  let pf' := computeControlPoints pf spawn (dst e) (speed e)
               (negb (NukeType_eqb (nukeType e) MIRVWarhead)) in
  let e2 := set_pathFinder (Some pf') (set_src (Some spawn) e) in
  let w1 := snd (fst (buildUnit (player e) (nukeType e) spawn (dst e)
                        (launchTrajectory e2 pf') w)) in
  tick (Rng := Rng) t e w
  = Ok tt (set_nuke (Some u) e2) (fst (launchDiplomacy e u w1))
      (BuildUnit (player e) (nukeType e) spawn u
       :: snd (launchDiplomacy e u w1)
          ++ launchAnnouncements u e w
          ++ siloCalls (player e) spawn (fst (launchDiplomacy e u w1))).
Proof.
  intros Hn Hm Hp Hc u pf' e2 w1.
  unfold tick. run. rewrite Hn. run. rewrite Hc. run.
  cbn [pathFinder set_src]. rewrite Hp. run.
  match goal with
  | |- context [getTrajectory ?d ?e3 ?w2] =>
      change (getTrajectory d e3 w2) with (getTrajectory (dst e2) e2 w2)
  end.
  rewrite (getTrajectory_eq e2 w pf' Hm eq_refl).
  unfold callBuildUnit.
  destruct (buildUnit_spec (player e) (nukeType e) spawn (dst e)
              (launchTrajectory e2 pf') w)
    as (w1' & Hb & Hty & _ & Hto & Har & Hal & _).
  assert (Hw1 : w1 = w1') by (unfold w1; rewrite Hb; reflexivity).
  fold u in Hb, Hty. rewrite Hb. rewrite <- Hw1 in *. clear Hw1 w1' Hb.
  run. rewrite Hty. cbn [UnitType_eqb].
  assert (Hann : forall (e3 : NukeExecution PF) (w2 : World),
             dst e3 = dst e -> nukeType e3 = nukeType e ->
             player e3 = player e -> tileOwners w2 = tileOwners w ->
             launchAnnouncements u e3 w2 = launchAnnouncements u e w).
  { intros e3 w2 H1 H2 H3 H4. unfold launchAnnouncements.
    rewrite H1, H2, H3, (owner_same w w2 (dst e) H4). reflexivity. }
  unfold launchDiplomacy.
  destruct (NukeType_eqb (nukeType e) MIRVWarhead) eqn:Ew; cbn [negb]; run.
  - match goal with
    | |- context [announceLaunch ?u0 ?e3 ?w2] =>
        rewrite (announceLaunch_ok u0 e3 w2 Hm);
        rewrite (Hann e3 w2 eq_refl eq_refl eq_refl Hto)
    end.
    match goal with
    | |- context [cooldownSilo ?s ?e3 ?w2] =>
        rewrite (cooldownSilo_eq s e3 w2)
    end.
    cbn [skip fst snd app player set_nuke set_pathFinder set_src].
    reflexivity.
  - match goal with
    | |- context [tilesInRange ?e3 ?w2] =>
        rewrite (tilesInRange_ok e3 w2 u eq_refl Hm)
    end.
    rewrite Hty.
    match goal with
    | |- context [maybeBreakAlliances ?r ?e3 ?w2] =>
        rewrite (maybeBreakAlliances_ok r e3 w2 u eq_refl Hm)
    end.
    cbn [player set_nuke set_pathFinder set_src dst].
    destruct (breakLoop_keeps (player e) u
                (attackedWeights w1
                   (weighTiles (dst e) (nukeMagnitudes (nukeType e)))) w1)
      as [(Hk1 & Hk2 & Hk3) _].
    match goal with
    | |- context [announceLaunch ?u0 ?e3 ?w2] =>
        rewrite (announceLaunch_ok u0 e3 w2 Hm);
        rewrite (Hann e3 w2 eq_refl eq_refl eq_refl
                   (eq_trans Hk1 Hto))
    end.
    match goal with
    | |- context [cooldownSilo ?s ?e3 ?w2] =>
        rewrite (cooldownSilo_eq s e3 w2)
    end.
    cbn [app player set_nuke set_pathFinder set_src].
    reflexivity.
Qed.

Lemma tick_launch_full (t : Z) (e : NukeExecution PF) (w : World) (pf : PF)
    (spawn : TileRef) :
  nuke e = None ->
  mg e = true ->
  pathFinder e = Some pf ->
  canBuild w (player e) (nukeType e) (dst e) = Some spawn ->
  let u := freshUnitID w in
  let pf' := computeControlPoints pf spawn (dst e) (speed e)
               (negb (NukeType_eqb (nukeType e) MIRVWarhead)) in
  let e2 := set_pathFinder (Some pf') (set_src (Some spawn) e) in
  let w1 := snd (fst (buildUnit (player e) (nukeType e) spawn (dst e)
                        (launchTrajectory e2 pf') w)) in
  exists siloOut,
    tick (Rng := Rng) t e w
    = Ok tt (set_nuke (Some u) e2) (fst (launchDiplomacy e u w1))
        (BuildUnit (player e) (nukeType e) spawn u
         :: snd (launchDiplomacy e u w1)
            ++ launchAnnouncements u e w ++ siloOut)
    /\ Forall isSiloLaunch siloOut.
Proof.
  intros Hn Hm Hp Hc u pf' e2 w1.
  eexists. split.
  - exact (tick_launch_trace t e w pf spawn Hn Hm Hp Hc).
  - apply siloCalls_isSiloLaunch.
Qed.

Lemma updateNukeTargetable_ok (e : NukeExecution PF) (w : World) :
  mg e = true ->
  updateNukeTargetable e w
  = Ok tt e (fst (retarget e w)) (snd (retarget e w)).
Proof.
  intros Hm. unfold updateNukeTargetable, retarget. run.
  destruct (nuke e) as [u|]; [|reflexivity].
  destruct (findUnit w u) as [x|]; [|reflexivity].
  destruct (unit_targetTile x) as [tt'|]; [|reflexivity].
  run. rewrite Hm. reflexivity.
Qed.

(** The tick that reaches the target. *)
Lemma tick_arrives (t : Z) (e : NukeExecution PF) (w : World) (u : UnitID)
    (pf pf' : PF) :
  nuke e = Some u ->
  unitIsActive w u = true ->
  (waitTicks e <= 0)%Z ->
  mg e = true ->
  pathFinder e = Some pf ->
  nextTile pf (speed e) = (Arrived, pf') ->
  let e1 := set_pathFinder (Some pf') e in
  tick (Rng := Rng) t e w
  = Ok tt (detonated e1 u w)
      (fst (blast e1 u w (destroyedTiles e1 u w) w))
      (snd (blast e1 u w (destroyedTiles e1 u w) w)
       ++ [BombLand (player e) (owner w (dst e)) (unitTypeOf w u)]).
Proof.
  intros Hn Hu Hw Hm Hp Hnt e1.
  unfold tick. unfold bind at 1. unfold getThis at 1. rewrite Hn.
  unfold bind at 1. unfold getWorld at 1. rewrite Hu. cbn [negb].
  assert (Hwt : Z.ltb 0 (waitTicks e) = false) by (apply Z.ltb_ge; exact Hw).
  rewrite Hwt.
  unfold bind at 1. unfold derefPathFinder. unfold bind at 1.
  unfold getThis at 1. rewrite Hp. unfold ret at 1. rewrite Hnt.
  unfold bind at 1. unfold modifyThis at 1. fold e1.
  rewrite (detonate_ok e1 w u Hn Hm). reflexivity.
Qed.

(** The tick that moves the unit one step. *)
Lemma tick_moves (t : Z) (e : NukeExecution PF) (w : World) (u : UnitID)
    (pf pf' : PF) (next : TileRef) :
  nuke e = Some u ->
  unitIsActive w u = true ->
  (waitTicks e <= 0)%Z ->
  mg e = true ->
  pathFinder e = Some pf ->
  nextTile pf (speed e) = (Next next, pf') ->
  let e1 := set_pathFinder (Some pf') e in
  let step :=
    andThen (retarget e1)
      (andThen (unitMove u next)
         (unitSetTrajectoryIndex u (currentIndex pf'))) in
  tick (Rng := Rng) t e w = Ok tt e1 (fst (step w)) (snd (step w)).
Proof.
  intros Hn Hu Hw Hm Hp Hnt e1 step.
  unfold tick. unfold bind at 1. unfold getThis at 1. rewrite Hn.
  unfold bind at 1. unfold getWorld at 1. rewrite Hu. cbn [negb].
  assert (Hwt : Z.ltb 0 (waitTicks e) = false) by (apply Z.ltb_ge; exact Hw).
  rewrite Hwt.
  unfold bind at 1. unfold derefPathFinder. unfold bind at 1.
  unfold getThis at 1. rewrite Hp. unfold ret at 1. rewrite Hnt.
  unfold bind at 1. unfold modifyThis at 1. fold e1.
  unfold bind at 1. rewrite (updateNukeTargetable_ok e1 w Hm).
  unfold bind at 1. rewrite call_eq. rewrite call_eq.
  unfold step. rewrite !andThen_fst, !andThen_snd.
  cbn [app]. reflexivity.
Qed.

(** X4.  Once [init] has run, [tick] never throws: on every world it
    returns normally, and the object is still initialised afterwards,
    so the same holds for every later tick. *)
Theorem tick_never_throws (t : Z) (e : NukeExecution PF) (w : World) :
  isInitialised e ->
  exists e' w' out,
    tick (Rng := Rng) t e w = Ok tt e' w' out /\ isInitialised e'.
Proof.
  intros [Hm Hp]. destruct (pathFinder e) as [pf|] eqn:Epf; [|congruence].
  clear Hp. destruct (nuke e) as [u|] eqn:Hn.
  - destruct (unitIsActive w u) eqn:Hu.
    + destruct (Z.ltb 0 (waitTicks e)) eqn:Hw.
      * apply Z.ltb_lt in Hw.
        destruct (tick_waits t e w u Hn Hu Hw) as [Ht _].
        do 3 eexists. split; [exact Ht|]. split; cbn; congruence.
      * apply Z.ltb_ge in Hw.
        destruct (nextTile pf (speed e)) as [[|next] pf'] eqn:Hnt.
        -- pose proof (tick_arrives t e w u pf pf' Hn Hu Hw Hm Epf Hnt) as Ht.
           cbv zeta in Ht. do 3 eexists. split; [exact Ht|].
           unfold detonated. cbn [set_pathFinder tilesToDestroyCache].
           destruct (tilesToDestroyCache e); split; cbn; congruence.
        -- pose proof (tick_moves t e w u pf pf' next Hn Hu Hw Hm Epf Hnt)
             as Ht.
           cbv zeta in Ht. do 3 eexists. split; [exact Ht|].
           split; cbn; congruence.
    + do 3 eexists. split; [exact (tick_intercepted t e w u Hn Hu)|].
      split; cbn; congruence.
  - destruct (canBuild w (player e) (nukeType e) (dst e)) as [spawn|] eqn:Hc.
    + destruct (tick_launch_full t e w pf spawn Hn Hm Epf Hc)
        as (siloOut & Ht & _).
      do 3 eexists. split; [exact Ht|]. split; cbn; congruence.
    + do 3 eexists. split; [exact (tick_refused t e w Hn Hc)|].
      split; cbn; congruence.
Qed.

(** *** The launch *)





(** *** One unit per execution *)

Lemma keepsUnits_skip : keepsUnits skip.
Proof. intros w. split; reflexivity. Qed.

Lemma keepsUnits_andThen (f g : Effect) :
  keepsUnits f -> keepsUnits g -> keepsUnits (andThen f g).
Proof.
  intros Hf Hg w. rewrite andThen_fst, andThen_snd, filter_app.
  destruct (Hf w) as [F1 F2]. destruct (Hg (fst (f w))) as [G1 G2].
  rewrite F2, G2, G1, F1. split; reflexivity.
Qed.

Lemma keepsUnits_forEach {A} (l : list A) (body : A -> Effect) :
  (forall x, keepsUnits (body x)) -> keepsUnits (forEach l body).
Proof.
  intros H. induction l as [|x l IH]; cbn [forEach].
  - apply keepsUnits_skip.
  - apply keepsUnits_andThen; [apply H|exact IH].
Qed.

Lemma keepsUnits_in_world (f : World -> Effect) :
  (forall w0, keepsUnits (f w0)) -> keepsUnits (fun w => f w w).
Proof. intros H w. apply (H w w). Qed.

Lemma keepsUnits_updateUnit (u : UnitID) (g : Unit -> Unit) (ev : Event) :
  (forall x, unit_id (g x) = unit_id x) ->
  isBuildUnit ev = false ->
  keepsUnits (fun w => (updateUnit u g w, [ev])).
Proof.
  intros Hg Hev w. cbn [fst snd filter]. rewrite Hev. split; [|reflexivity].
  unfold updateUnit. cbn [worldUnits set_worldUnits]. rewrite map_map.
  apply map_ext. intros x. destruct (Nat.eqb (unit_id x) u); auto.
Qed.

Lemma keepsUnits_logOnly (ev : Event) :
  isBuildUnit ev = false -> keepsUnits (logOnly ev).
Proof. intros Hev w. cbn. rewrite Hev. split; reflexivity. Qed.

Lemma keepsUnits_attritAttacks (ty : NukeType) (mx : Z) (p : PlayerID) :
  keepsUnits (attritAttacks ty mx p).
Proof.
  intros w. unfold attritAttacks. cbn [fst snd]. split; [reflexivity|].
  induction (filter _ (attacks w)) as [|a l IH]; [reflexivity|exact IH].
Qed.

Lemma keepsUnits_attritTransports (ty : NukeType) (mx : Z) (p : PlayerID) :
  keepsUnits (attritTransports ty mx p).
Proof.
  unfold attritTransports.
  apply (keepsUnits_in_world
           (fun w0 => forEach (playerUnits w0 p TransportShip) _)).
  intros w0. apply keepsUnits_forEach. intros ship.
  apply (keepsUnits_in_world
           (fun w' => unitSetTroops (unit_id ship) _)).
  intros w'. unfold unitSetTroops.
  apply keepsUnits_updateUnit; reflexivity.
Qed.

Lemma keepsUnits_destroyTile (ty : NukeType) (mx : Z) (tile : TileRef) :
  keepsUnits (destroyTile ty mx tile).
Proof.
  unfold destroyTile. apply keepsUnits_andThen.
  - intros w0. destruct (owner w0 tile) as [|p]; [apply keepsUnits_skip|].
    revert w0.
    apply keepsUnits_andThen; [intros w; split; reflexivity|].
    apply keepsUnits_andThen; [intros w; split; reflexivity|].
    apply keepsUnits_andThen;
      [apply keepsUnits_attritAttacks|apply keepsUnits_attritTransports].
  - destruct (isLand tile); [intros w; split; reflexivity|].
    apply keepsUnits_skip.
Qed.

Lemma keepsUnits_destroyUnits (a : PlayerID) (d : TileRef) (outer2 : Z) :
  keepsUnits (destroyUnits a d outer2).
Proof.
  unfold destroyUnits.
  apply (keepsUnits_in_world (fun w0 => forEach (units w0) _)).
  intros w0. apply keepsUnits_forEach. intros x.
  destruct (negb (isNukeUnitType (unit_type x))
            && Z.ltb (euclideanDistSquared d (unit_tile x)) outer2).
  - unfold unitDelete. apply keepsUnits_updateUnit; reflexivity.
  - apply keepsUnits_skip.
Qed.

Lemma keepsUnits_redrawBuildings (d : TileRef) (range : Z) :
  keepsUnits (redrawBuildings d range).
Proof.
  unfold redrawBuildings.
  apply (keepsUnits_in_world (fun w0 => forEach (units w0) _)).
  intros w0. apply keepsUnits_forEach. intros x.
  destruct (isStructureType (unit_type x)
            && Z.ltb (euclideanDistSquared d (unit_tile x)) (range * range)).
  - apply keepsUnits_logOnly. reflexivity.
  - apply keepsUnits_skip.
Qed.

Lemma holdsUnit_bind {A B} (u : UnitID) (m : M PF A) (k : A -> M PF B) :
  holdsUnit u m -> (forall a, holdsUnit u (k a)) -> holdsUnit u (bind m k).
Proof.
  intros Hm Hk e w Hn. unfold bind.
  destruct (Hm e w Hn) as (M1 & M2 & M3).
  destruct (m e w) as [a e1 w1 o1|msg e1 w1 o1]; cbn [thisOf worldOf outOf] in *;
    [|auto].
  destruct (Hk a e1 w1 M1) as (K1 & K2 & K3).
  destruct (k a e1 w1) as [b e2 w2 o2|msg e2 w2 o2];
    cbn [thisOf worldOf outOf] in *;
    rewrite filter_app, M3, K3, K2, M2; auto.
Qed.

Lemma holdsUnit_getThis_bind {B} (u : UnitID)
    (k : NukeExecution PF -> M PF B) :
  (forall this, nuke this = Some u -> holdsUnit u (k this)) ->
  holdsUnit u (bind (getThis (PF := PF)) k).
Proof.
  intros Hk e w Hn. unfold bind, getThis.
  destruct (Hk e Hn e w Hn) as (K1 & K2 & K3).
  destruct (k e e w); cbn [thisOf worldOf outOf app] in *; auto.
Qed.

Lemma holdsUnit_ret {A} (u : UnitID) (a : A) : holdsUnit u (ret (PF := PF) a).
Proof. intros e w Hn. cbn. auto. Qed.

Lemma holdsUnit_throw {A} (u : UnitID) (msg : string) :
  holdsUnit u (throw (PF := PF) (A := A) msg).
Proof. intros e w Hn. cbn. auto. Qed.

Lemma holdsUnit_getWorld (u : UnitID) : holdsUnit u (getWorld (PF := PF)).
Proof. intros e w Hn. cbn. auto. Qed.

Lemma holdsUnit_emit (u : UnitID) (ev : Event) :
  isBuildUnit ev = false -> holdsUnit u (emit (PF := PF) ev).
Proof. intros Hev e w Hn. cbn. rewrite Hev. auto. Qed.

Lemma holdsUnit_call (u : UnitID) (f : Effect) :
  keepsUnits f -> holdsUnit u (call (PF := PF) f).
Proof.
  intros Hf e w Hn. rewrite call_eq. cbn [thisOf worldOf outOf].
  destruct (Hf w). auto.
Qed.

Lemma holdsUnit_modifyThis (u : UnitID)
    (f : NukeExecution PF -> NukeExecution PF) :
  (forall e, nuke (f e) = nuke e) -> holdsUnit u (modifyThis f).
Proof. intros Hf e w Hn. cbn. rewrite Hf. auto. Qed.

Ltac holds :=
  repeat first
    [ assumption
    | apply holdsUnit_ret
    | apply holdsUnit_throw
    | apply holdsUnit_getWorld
    | apply holdsUnit_emit; reflexivity
    | apply holdsUnit_modifyThis; intros ?; reflexivity
    | apply holdsUnit_getThis_bind; intros ? ?
    | apply holdsUnit_bind; [|intro]
    | match goal with
      | |- holdsUnit _ (match ?x with _ => _ end) => destruct x
      end ].

Lemma holdsUnit_derefMg (u : UnitID) : holdsUnit u (derefMg (PF := PF)).
Proof. unfold derefMg. holds. Qed.

Lemma holdsUnit_tilesToDestroy (u : UnitID) :
  holdsUnit u (tilesToDestroy (PF := PF) (Rng := Rng)).
Proof. pose proof (holdsUnit_derefMg u). unfold tilesToDestroy. holds. Qed.

Lemma holdsUnit_detonate (u : UnitID) :
  holdsUnit u (detonate (PF := PF) (Rng := Rng)).
Proof.
  pose proof (holdsUnit_derefMg u).
  pose proof (holdsUnit_tilesToDestroy u).
  unfold detonate, target. holds;
    apply holdsUnit_call;
    first [ apply keepsUnits_forEach; intros ?; apply keepsUnits_destroyTile
          | apply keepsUnits_destroyUnits
          | apply keepsUnits_redrawBuildings
          | apply keepsUnits_updateUnit; reflexivity ].
Qed.

Lemma holdsUnit_updateNukeTargetable (u : UnitID) :
  holdsUnit u (updateNukeTargetable (PF := PF)).
Proof.
  pose proof (holdsUnit_derefMg u).
  unfold updateNukeTargetable. holds.
  apply holdsUnit_call. apply keepsUnits_updateUnit; reflexivity.
Qed.

(** X6.  One unit per execution: a tick on an object that holds a unit
    keeps the reference on that unit, whatever path it takes and also
    when it throws; it builds no unit, and the world has the same unit
    objects afterwards as before. *)
Theorem tick_holds_its_unit (t : Z) (e : NukeExecution PF) (w : World)
    (u : UnitID) :
  nuke e = Some u ->
  nuke (thisOf (tick (Rng := Rng) t e w)) = Some u
  /\ map unit_id (worldUnits (worldOf (tick (Rng := Rng) t e w)))
     = map unit_id (worldUnits w)
  /\ filter isBuildUnit (outOf (tick (Rng := Rng) t e w)) = [].
Proof.
  revert e w. change (holdsUnit u (tick (PF := PF) (Rng := Rng) t)).
  pose proof (holdsUnit_detonate u).
  pose proof (holdsUnit_updateNukeTargetable u).
  unfold tick. apply holdsUnit_getThis_bind. intros this Hn. rewrite Hn.
  unfold derefPathFinder. holds;
    apply holdsUnit_call; apply keepsUnits_updateUnit; reflexivity.
Qed.

(** *** The flight *)

(** X7.  A tick in flight, with no delay left and the target not yet
    reached, moves the unit to the planner's next tile and records the
    planner's index on it; the targetable flag is computed before the
    move, from the tile that the unit is leaving.  The unit stays
    active, the execution stays as active as it was, and the calls are
    the targetable update (for a unit with a target tile), the move and
    the index update, in this order. *)
Theorem tick_moves_unit (t : Z) (e : NukeExecution PF) (w : World)
    (u : UnitID) (x : Unit) (pf pf' : PF) (next : TileRef) :
  nuke e = Some u ->
  findUnit w u = Some x ->
  unit_active x = true ->
  (waitTicks e <= 0)%Z ->
  mg e = true ->
  pathFinder e = Some pf ->
  nextTile pf (speed e) = (Next next, pf') ->
  let e1 := set_pathFinder (Some pf') e in
  let flag :=
    match unit_targetTile x with
    | Some targetTile =>
        isTargetable e1 targetTile (unit_tile x)
          (defaultNukeTargetableRange ^ 2)%Z
    | None => unit_targetable x
    end in
  exists w',
    tick (Rng := Rng) t e w
    = Ok tt e1 w'
        ((match unit_targetTile x with
          | Some _ => [SetTargetable u flag]
          | None => []
          end)
         ++ [UnitMove u next; SetTrajectoryIndex u (currentIndex pf')])
    /\ findUnit w' u
       = Some (unit_set_trajectoryIndex (currentIndex pf')
                 (unit_set_tile next (unit_set_targetable flag x)))
    /\ isActive e1 = isActive e
    /\ (tileOwners w', playerTroops w', attacks w', fallout w',
        allianceRequests w', alliances w', ticks w')
       = (tileOwners w, playerTroops w, attacks w, fallout w,
          allianceRequests w, alliances w, ticks w).
Proof.
  intros Hn Hx Ha Hw Hm Hp Hnt e1 flag.
  assert (Hu : unitIsActive w u = true).
  { unfold unitIsActive. rewrite Hx. exact Ha. }
  pose proof (tick_moves t e w u pf pf' next Hn Hu Hw Hm Hp Hnt) as Ht.
  cbv zeta in Ht. fold e1 in Ht.
  assert (Hn1 : nuke e1 = Some u) by exact Hn.
  eexists. split; [|split; [|split]].
  - rewrite Ht. rewrite !andThen_snd. unfold retarget.
    rewrite ?Hn1, Hx.
    destruct (unit_targetTile x); reflexivity.
  - rewrite !andThen_fst. unfold unitSetTrajectoryIndex, unitMove.
    cbn [fst]. rewrite !findUnit_updateUnit by reflexivity.
    unfold retarget. rewrite ?Hn1, Hx.
    unfold flag. destruct (unit_targetTile x) as [tt'|].
    + unfold unitSetTargetable. cbn [fst].
      rewrite findUnit_updateUnit by reflexivity. rewrite Hx. reflexivity.
    + cbn [skip fst]. rewrite Hx. destruct x. reflexivity.
  - reflexivity.
  - rewrite !andThen_fst. unfold retarget.
    rewrite ?Hn1, Hx.
    destruct (unit_targetTile x); reflexivity.
Qed.

(** *** The blast: tiles *)

Lemma map_get_filter_key {V} (g : nat -> bool) (k : nat)
    (l : list (nat * V)) :
  map_get k (filter (fun en => g (fst en)) l)
  = if g k then map_get k l else None.
Proof.
  induction l as [|[j v] l IH]; simpl; [destruct (g k); reflexivity|].
  destruct (g j) eqn:Ej; simpl.
  - destruct (Nat.eqb k j) eqn:E.
    + apply Nat.eqb_eq in E. subst j. rewrite Ej. reflexivity.
    + exact IH.
  - destruct (Nat.eqb k j) eqn:E; [|exact IH].
    apply Nat.eqb_eq in E. subst j. rewrite Ej in *. exact IH.
Qed.

Lemma filter_key_absent {V} (k : nat) (l : list (nat * V)) :
  map_get k l = None ->
  filter (fun en => negb (Nat.eqb (fst en) k)) l = l.
Proof.
  induction l as [|[j v] l IH]; simpl; [reflexivity|].
  rewrite (Nat.eqb_sym j k).
  destruct (Nat.eqb k j); [discriminate|]. intros H. simpl.
  rewrite IH by exact H. reflexivity.
Qed.

Lemma unitsOnly_refl (w : World) : unitsOnly w w.
Proof. repeat split. Qed.

Lemma attritTransports_unitsOnly (ty : NukeType) (mx : Z) (p : PlayerID)
    (w : World) :
  unitsOnly w (fst (attritTransports ty mx p w)).
Proof.
  unfold attritTransports.
  apply (forEach_keeps (unitsOnly w) (fun _ => True)).
  - intros x w1 H1. split; [exact H1|]. repeat constructor.
  - apply unitsOnly_refl.
Qed.

(** What the body of the loop over the destroyed tiles does to the tile
    owners and to the fallout. *)
Lemma destroyTile_board (ty : NukeType) (mx : Z) (tile : TileRef) (w : World) :
  tileOwners (fst (destroyTile ty mx tile w))
  = filter (fun en => negb (Nat.eqb (fst en) tile)) (tileOwners w)
  /\ fallout (fst (destroyTile ty mx tile w))
     = if isLand tile
       then if mem tile (fallout w) then fallout w else fallout w ++ [tile]
       else fallout w.
Proof.
  unfold destroyTile. rewrite andThen_fst.
  assert (H : tileOwners
                (fst (match owner w tile with
                      | OwnerPlayer p =>
                          andThen (relinquish p tile)
                            (andThen
                               (fun w' =>
                                  removeTroops p
                                    (nukeDeathFactor ty (troops w' p)
                                       (numTilesOwned w' p) mx) w')
                               (andThen (attritAttacks ty mx p)
                                  (attritTransports ty mx p))) w
                      | TerraNullius => skip w
                      end))
              = filter (fun en => negb (Nat.eqb (fst en) tile)) (tileOwners w)
              /\ fallout
                   (fst (match owner w tile with
                         | OwnerPlayer p =>
                             andThen (relinquish p tile)
                               (andThen
                                  (fun w' =>
                                     removeTroops p
                                       (nukeDeathFactor ty (troops w' p)
                                          (numTilesOwned w' p) mx) w')
                                  (andThen (attritAttacks ty mx p)
                                     (attritTransports ty mx p))) w
                         | TerraNullius => skip w
                         end))
                 = fallout w).
  { unfold owner. destruct (map_get tile (tileOwners w)) as [p|] eqn:Eo.
    - rewrite !andThen_fst.
      match goal with
      | |- context [attritTransports ty mx p ?w3] =>
          destruct (attritTransports_unitsOnly ty mx p w3)
            as (T1 & _ & _ & T4 & _)
      end.
      rewrite T1, T4. split; reflexivity.
    - cbn [skip fst]. rewrite (filter_key_absent tile _ Eo).
      split; reflexivity. }
  destruct H as [H1 H2].
  destruct (isLand tile).
  - unfold setFallout. cbn [fst tileOwners fallout set_fallout].
    rewrite H1, H2. split; reflexivity.
  - cbn [skip fst]. rewrite H1, H2. split; reflexivity.
Qed.

Lemma filter_filter_keys {V} (t : nat) (ts : list nat) (l : list (nat * V)) :
  filter (fun en => negb (mem (fst en) ts))
    (filter (fun en => negb (Nat.eqb (fst en) t)) l)
  = filter (fun en => negb (mem (fst en) (t :: ts))) l.
Proof.
  induction l as [|[j v] l IH]; simpl; [reflexivity|].
  destruct (Nat.eqb j t) eqn:E; simpl.
  - exact IH.
  - destruct (mem j ts); simpl; [exact IH|]. rewrite IH. reflexivity.
Qed.

(** The loop over the destroyed tiles leaves exactly the other tiles
    owned, and marks the land among the destroyed tiles. *)
Lemma destroyTiles_board (ty : NukeType) (mx : Z) (tiles : list TileRef) :
  forall w,
    let w' := fst (forEach tiles (destroyTile ty mx) w) in
    tileOwners w'
    = filter (fun en => negb (mem (fst en) tiles)) (tileOwners w)
    /\ incl (fallout w) (fallout w')
    /\ (forall t, In t tiles -> isLand t = true -> In t (fallout w'))
    /\ (forall t, In t (fallout w') ->
          In t (fallout w) \/ (In t tiles /\ isLand t = true)).
Proof.
  induction tiles as [|t ts IH]; intros w; cbv zeta.
  - cbn [forEach skip fst]. repeat split.
    + induction (tileOwners w) as [|en l IHl]; simpl in *; [reflexivity|].
      f_equal. exact IHl.
    + apply incl_refl.
    + contradiction.
    + auto.
  - cbn [forEach]. rewrite andThen_fst.
    destruct (destroyTile_board ty mx t w) as [D1 D2].
    set (w1 := fst (destroyTile ty mx t w)) in *.
    destruct (IH w1) as (I1 & I2 & I3 & I4). cbv zeta in *.
    assert (Hinc : incl (fallout w) (fallout w1)).
    { rewrite D2. destruct (isLand t); [|apply incl_refl].
      destruct (mem t (fallout w)); [apply incl_refl|].
      apply incl_appl, incl_refl. }
    assert (Hland : isLand t = true -> In t (fallout w1)).
    { intros Hl. rewrite D2, Hl. destruct (mem t (fallout w)) eqn:Em.
      - apply mem_In. exact Em.
      - apply in_or_app. right. left. reflexivity. }
    assert (Hback : forall t', In t' (fallout w1) ->
               In t' (fallout w) \/ (t' = t /\ isLand t = true)).
    { intros t' Ht'. rewrite D2 in Ht'. destruct (isLand t); [|auto].
      destruct (mem t (fallout w)); [auto|].
      apply in_app_or in Ht'. destruct Ht' as [H|[H|[]]]; auto. }
    repeat split.
    + rewrite I1, D1. apply filter_filter_keys.
    + eapply incl_tran; eassumption.
    + intros t' [<-|Ht'] Hl; [apply I2, Hland, Hl|apply I3; assumption].
    + intros t' Ht'. destruct (I4 t' Ht') as [H|[H1 H2]].
      * destruct (Hback t' H) as [H0|[-> H0]]; [auto|].
        right. split; [left; reflexivity|exact H0].
      * right. split; [right; exact H1|exact H2].
Qed.

(** *** The blast: units *)

Lemma unitsOnly_trans (w0 w1 w2 : World) :
  unitsOnly w0 w1 -> unitsOnly w1 w2 -> unitsOnly w0 w2.
Proof.
  unfold unitsOnly.
  intros (A1 & A2 & A3 & A4 & A5 & A6 & A7) (B1 & B2 & B3 & B4 & B5 & B6 & B7).
  repeat split; congruence.
Qed.

Lemma updateUnit_unitsOnly (u : UnitID) (f : Unit -> Unit) (w : World) :
  unitsOnly w (updateUnit u f w).
Proof. repeat split. Qed.

Lemma destroyUnits_unitsOnly (a : PlayerID) (d : TileRef) (o2 : Z)
    (w : World) :
  unitsOnly w (fst (destroyUnits a d o2 w)).
Proof.
  unfold destroyUnits.
  apply (forEach_keeps (unitsOnly w) (fun _ => True)).
  - intros x w1 H1. split; [|apply Forall_forall; intros; exact I].
    destruct (negb (isNukeUnitType (unit_type x))
              && Z.ltb (euclideanDistSquared d (unit_tile x)) o2).
    + eapply unitsOnly_trans; [exact H1|apply updateUnit_unitsOnly].
    + exact H1.
  - apply unitsOnly_refl.
Qed.

(** [redrawBuildings] changes nothing of the world. *)
Lemma redrawBuildings_world (d : TileRef) (r : Z) (w : World) :
  fst (redrawBuildings d r w) = w.
Proof.
  unfold redrawBuildings.
  apply (forEach_keeps (fun w' => w' = w) (fun _ => True)).
  - intros x w1 H1. split; [|apply Forall_forall; intros; exact I].
    destruct (isStructureType (unit_type x)
              && Z.ltb (euclideanDistSquared d (unit_tile x)) (r * r));
      exact H1.
  - reflexivity.
Qed.

(** The loop that deletes units, on the list of the units. *)
Lemma deleteLoop_units (c : Unit -> bool) (a : PlayerID) (L : list Unit) :
  forall w,
    worldUnits
      (fst (forEach L
              (fun unit =>
                 if c unit then unitDelete (unit_id unit) true (Some a)
                 else skip) w))
    = map (fun y =>
             if existsb
                  (fun x => c x && Nat.eqb (unit_id y) (unit_id x)) L
             then unit_set_active false y else y) (worldUnits w).
Proof.
  induction L as [|x L IH]; intros w.
  - cbn [forEach skip fst existsb]. symmetry. apply map_id.
  - cbn [forEach]. rewrite andThen_fst, IH.
    destruct (c x) eqn:Ec.
    + cbn [unitDelete fst updateUnit worldUnits set_worldUnits].
      rewrite map_map. apply map_ext. intros y.
      cbn [existsb]. rewrite Ec. cbn [andb].
      destruct (Nat.eqb (unit_id y) (unit_id x)) eqn:E.
      * cbn [orb unit_set_active unit_id].
        destruct (existsb _ L); reflexivity.
      * cbn [orb]. reflexivity.
    + cbn [skip fst]. apply map_ext. intros y.
      cbn [existsb]. rewrite Ec. reflexivity.
Qed.

Lemma NoDup_map_inj {A B} (f : A -> B) (l : list A) (x y : A) :
  NoDup (map f l) -> In x l -> In y l -> f x = f y -> x = y.
Proof.
  induction l as [|z l IH]; simpl; intros Hnd Hx Hy E; [contradiction|].
  inversion Hnd as [|? ? Hz Hl]; subst.
  destruct Hx as [->|Hx], Hy as [->|Hy].
  - reflexivity.
  - exfalso. apply Hz. rewrite E. apply in_map. exact Hy.
  - exfalso. apply Hz. rewrite <- E. apply in_map. exact Hx.
  - apply IH; assumption.
Qed.

(** With distinct ids, the collateral loop deactivates exactly the active
    units that pass its test. *)
Lemma destroyUnits_units (a : PlayerID) (d : TileRef) (o2 : Z) (w : World) :
  NoDup (map unit_id (worldUnits w)) ->
  worldUnits (fst (destroyUnits a d o2 w))
  = map (fun y =>
           if unit_active y && collateral d o2 y
           then unit_set_active false y else y) (worldUnits w).
Proof.
  intros Hnd. unfold destroyUnits.
  etransitivity;
    [exact (deleteLoop_units (collateral d o2) a (units w) w)|].
  apply map_ext_in. intros y Hy.
  assert (E : existsb
                (fun x => collateral d o2 x
                          && Nat.eqb (unit_id y) (unit_id x)) (units w)
              = unit_active y && collateral d o2 y).
  { apply Bool.eq_iff_eq_true. rewrite existsb_exists. split.
    - intros (x & Hx & Hc). unfold units in Hx.
      apply filter_In in Hx. destruct Hx as [Hx Hax].
      apply andb_prop in Hc. destruct Hc as [Hc Hid].
      apply Nat.eqb_eq in Hid.
      assert (x = y).
      { apply (NoDup_map_inj unit_id (worldUnits w)); auto. }
      subst x. rewrite Hax, Hc. reflexivity.
    - intros H. apply andb_prop in H. destruct H as [Ha Hc].
      exists y. split.
      + unfold units. apply filter_In. split; assumption.
      + rewrite Hc, Nat.eqb_refl. reflexivity. }
  rewrite E. reflexivity.
Qed.

Lemma sameButTroops_refl (x : Unit) : sameButTroops x x.
Proof. repeat split. Qed.

Lemma Forall2_same {A} (R : A -> A -> Prop) (l : list A) :
  (forall x, R x x) -> Forall2 R l l.
Proof. intros H. induction l; constructor; auto. Qed.

Lemma Forall2_map_right {A} (R R' : A -> A -> Prop) (k : A -> A)
    (l l1 : list A) :
  (forall x y, R x y -> R' x (k y)) ->
  Forall2 R l l1 -> Forall2 R' l (map k l1).
Proof.
  intros Hk H. induction H; simpl; constructor; auto.
Qed.

Lemma Forall2_ids (R : Unit -> Unit -> Prop) (l l' : list Unit) :
  (forall x y, R x y -> unit_id y = unit_id x) ->
  Forall2 R l l' -> map unit_id l' = map unit_id l.
Proof.
  intros Hid H. induction H; simpl; [reflexivity|].
  rewrite IHForall2, (Hid _ _ H). reflexivity.
Qed.

Lemma Forall2_find (R : Unit -> Unit -> Prop) (v : UnitID)
    (l l' : list Unit) (x : Unit) :
  (forall x y, R x y -> unit_id y = unit_id x) ->
  Forall2 R l l' ->
  find (fun y => Nat.eqb (unit_id y) v) l = Some x ->
  exists x', find (fun y => Nat.eqb (unit_id y) v) l' = Some x' /\ R x x'.
Proof.
  intros Hid H. induction H as [|a b l l' Hab H IH]; simpl; [discriminate|].
  rewrite (Hid _ _ Hab).
  destruct (Nat.eqb (unit_id a) v).
  - intros E. injection E as <-. exists b. split; [reflexivity|exact Hab].
  - exact IH.
Qed.

(** The loop over the destroyed tiles changes the troops aboard units,
    and nothing else of them. *)
Lemma destroyTiles_units (ty : NukeType) (mx : Z) (tiles : list TileRef)
    (w : World) :
  Forall2 sameButTroops (worldUnits w)
    (worldUnits (fst (forEach tiles (destroyTile ty mx) w))).
Proof.
  apply (forEach_keeps
           (fun w' => Forall2 sameButTroops (worldUnits w) (worldUnits w'))
           (fun _ => True)).
  - intros t w1 H1. split; [|apply Forall_forall; intros; exact I].
    unfold destroyTile. rewrite andThen_fst.
    assert (H2 : Forall2 sameButTroops (worldUnits w)
                   (worldUnits
                      (fst (match owner w1 t with
                            | OwnerPlayer p =>
                                andThen (relinquish p t)
                                  (andThen
                                     (fun w' =>
                                        removeTroops p
                                          (nukeDeathFactor ty (troops w' p)
                                             (numTilesOwned w' p) mx) w')
                                     (andThen (attritAttacks ty mx p)
                                        (attritTransports ty mx p))) w1
                            | TerraNullius => skip w1
                            end)))).
    { destruct (owner w1 t) as [|p]; [exact H1|].
      rewrite !andThen_fst. unfold attritTransports.
      apply (forEach_keeps
               (fun w' => Forall2 sameButTroops (worldUnits w)
                            (worldUnits w'))
               (fun _ => True)).
      - intros s w2 H2. split; [|apply Forall_forall; intros; exact I].
        cbn [unitSetTroops fst updateUnit worldUnits set_worldUnits].
        apply Forall2_map_right with (R := sameButTroops); [|exact H2].
        intros x y Hxy. destruct (Nat.eqb (unit_id y) (unit_id s));
          [|exact Hxy].
        exact Hxy.
      - exact H1. }
    destruct (isLand t); exact H2.
  - apply Forall2_same. apply sameButTroops_refl.
Qed.

(** The whole blast, unit by unit. *)
Lemma blast_units (e : NukeExecution PF) (u : UnitID) (w0 w : World)
    (tiles : list TileRef) :
  NoDup (map unit_id (worldUnits w)) ->
  let o := outer (nukeMagnitudes (unitTypeOf w0 u)) in
  Forall2 (afterBlast u (dst e) (o * o)) (worldUnits w)
    (worldUnits (fst (blast e u w0 tiles w))).
Proof.
  intros Hnd o. unfold blast. fold o.
  rewrite !andThen_fst.
  set (w1 := fst (forEach tiles
                    (destroyTile (nukeType e) (blastMaxTroops e w0)) w)).
  assert (H1 : Forall2 sameButTroops (worldUnits w) (worldUnits w1))
    by apply destroyTiles_units.
  assert (Hnd1 : NoDup (map unit_id (worldUnits w1))).
  { rewrite (Forall2_ids sameButTroops _ _ (fun x y H => proj1 H) H1).
    exact Hnd. }
  rewrite redrawBuildings_world.
  cbn [unitSetReachedTarget unitDelete fst updateUnit worldUnits
       set_worldUnits].
  rewrite (destroyUnits_units (player e) (dst e) (o * o) w1 Hnd1).
  rewrite !map_map.
  apply Forall2_map_right with (R := sameButTroops); [|exact H1].
  intros x y (Hi & Ht & Ho & Hl & Ha).
  assert (Hc : collateral (dst e) (o * o) y = collateral (dst e) (o * o) x).
  { unfold collateral. rewrite Ht, Hl. reflexivity. }
  rewrite Hc, Ha. unfold afterBlast.
  destruct (unit_active x) eqn:Eax, (collateral (dst e) (o * o) x) eqn:Ecx;
    cbn [andb negb unit_set_active unit_id];
    rewrite ?Hi; destruct (Nat.eqb (unit_id x) u) eqn:Eu;
    cbn [unit_set_reachedTarget unit_id unit_set_active];
    rewrite ?Hi, ?Eu;
    cbn [unit_set_reachedTarget unit_set_active unit_id unit_type unit_owner
         unit_tile unit_active andb negb];
    repeat split; auto.
Qed.

(** *** The blast: the players who own none of the destroyed tiles *)

Lemma attritAttacks_others (ty : NukeType) (mx : Z) (p q : PlayerID)
    (w : World) :
  p <> q ->
  attacksOf (fst (attritAttacks ty mx p w)) q = attacksOf w q.
Proof.
  intros Hpq. unfold attacksOf, attritAttacks.
  cbn [fst attacks set_attacks].
  induction (attacks w) as [|a l IH]; simpl; [reflexivity|].
  destruct (Nat.eqb (attack_owner a) p) eqn:Ep; simpl.
  - apply Nat.eqb_eq in Ep.
    assert (E1 : Nat.eqb p q = false) by (apply Nat.eqb_neq; exact Hpq).
    assert (E2 : Nat.eqb (attack_owner a) q = false)
      by (rewrite Ep; exact E1).
    rewrite E1, E2. exact IH.
  - destruct (Nat.eqb (attack_owner a) q); [f_equal|]; exact IH.
Qed.

Lemma destroyTile_bystander (ty : NukeType) (mx : Z) (t : TileRef)
    (q : PlayerID) (w : World) :
  owner w t <> OwnerPlayer q ->
  troops (fst (destroyTile ty mx t w)) q = troops w q
  /\ attacksOf (fst (destroyTile ty mx t w)) q = attacksOf w q.
Proof.
  intros Ho. unfold destroyTile. rewrite andThen_fst.
  assert (H : forall w1 : World,
             troops (fst ((if isLand t then setFallout t else skip) w1)) q
             = troops w1 q
             /\ attacksOf (fst ((if isLand t then setFallout t else skip) w1))
                  q
                = attacksOf w1 q).
  { intros w1. destruct (isLand t); split; reflexivity. }
  match goal with
  | |- troops (fst (_ ?w1)) q = _ /\ _ =>
      destruct (H w1) as [H1 H2]; rewrite H1, H2
  end.
  clear H H1 H2. destruct (owner w t) as [|p] eqn:Eo; [split; reflexivity|].
  assert (Hpq : p <> q) by (intros ->; apply Ho; reflexivity).
  rewrite !andThen_fst.
  match goal with
  | |- context [attritTransports ty mx p ?w3] =>
      destruct (attritTransports_unitsOnly ty mx p w3)
        as (_ & T2 & T3 & _)
  end.
  split.
  - unfold troops at 1. rewrite T2.
    cbn [attritAttacks fst playerTroops set_attacks removeTroops
         set_playerTroops relinquish set_tileOwners].
    rewrite map_get_set.
    assert (E : Nat.eqb q p = false)
      by (apply Nat.eqb_neq; congruence).
    rewrite E. reflexivity.
  - unfold attacksOf at 1. rewrite T3.
    etransitivity; [exact (attritAttacks_others ty mx p q _ Hpq)|].
    reflexivity.
Qed.

Lemma destroyTiles_bystander (ty : NukeType) (mx : Z) (q : PlayerID)
    (tiles : list TileRef) :
  forall w,
    (forall t, In t tiles -> owner w t <> OwnerPlayer q) ->
    troops (fst (forEach tiles (destroyTile ty mx) w)) q = troops w q
    /\ attacksOf (fst (forEach tiles (destroyTile ty mx) w)) q
       = attacksOf w q.
Proof.
  induction tiles as [|t ts IH]; intros w Ho; [split; reflexivity|].
  cbn [forEach]. rewrite andThen_fst.
  destruct (destroyTile_bystander ty mx t q w (Ho t (or_introl eq_refl)))
    as [H1 H2].
  destruct (destroyTile_board ty mx t w) as [D1 _].
  set (w1 := fst (destroyTile ty mx t w)) in *.
  destruct (IH w1) as [I1 I2].
  - intros t' Ht'. unfold owner. rewrite D1.
    rewrite (map_get_filter_key (fun k => negb (Nat.eqb k t))).
    destruct (negb (Nat.eqb t' t)); [|discriminate].
    apply (Ho t' (or_intror Ht')).
  - rewrite I1, I2. split; assumption.
Qed.

Lemma destroyTiles_frame (ty : NukeType) (mx : Z) (tiles : list TileRef)
    (w : World) :
  allianceRequests (fst (forEach tiles (destroyTile ty mx) w))
  = allianceRequests w
  /\ alliances (fst (forEach tiles (destroyTile ty mx) w)) = alliances w
  /\ ticks (fst (forEach tiles (destroyTile ty mx) w)) = ticks w.
Proof.
  apply (forEach_keeps
           (fun w1 => allianceRequests w1 = allianceRequests w
                      /\ alliances w1 = alliances w
                      /\ ticks w1 = ticks w)
           (fun _ => True)); [|repeat split].
  intros t w1 (H1 & H2 & H3).
  split; [|apply Forall_forall; intros; exact I].
  unfold destroyTile. rewrite andThen_fst.
  assert (H : forall w2 : World,
             allianceRequests
               (fst ((if isLand t then setFallout t else skip) w2))
             = allianceRequests w2
             /\ alliances (fst ((if isLand t then setFallout t else skip) w2))
                = alliances w2
             /\ ticks (fst ((if isLand t then setFallout t else skip) w2))
                = ticks w2).
  { intros w2. destruct (isLand t); repeat split. }
  match goal with
  | |- allianceRequests (fst (_ ?w2)) = _ /\ _ =>
      destruct (H w2) as (A1 & A2 & A3); rewrite A1, A2, A3
  end.
  clear H A1 A2 A3. destruct (owner w1 t) as [|p]; [repeat split; assumption|].
  rewrite !andThen_fst.
  match goal with
  | |- context [attritTransports ty mx p ?w3] =>
      destruct (attritTransports_unitsOnly ty mx p w3)
        as (_ & _ & _ & _ & T5 & T6 & T7)
  end.
  rewrite T5, T6, T7. repeat split; assumption.
Qed.

(** The rest of the blast changes units only. *)
Lemma blast_tail_unitsOnly (e : NukeExecution PF) (u : UnitID) (o : Z)
    (w : World) :
  unitsOnly w
    (fst (andThen (destroyUnits (player e) (dst e) (o * o))
            (andThen (redrawBuildings (dst e) (o + SPRITE_RADIUS))
               (andThen (unitSetReachedTarget u)
                  (unitDelete u false None))) w)).
Proof.
  rewrite !andThen_fst, redrawBuildings_world.
  eapply unitsOnly_trans; [apply destroyUnits_unitsOnly|].
  eapply unitsOnly_trans; apply updateUnit_unitsOnly.
Qed.

(** The world of the tick that reaches the target. *)
Lemma tick_arrives_world (t : Z) (e : NukeExecution PF) (w : World)
    (u : UnitID) (pf pf' : PF) :
  nuke e = Some u ->
  unitIsActive w u = true ->
  (waitTicks e <= 0)%Z ->
  mg e = true ->
  pathFinder e = Some pf ->
  nextTile pf (speed e) = (Arrived, pf') ->
  let e1 := set_pathFinder (Some pf') e in
  let tiles := destroyedTiles e1 u w in
  let w1 := fst (forEach tiles
                   (destroyTile (nukeType e) (blastMaxTroops e1 w)) w) in
  worldOf (tick (Rng := Rng) t e w) = fst (blast e1 u w tiles w)
  /\ unitsOnly w1 (worldOf (tick (Rng := Rng) t e w)).
Proof.
  intros Hn Hu Hw Hm Hp Hnt e1 tiles w1.
  rewrite (tick_arrives t e w u pf pf' Hn Hu Hw Hm Hp Hnt).
  cbn [worldOf]. fold e1. fold tiles. split; [reflexivity|].
  unfold blast. rewrite andThen_fst.
  apply (blast_tail_unitsOnly e1 u).
Qed.

(** X8.  The tick on which the path finder reports the arrival leaves
    owned exactly the tiles outside the destroyed set: every destroyed
    tile is unowned afterwards, and every other tile has the owner it
    had. *)
Theorem detonation_clears_ownership (t : Z) (e : NukeExecution PF)
    (w : World) (u : UnitID) (pf pf' : PF) :
  nuke e = Some u ->
  unitIsActive w u = true ->
  (waitTicks e <= 0)%Z ->
  mg e = true ->
  pathFinder e = Some pf ->
  nextTile pf (speed e) = (Arrived, pf') ->
  let tiles := destroyedTiles (set_pathFinder (Some pf') e) u w in
  let w' := worldOf (tick (Rng := Rng) t e w) in
  tileOwners w'
  = filter (fun en => negb (mem (fst en) tiles)) (tileOwners w)
  /\ (forall tile, In tile tiles -> owner w' tile = TerraNullius)
  /\ (forall tile, ~ In tile tiles -> owner w' tile = owner w tile).
Proof.
  intros Hn Hu Hw Hm Hp Hnt tiles w'.
  destruct (tick_arrives_world t e w u pf pf' Hn Hu Hw Hm Hp Hnt)
    as [_ (U1 & _)].
  cbv zeta in U1. fold tiles in U1. fold w' in U1.
  destruct (destroyTiles_board (nukeType e)
              (blastMaxTroops (set_pathFinder (Some pf') e) w) tiles w)
    as (B1 & _).
  cbv zeta in B1.
  assert (E : tileOwners w'
              = filter (fun en => negb (mem (fst en) tiles)) (tileOwners w)).
  { etransitivity; [exact U1|exact B1]. }
  split; [exact E|].
  split; intros tile Hin; unfold owner; rewrite E;
    rewrite (map_get_filter_key (fun k => negb (mem k tiles))).
  - assert (Em : mem tile tiles = true) by (apply mem_In; exact Hin).
    rewrite Em. reflexivity.
  - assert (Em : mem tile tiles = false).
    { destruct (mem tile tiles) eqn:Em; [|reflexivity].
      exfalso. apply Hin. apply mem_In. exact Em. }
    rewrite Em. reflexivity.
Qed.

(** X9.  The same tick marks with fallout every destroyed tile that is
    land, keeps the fallout there was, and marks no other tile. *)
Theorem detonation_fallout (t : Z) (e : NukeExecution PF)
    (w : World) (u : UnitID) (pf pf' : PF) :
  nuke e = Some u ->
  unitIsActive w u = true ->
  (waitTicks e <= 0)%Z ->
  mg e = true ->
  pathFinder e = Some pf ->
  nextTile pf (speed e) = (Arrived, pf') ->
  let tiles := destroyedTiles (set_pathFinder (Some pf') e) u w in
  let w' := worldOf (tick (Rng := Rng) t e w) in
  (forall tile, In tile (fallout w) -> In tile (fallout w'))
  /\ (forall tile, In tile tiles -> isLand tile = true ->
        In tile (fallout w'))
  /\ (forall tile, In tile (fallout w') ->
        In tile (fallout w) \/ (In tile tiles /\ isLand tile = true)).
Proof.
  intros Hn Hu Hw Hm Hp Hnt tiles w'.
  destruct (tick_arrives_world t e w u pf pf' Hn Hu Hw Hm Hp Hnt)
    as [_ (_ & _ & _ & U4 & _)].
  cbv zeta in U4. fold tiles in U4. fold w' in U4.
  destruct (destroyTiles_board (nukeType e)
              (blastMaxTroops (set_pathFinder (Some pf') e) w) tiles w)
    as (_ & B2 & B3 & B4).
  cbv zeta in B2, B3, B4. rewrite U4.
  split; [exact B2|]. split; assumption.
Qed.

(** X10.  With distinct unit ids, the same tick keeps every unit in
    place with its type, owner and tile, and leaves a unit active
    exactly when it was active, is not the weapon itself, and is not
    collateral: of a type other than the four weapon types and at a
    squared distance from the destination strictly below the squared
    outer radius. *)
Theorem detonation_units (t : Z) (e : NukeExecution PF)
    (w : World) (u : UnitID) (pf pf' : PF) (v : UnitID) (x : Unit) :
  nuke e = Some u ->
  unitIsActive w u = true ->
  (waitTicks e <= 0)%Z ->
  mg e = true ->
  pathFinder e = Some pf ->
  nextTile pf (speed e) = (Arrived, pf') ->
  NoDup (map unit_id (worldUnits w)) ->
  findUnit w v = Some x ->
  let o := outer (nukeMagnitudes (unitTypeOf w u)) in
  let w' := worldOf (tick (Rng := Rng) t e w) in
  map unit_id (worldUnits w') = map unit_id (worldUnits w)
  /\ exists x',
       findUnit w' v = Some x'
       /\ unit_type x' = unit_type x
       /\ unit_owner x' = unit_owner x
       /\ unit_tile x' = unit_tile x
       /\ unit_active x'
          = unit_active x
            && negb (negb (isNukeUnitType (unit_type x))
                     && Z.ltb (euclideanDistSquared (dst e) (unit_tile x))
                          (o * o))
            && negb (Nat.eqb v u).
Proof.
  intros Hn Hu Hw Hm Hp Hnt Hnd Hx o w'.
  destruct (tick_arrives_world t e w u pf pf' Hn Hu Hw Hm Hp Hnt)
    as [E _].
  cbv zeta in E. fold w' in E.
  pose proof (blast_units (set_pathFinder (Some pf') e) u w w
                (destroyedTiles (set_pathFinder (Some pf') e) u w) Hnd)
    as F.
  cbv zeta in F. rewrite <- E in F. fold o in F.
  cbn [dst set_pathFinder] in F.
  assert (Hid : forall a b : Unit,
             afterBlast u (dst e) (o * o) a b -> unit_id b = unit_id a).
  { intros a b H. exact (proj1 H). }
  split; [exact (Forall2_ids _ _ _ Hid F)|].
  destruct (Forall2_find _ v _ _ x Hid F Hx)
    as (x' & Hx' & _ & Ht & Ho & Hl & Ha).
  exists x'. split; [exact Hx'|]. repeat split; try assumption.
  rewrite Ha. unfold collateral.
  assert (Ev : unit_id x = v).
  { unfold findUnit in Hx. apply find_some in Hx.
    apply Nat.eqb_eq. exact (proj2 Hx). }
  rewrite Ev. reflexivity.
Qed.

(** X11.  The same tick ends the strike: the execution is inactive and
    still holds its unit, the set of destroyed tiles is cached, the unit
    is inactive, the last call is the landing statistic with the owner
    the destination had before the blast, ticks and diplomacy are as
    they were; and a further tick changes nothing any more. *)
Theorem detonation_is_final (t : Z) (e : NukeExecution PF)
    (w : World) (u : UnitID) (pf pf' : PF) :
  nuke e = Some u ->
  unitIsActive w u = true ->
  (waitTicks e <= 0)%Z ->
  mg e = true ->
  pathFinder e = Some pf ->
  nextTile pf (speed e) = (Arrived, pf') ->
  let tiles := destroyedTiles (set_pathFinder (Some pf') e) u w in
  exists e' w' calls,
    tick (Rng := Rng) t e w
    = Ok tt e' w'
        (calls ++ [BombLand (player e) (owner w (dst e)) (unitTypeOf w u)])
    /\ isActive e' = false
    /\ nuke e' = Some u
    /\ tilesToDestroyCache e' = Some tiles
    /\ unitIsActive w' u = false
    /\ ticks w' = ticks w
    /\ allianceRequests w' = allianceRequests w
    /\ alliances w' = alliances w
    /\ forall t' : Z, tick (Rng := Rng) t' e' w' = Ok tt e' w' [intercepted].
Proof.
  intros Hn Hu Hw Hm Hp Hnt tiles.
  pose proof (tick_arrives t e w u pf pf' Hn Hu Hw Hm Hp Hnt) as E.
  cbv zeta in E.
  destruct (tick_arrives_world t e w u pf pf' Hn Hu Hw Hm Hp Hnt)
    as [_ U].
  cbv zeta in U. rewrite E in U. cbn [worldOf] in U.
  destruct U as (_ & _ & _ & _ & U5 & U6 & U7).
  set (e1 := set_pathFinder (Some pf') e) in *.
  destruct (destroyTiles_frame (nukeType e) (blastMaxTroops e1 w) tiles w)
    as (K1 & K2 & K3).
  assert (Hn' : nuke (detonated e1 u w) = Some u).
  { unfold detonated. destruct (tilesToDestroyCache e1); exact Hn. }
  assert (Hu' : unitIsActive (fst (blast e1 u w tiles w)) u = false).
  { unfold blast. rewrite !andThen_fst. apply unitDelete_inactive. }
  do 3 eexists. split; [exact E|].
  split; [reflexivity|]. split; [exact Hn'|].
  split.
  { unfold detonated, tiles, destroyedTiles.
    destruct (tilesToDestroyCache e1) as [c|] eqn:Ec.
    - cbn [tilesToDestroyCache set_active]. exact Ec.
    - reflexivity. }
  split; [exact Hu'|].
  split; [etransitivity; [exact U7|exact K3]|].
  split; [etransitivity; [exact U5|exact K1]|].
  split; [etransitivity; [exact U6|exact K2]|].
  intros t'.
  etransitivity;
    [exact (tick_intercepted t' (detonated e1 u w) _ u Hn' Hu')|].
  unfold detonated. destruct (tilesToDestroyCache e1); reflexivity.
Qed.

(** X12.  A player who owns none of the destroyed tiles loses nothing
    on the tick of the detonation: the player's troops and outgoing
    attacks are what they were. *)
Theorem detonation_spares_bystanders (t : Z) (e : NukeExecution PF)
    (w : World) (u : UnitID) (pf pf' : PF) (q : PlayerID) :
  nuke e = Some u ->
  unitIsActive w u = true ->
  (waitTicks e <= 0)%Z ->
  mg e = true ->
  pathFinder e = Some pf ->
  nextTile pf (speed e) = (Arrived, pf') ->
  (forall tile,
     In tile (destroyedTiles (set_pathFinder (Some pf') e) u w) ->
     owner w tile <> OwnerPlayer q) ->
  let w' := worldOf (tick (Rng := Rng) t e w) in
  troops w' q = troops w q /\ attacksOf w' q = attacksOf w q.
Proof.
  intros Hn Hu Hw Hm Hp Hnt Hq w'.
  destruct (tick_arrives_world t e w u pf pf' Hn Hu Hw Hm Hp Hnt)
    as [_ (_ & U2 & U3 & _)].
  cbv zeta in U2, U3. fold w' in U2, U3.
  destruct (destroyTiles_bystander (nukeType e)
              (blastMaxTroops (set_pathFinder (Some pf') e) w) q
              (destroyedTiles (set_pathFinder (Some pf') e) u w) w Hq)
    as [B1 B2].
  unfold troops, attacksOf in *. rewrite U2, U3. split; assumption.
Qed.

(** *** The launch: the players it leaves alone *)

Lemma map_get_of_In {V} (k : nat) (v : V) (m : list (nat * V)) :
  NoDup (map fst m) -> In (k, v) m -> map_get k m = Some v.
Proof.
  induction m as [|[j x] m IH]; simpl; intros Hnd Hin; [contradiction|].
  inversion Hnd as [|? ? Hj Hm]; subst.
  destruct Hin as [E|Hin].
  - injection E as -> ->. rewrite Nat.eqb_refl. reflexivity.
  - destruct (Nat.eqb k j) eqn:E.
    + apply Nat.eqb_eq in E. subst j. exfalso. apply Hj.
      apply in_map_iff. exists (k, v). auto.
    + apply IH; assumption.
Qed.

(** The loop over [attacked] leaves alone a player whose entry, if
    there is one, does not exceed the threshold. *)
Lemma breakLoop_spares (a p : PlayerID) (u : UnitID)
    (l : list (PlayerID * Q)) :
  NoDup (map fst l) ->
  Qgt_bool (weightIn l p) nukeAllianceBreakThreshold = false ->
  leavesAlone a p (breakLoop a u l).
Proof.
  intros Hnd Hwt. unfold breakLoop. apply frame_forEach.
  intros [q wt] Hin w. cbn [fst snd].
  destruct (Nat.eq_dec q p) as [->|Hq].
  - unfold weightIn in Hwt. rewrite (map_get_of_In p wt l Hnd Hin) in Hwt.
    rewrite Hwt. cbn [andb]. apply frame_skip.
  - destruct (Qgt_bool wt nukeAllianceBreakThreshold
              && negb (UnitType_eqb (unitTypeOf w u) MIRVWarhead)).
    + apply breakWith_other. exact Hq.
    + apply frame_skip.
Qed.

(** The map [attacked] holds for every player the player's blast
    weight. *)
Lemma attackedWeights_weight (w : World) (d : TileRef) (m : Magnitude)
    (p : PlayerID) :
  NoDup (map fst (circleSearch d (outer m))) ->
  NoDup (map fst (attackedWeights w (weighTiles d m)))
  /\ weightIn (attackedWeights w (weighTiles d m)) p = blastWeight w d m p.
Proof.
  intros Hnd. rewrite (weighTiles_map d m Hnd).
  unfold attackedWeights.
  destruct (attackedWeights_step w p
              (map (fun td => (fst td, weightOf (snd td) (inner m * inner m)))
                 (circleSearch d (outer m))) [])
    as (H1 & H2 & _).
  cbv zeta in H1, H2. split; [apply H2; constructor|].
  etransitivity; [exact H1|].
  unfold weightIn. cbn [map_get].
  apply fold_left_weights.
Qed.

(** X13.  The launch tick makes no diplomacy call that concerns a
    player whose blast weight does not exceed the threshold (a weight
    equal to the threshold included), and none at all for the warhead
    sub-munition: the pending request from the attacker to that player
    and their alliance are afterwards what they were. *)
Theorem launch_spares_the_rest (t : Z) (e : NukeExecution PF) (w : World)
    (pf : PF) (spawn : TileRef) (p : PlayerID) :
  nuke e = None ->
  mg e = true ->
  pathFinder e = Some pf ->
  canBuild w (player e) (nukeType e) (dst e) = Some spawn ->
  let m := nukeMagnitudes (nukeType e) in
  distinct (map fst (circleSearch (dst e) (outer m))) = true ->
  nukeType e = MIRVWarhead
  \/ (blastWeight w (dst e) m p <= nukeAllianceBreakThreshold)%Q ->
  exists e' w' out,
    tick (Rng := Rng) t e w = Ok tt e' w' out
    /\ filter (concerns p) out = []
    /\ findRequest w' (player e) p = findRequest w (player e) p
    /\ allianceWith w' (player e) p = allianceWith w (player e) p.
Proof.
  intros Hn Hm Hp Hc m Hd Hor. unfold m in *. clear m.
  destruct (tick_launch t e w pf spawn Hn Hm Hp Hc)
    as (e' & w1 & siloOut & Ht & _ & _ & _ & Hto & Har & Hal & Hsilo).
  assert (L : findRequest (fst (launchDiplomacy e (freshUnitID w) w1))
                (player e) p
              = findRequest w1 (player e) p
              /\ allianceWith (fst (launchDiplomacy e (freshUnitID w) w1))
                   (player e) p
                 = allianceWith w1 (player e) p
              /\ filter (concerns p)
                   (snd (launchDiplomacy e (freshUnitID w) w1)) = []).
  { unfold launchDiplomacy.
    destruct (NukeType_eqb (nukeType e) MIRVWarhead) eqn:Ew;
      [repeat split|].
    destruct Hor as [Hty|Hle].
    { rewrite Hty in Ew. discriminate. }
    apply distinct_NoDup in Hd.
    destruct (attackedWeights_weight w1 (dst e)
                (nukeMagnitudes (nukeType e)) p Hd) as [Hk Hwt].
    assert (Hq : Qgt_bool
                   (weightIn
                      (attackedWeights w1
                         (weighTiles (dst e) (nukeMagnitudes (nukeType e))))
                      p)
                   nukeAllianceBreakThreshold = false).
    { rewrite Hwt. unfold Qgt_bool.
      assert (Hb : blastWeight w1 (dst e) (nukeMagnitudes (nukeType e)) p
                   = blastWeight w (dst e) (nukeMagnitudes (nukeType e)) p).
      { unfold blastWeight, owner. rewrite Hto. reflexivity. }
      rewrite Hb.
      apply Qle_bool_iff in Hle. rewrite Hle. reflexivity. }
    destruct (breakLoop_spares (player e) p (freshUnitID w) _ Hk Hq w1)
      as (L1 & L2 & L3 & _).
    split; [exact L1|]. split; [exact L2|exact L3]. }
  destruct L as (L1 & L2 & L3).
  do 3 eexists. split; [exact Ht|].
  split.
  - cbn [filter concerns]. rewrite !filter_app, L3.
    rewrite (filter_nothing (concerns p) isSiloLaunch siloOut);
      [|intros [] H; simpl in *; tauto|exact Hsilo].
    assert (Ha : filter (concerns p)
                   (launchAnnouncements (freshUnitID w) e w) = []).
    { unfold launchAnnouncements. destruct (owner w (dst e)); [reflexivity|].
      destruct (nukeType e); reflexivity. }
    rewrite Ha. reflexivity.
  - split.
    + rewrite L1. unfold findRequest. rewrite Har. reflexivity.
    + rewrite L2. unfold allianceWith. rewrite Hal. reflexivity.
Qed.

(** *** [tick] does not read the [active] flag *)

Lemma blind_bind {A B} (m m' : M PF A) (k k' : A -> M PF B) :
  blind m m' -> (forall a, blind (k a) (k' a)) ->
  blind (bind m k) (bind m' k').
Proof.
  intros Hm Hk e e' w S. unfold bind. specialize (Hm e e' w S).
  destruct (m e w) as [a e1 w1 o1|msg e1 w1 o1],
           (m' e' w) as [a' e1' w1' o1'|msg' e1' w1' o1'];
    cbn [forgetActive] in Hm; try discriminate.
  - assert (S1 : sameButActive e1 e1')
      by (unfold sameButActive; congruence).
    assert (Ea : a = a') by congruence.
    assert (Ew : w1 = w1') by congruence.
    assert (Eo : o1 = o1') by congruence.
    subst. specialize (Hk a' e1 e1' w1' S1).
    destruct (k a' e1 w1') as [b e2 w2 o2|m2 e2 w2 o2],
             (k' a' e1' w1') as [b' e2' w2' o2'|m2' e2' w2' o2'];
      cbn [forgetActive] in *; try discriminate; congruence.
  - cbn [forgetActive]. congruence.
Qed.

Lemma blind_getThis_bind {B} (k k' : NukeExecution PF -> M PF B) :
  (forall e e', sameButActive e e' -> blind (k e) (k' e')) ->
  blind (bind (getThis (PF := PF)) k) (bind (getThis (PF := PF)) k').
Proof.
  intros H e e' w S. unfold bind, getThis. specialize (H e e' S e e' w S).
  destruct (k e e w), (k' e' e' w); cbn [forgetActive app] in *;
    try discriminate; exact H.
Qed.

Lemma blind_ret {A} (a : A) : blind (ret (PF := PF) a) (ret (PF := PF) a).
Proof. intros e e' w S. cbn. rewrite S. reflexivity. Qed.

Lemma blind_throw {A} (msg : string) :
  blind (throw (PF := PF) (A := A) msg) (throw (PF := PF) (A := A) msg).
Proof. intros e e' w S. cbn. rewrite S. reflexivity. Qed.

Lemma blind_getWorld : blind (getWorld (PF := PF)) (getWorld (PF := PF)).
Proof. intros e e' w S. cbn. rewrite S. reflexivity. Qed.

Lemma blind_emit (ev : Event) : blind (emit (PF := PF) ev) (emit (PF := PF) ev).
Proof. intros e e' w S. cbn. rewrite S. reflexivity. Qed.

Lemma blind_call (f : Effect) : blind (call (PF := PF) f) (call (PF := PF) f).
Proof.
  intros e e' w S. unfold call. destruct (f w). cbn. rewrite S. reflexivity.
Qed.

Lemma blind_callBuildUnit (p : PlayerID) (ty : NukeType) (s d : TileRef)
    (tr : list TrajectoryTile) :
  blind (callBuildUnit (PF := PF) p ty s d tr)
    (callBuildUnit (PF := PF) p ty s d tr).
Proof.
  intros e e' w S. unfold callBuildUnit.
  destruct (buildUnit p ty s d tr w) as [[u w1] o]. cbn. rewrite S.
  reflexivity.
Qed.

Lemma blind_modifyThis (f : NukeExecution PF -> NukeExecution PF) :
  (forall e e', sameButActive e e' -> sameButActive (f e) (f e')) ->
  blind (modifyThis f) (modifyThis f).
Proof.
  intros Hf e e' w S. cbn. rewrite (Hf e e' S). reflexivity.
Qed.

Ltac same_fields S :=
  unfold sameButActive in S; cbn in S; injection S; intros; subst;
  cbn [active mg nuke tilesToDestroyCache pathFinder nukeType player dst
       src speed waitTicks].

Ltac blindly :=
  repeat first
    [ assumption
    | apply blind_ret
    | apply blind_throw
    | apply blind_getWorld
    | apply blind_emit
    | apply blind_call
    | apply blind_callBuildUnit
    | apply blind_modifyThis;
      let S := fresh "S" in
      intros [] [] S; same_fields S; reflexivity
    | apply blind_getThis_bind;
      let S := fresh "S" in
      intros [] [] S; same_fields S
    | apply blind_bind; [|intro]
    | progress cbv zeta
    | match goal with
      | |- blind (match ?x with _ => _ end) _ => destruct x
      end ].

Lemma blind_derefMg : blind (derefMg (PF := PF)) (derefMg (PF := PF)).
Proof. unfold derefMg. blindly. Qed.

Lemma blind_derefPathFinder :
  blind (derefPathFinder (PF := PF)) (derefPathFinder (PF := PF)).
Proof. unfold derefPathFinder. blindly. Qed.

Lemma blind_tilesToDestroy :
  blind (tilesToDestroy (PF := PF) (Rng := Rng))
    (tilesToDestroy (PF := PF) (Rng := Rng)).
Proof. pose proof blind_derefMg. unfold tilesToDestroy. blindly. Qed.

Lemma blind_detonate :
  blind (detonate (PF := PF) (Rng := Rng))
    (detonate (PF := PF) (Rng := Rng)).
Proof.
  pose proof blind_derefMg. pose proof blind_tilesToDestroy.
  unfold detonate, target. blindly.
Qed.

Lemma blind_updateNukeTargetable :
  blind (updateNukeTargetable (PF := PF)) (updateNukeTargetable (PF := PF)).
Proof.
  pose proof blind_derefMg.
  unfold updateNukeTargetable, isTargetable. blindly.
Qed.

Lemma blind_getTrajectory (d : TileRef) :
  blind (getTrajectory (PF := PF) d) (getTrajectory (PF := PF) d).
Proof.
  pose proof blind_derefMg. pose proof blind_derefPathFinder.
  unfold getTrajectory, isTargetable. blindly.
Qed.

Lemma blind_tilesInRange :
  blind (tilesInRange (PF := PF)) (tilesInRange (PF := PF)).
Proof. pose proof blind_derefMg. unfold tilesInRange. blindly. Qed.

Lemma blind_maybeBreakAlliances (r : list (TileRef * Q)) :
  blind (maybeBreakAlliances (PF := PF) r)
    (maybeBreakAlliances (PF := PF) r).
Proof. pose proof blind_derefMg. unfold maybeBreakAlliances. blindly. Qed.

Lemma blind_announceLaunch (u : UnitID) :
  blind (announceLaunch (PF := PF) u) (announceLaunch (PF := PF) u).
Proof. pose proof blind_derefMg. unfold announceLaunch. blindly. Qed.

Lemma blind_cooldownSilo (s : TileRef) :
  blind (cooldownSilo (PF := PF) s) (cooldownSilo (PF := PF) s).
Proof. unfold cooldownSilo. blindly. Qed.

Lemma blind_tick (t : Z) :
  blind (tick (PF := PF) (Rng := Rng) t) (tick (PF := PF) (Rng := Rng) t).
Proof.
  pose proof blind_derefPathFinder. pose proof blind_detonate.
  pose proof blind_updateNukeTargetable.
  pose proof blind_tilesInRange.
  pose proof blind_maybeBreakAlliances.
  pose proof blind_getTrajectory.
  pose proof blind_announceLaunch.
  pose proof blind_cooldownSilo.
  unfold tick. blindly.
Qed.

(** X14.  [tick] never reads the [active] flag: on an object whose flag
    is set either way it ends the same way (return or the same
    exception), with the same world, the same calls in the same order,
    and the same object up to the flag.  A tick on an execution that is
    already inactive therefore does all that a tick on an active one
    does. *)
Theorem tick_ignores_active (t : Z) (b : bool) (e : NukeExecution PF)
    (w : World) :
  forgetActive (tick (Rng := Rng) t (set_active b e) w)
  = forgetActive (tick (Rng := Rng) t e w).
Proof.
  apply (blind_tick t). unfold sameButActive. reflexivity.
Qed.

(** *** The launch: the silo *)

Lemma siloCalls_after_launch (e : NukeExecution PF) (w : World)
    (spawn s : TileRef) (tr : list TrajectoryTile) :
  let w1 := snd (fst (buildUnit (player e) (nukeType e) spawn (dst e) tr w)) in
  siloCalls (player e) s (fst (launchDiplomacy e (freshUnitID w) w1))
  = siloCalls (player e) s w.
Proof.
  intros w1.
  destruct (launchDiplomacy_keeps e (freshUnitID w) w1) as [(_ & K & _) _].
  unfold siloCalls, playerUnits, units. rewrite K.
  unfold w1. cbn [buildUnit fst snd worldUnits set_worldUnits].
  rewrite !filter_app. cbn [filter unit_active unit_type unit_owner].
  cbn [UnitType_eqb]. rewrite Bool.andb_false_r, app_nil_r. reflexivity.
Qed.

(** X15.  The launch tick puts on cooldown at most one silo: the first
    active missile silo of the attacker that stands on the launch site
    in the world before the launch, and none when there is no such
    silo; the unit just built and the diplomacy of the launch do not
    change which one. *)
Theorem launch_cools_one_silo (t : Z) (e : NukeExecution PF) (w : World)
    (pf : PF) (spawn : TileRef) :
  nuke e = None ->
  mg e = true ->
  pathFinder e = Some pf ->
  canBuild w (player e) (nukeType e) (dst e) = Some spawn ->
  exists e' w' out,
    tick (Rng := Rng) t e w = Ok tt e' w' out
    /\ filter isSiloCall out = siloCalls (player e) spawn w
    /\ (length (filter isSiloCall out) <= 1)%nat
    /\ forall s, In (SiloLaunch s) out ->
         exists x,
           In x (worldUnits w) /\ unit_id x = s /\ unit_active x = true
           /\ unit_owner x = player e /\ unit_type x = MissileSilo
           /\ unit_tile x = spawn.
Proof.
  intros Hn Hm Hp Hc.
  pose proof (tick_launch_trace t e w pf spawn Hn Hm Hp Hc) as Ht.
  cbv zeta in Ht.
  rewrite siloCalls_after_launch in Ht.
  match type of Ht with
  | _ = Ok tt ?e' ?w' (_ :: snd (launchDiplomacy e ?u ?w1) ++ _) =>
      destruct (launchDiplomacy_keeps e u w1) as [_ Hd]
  end.
  assert (F : forall out0,
             out0 = siloCalls (player e) spawn w ->
             filter isSiloCall out0 = out0).
  { intros out0 ->. unfold siloCalls. destruct (find _ _); reflexivity. }
  do 3 eexists. split; [exact Ht|].
  assert (E : forall dip,
             Forall isDiplomacy dip ->
             filter isSiloCall
               (BuildUnit (player e) (nukeType e) spawn (freshUnitID w)
                :: dip ++ launchAnnouncements (freshUnitID w) e w
                   ++ siloCalls (player e) spawn w)
             = siloCalls (player e) spawn w).
  { intros dip Hdip. cbn [filter isSiloCall]. rewrite !filter_app.
    rewrite (filter_nothing isSiloCall isDiplomacy dip);
      [|intros [] H; simpl in *; tauto|exact Hdip].
    assert (Ha : filter isSiloCall
                   (launchAnnouncements (freshUnitID w) e w) = []).
    { unfold launchAnnouncements. destruct (owner w (dst e)); [reflexivity|].
      destruct (nukeType e); reflexivity. }
    rewrite Ha. cbn [app]. apply F. reflexivity. }
  split; [apply E; exact Hd|]. split.
  - rewrite (E _ Hd). unfold siloCalls. destruct (find _ _); simpl; lia.
  - intros s Hin.
    assert (Hs : In (SiloLaunch s) (siloCalls (player e) spawn w)).
    { rewrite <- (E _ Hd). apply filter_In. split; [exact Hin|reflexivity]. }
    unfold siloCalls in Hs.
    destruct (find _ _) as [silo|] eqn:Ef; [|contradiction].
    destruct Hs as [Hs|[]]. injection Hs as <-.
    apply find_some in Ef. destruct Ef as [Hin1 Htile].
    unfold playerUnits, units in Hin1.
    apply filter_In in Hin1. destruct Hin1 as [Hin1 Hb].
    apply filter_In in Hin1. destruct Hin1 as [Hin1 Hact].
    apply andb_prop in Hb. destruct Hb as [Ho Hty].
    exists silo. split; [exact Hin1|]. split; [reflexivity|].
    split; [exact Hact|]. split; [apply Nat.eqb_eq; exact Ho|].
    split; [|apply Nat.eqb_eq; exact Htile].
    destruct (unit_type silo); simpl in Hty; try discriminate. reflexivity.
Qed.

(** *** [redrawBuildings] *)

Lemma touchLoop_calls (c : Unit -> bool) (L : list Unit) (w : World) :
  forEach L (fun unit => if c unit then logOnly (UnitTouch (unit_id unit))
                         else skip) w
  = (w, map (fun x => UnitTouch (unit_id x)) (filter c L)).
Proof.
  induction L as [|x L IH]; [reflexivity|].
  cbn [forEach filter]. unfold andThen.
  destruct (c x); cbn [logOnly skip]; rewrite IH; reflexivity.
Qed.

(** X16.  [redrawBuildings] changes nothing of the world: it touches,
    in the order of the units, each active unit of a structure type
    whose squared distance to the destination is strictly below the
    squared range, and no other unit. *)
Theorem redrawBuildings_touches (d : TileRef) (range : Z) (w : World) :
  redrawBuildings d range w
  = (w,
     map (fun x => UnitTouch (unit_id x))
       (filter
          (fun x =>
             unit_active x && isStructureType (unit_type x)
             && Z.ltb (euclideanDistSquared d (unit_tile x)) (range * range))
          (worldUnits w))).
Proof.
  unfold redrawBuildings.
  rewrite (touchLoop_calls
             (fun x => isStructureType (unit_type x)
                       && Z.ltb (euclideanDistSquared d (unit_tile x))
                            (range * range)) (units w) w).
  unfold units. f_equal. f_equal.
  induction (worldUnits w) as [|x l IH]; [reflexivity|].
  cbn [filter]. destruct (unit_active x); cbn [andb filter].
  - destruct (isStructureType (unit_type x)
              && Z.ltb (euclideanDistSquared d (unit_tile x))
                   (range * range)); [f_equal|]; exact IH.
  - exact IH.
Qed.

(** *** [tilesInRange] *)

Lemma map_set_key_iff {V} (k k' : nat) (v : V) (m : list (nat * V)) :
  In k' (map fst (map_set k v m)) <-> k' = k \/ In k' (map fst m).
Proof.
  induction m as [|[j x] m IH]; simpl.
  - intuition.
  - destruct (Nat.eqb k j) eqn:E; simpl.
    + apply Nat.eqb_eq in E. subst j. intuition.
    + rewrite IH. intuition.
Qed.

Lemma map_set_entry {V} (k k' : nat) (v v' : V) (m : list (nat * V)) :
  In (k', v') (map_set k v m) -> (k', v') = (k, v) \/ In (k', v') m.
Proof.
  induction m as [|[j x] m IH]; simpl.
  - intuition.
  - destruct (Nat.eqb k j); simpl; intuition.
Qed.

Lemma fold_map_set_entries {V} (g : TileRef * Z -> V)
    (l : list (TileRef * Z)) :
  forall acc : list (nat * V),
    let r := fold_left (fun m td => map_set (fst td) (g td) m) l acc in
    (NoDup (map fst acc) -> NoDup (map fst r))
    /\ (forall k, In k (map fst r) <-> In k (map fst acc) \/ In k (map fst l))
    /\ (forall k v, In (k, v) r ->
          In (k, v) acc \/ exists td, In td l /\ fst td = k /\ v = g td).
Proof.
  induction l as [|td l IH]; intros acc; cbv zeta; cbn [fold_left].
  - split; [auto|]. split; [simpl; intuition|auto].
  - destruct (IH (map_set (fst td) (g td) acc)) as (I1 & I2 & I3).
    cbv zeta in I1, I2, I3. split; [|split].
    + intros H. apply I1. apply map_set_keys. exact H.
    + intros k. rewrite I2, map_set_key_iff. simpl. intuition.
    + intros k v H. destruct (I3 k v H) as [H1|(td' & H1 & H2 & H3)].
      * destruct (map_set_entry _ _ _ _ _ H1) as [E|H2]; [|auto].
        injection E as -> ->. right. exists td. simpl. auto.
      * right. exists td'. simpl. auto.
Qed.

(** X17.  On an object that holds its unit, [tilesInRange] returns
    without touching the object or the world.  Its map has one entry
    for each tile that the circular search of the outer radius reports,
    and no other; the weight of an entry is that of a report of its
    tile: 1 when the squared distance is at most the squared inner
    radius, 1/2 otherwise. *)
Theorem tilesInRange_weights (e : NukeExecution PF) (w : World)
    (u : UnitID) :
  nuke e = Some u ->
  mg e = true ->
  let m := nukeMagnitudes (unitTypeOf w u) in
  exists r,
    tilesInRange e w = Ok r e w []
    /\ NoDup (map fst r)
    /\ (forall tile,
          In tile (map fst r)
          <-> In tile (map fst (circleSearch (dst e) (outer m))))
    /\ (forall tile q, In (tile, q) r ->
          exists d2,
            In (tile, d2) (circleSearch (dst e) (outer m))
            /\ q = (if Z.leb d2 (inner m * inner m) then 1%Q
                    else (1 # 2)%Q)).
Proof.
  intros Hn Hm m.
  exists (weighTiles (dst e) m). split; [apply tilesInRange_ok; assumption|].
  unfold weighTiles. cbv zeta.
  destruct (fold_map_set_entries
              (fun td : TileRef * Z => weightOf (snd td) (inner m * inner m))
              (circleSearch (dst e) (outer m)) [])
    as (F1 & F2 & F3).
  cbv zeta in F1, F2, F3. split; [apply F1; constructor|]. split.
  - intros tile. rewrite F2. simpl. intuition.
  - intros tile q H. destruct (F3 tile q H) as [[]|([t' d2] & H1 & H2 & H3)].
    cbn [fst snd] in *. subst t'. exists d2. split; [exact H1|exact H3].
Qed.

End Facts.

(** ** The facts on the small game *)

Import Demo.

Lemma queued_strike_never_launches_after_alliance_witness :
  exists l1' e1 l2',
    executions (fst (fst (destroyNukesBetween 1 2 game0)))
    = l1' ++ (2, e1) :: l2'
    /\ isActive e1 = false
    /\ isInFlight e1 = false
    /\ forall n,
         runTicks (Rng := Z) (S n) (fst (fst (destroyNukesBetween 1 2 game0)))
         = runTicks (Rng := Z) (S n)
             (mkGame (l1' ++ l2')
                (world (fst (fst (destroyNukesBetween 1 2 game0)))))
         /\ forall g' out,
              runTicks (Rng := Z) (S n)
                (fst (fst (destroyNukesBetween 1 2 game0)))
              = Done (g', out) ->
              ~ In 2 (map fst (executions g')).
Proof.
  apply (queued_strike_never_launches_after_alliance Path Z game0
           [(1, strike HydrogenBomb (ref 6 6))] [] 2
           (strike AtomBomb (ref 3 3)) 1 2).
  - reflexivity.
  - simpl. lia.
  - reflexivity.
  - vm_compute. reflexivity.
Defined.

Lemma launch_breaks_alliances_witness :
  exists e' w' out,
    tick (Rng := Z) 0%Z atomStrike alliedWorld = Ok tt e' w' out
    /\ nuke e' = Some (freshUnitID alliedWorld)
    /\ filter (concerns 2) out
       = [RejectRequest 1 2; BreakAlliance 1 2; UpdateRelation 2 1 (-100)]
    /\ findRequest w' 1 2 = None
    /\ allianceWith w' 1 2 = None.
Proof.
  apply (launch_breaks_alliances Path Z 0%Z atomStrike alliedWorld
           (mkPath [] 0) 0 2).
  - reflexivity.
  - reflexivity.
  - reflexivity.
  - vm_compute. reflexivity.
  - discriminate.
  - vm_compute. reflexivity.
  - vm_compute. reflexivity.
  - vm_compute. reflexivity.
Defined.

Lemma tilesToDestroy_is_bfs_witness :
  tilesToDestroy (Rng := Z) launchedStrike launchedWorld
  = Ok [27; 19; 35; 26; 28; 18; 20; 34]
      (set_tilesToDestroyCache (Some [27; 19; 35; 26; 28; 18; 20; 34])
         launchedStrike)
      launchedWorld []
  /\ Forall (fun t => (euclideanDistSquared 27%nat t <= 4)%Z)
       [27; 19; 35; 26; 28; 18; 20; 34].
Proof.
  destruct (tilesToDestroy_is_bfs Path Z launchedStrike launchedWorld 2)
    as (H1 & _ & _ & _ & H5 & _).
  - reflexivity.
  - reflexivity.
  - reflexivity.
  - reflexivity.
  - vm_compute. reflexivity.
  - vm_compute. reflexivity.
  - split; [exact H1|exact H5].
Defined.

Lemma tilesToDestroy_cached_witness :
  tilesToDestroyCache
    (set_tilesToDestroyCache (Some [27; 19; 35; 26; 28; 18; 20; 34])
       launchedStrike)
  = Some [27; 19; 35; 26; 28; 18; 20; 34]
  /\ forall w',
       tilesToDestroy (Rng := Z)
         (set_tilesToDestroyCache (Some [27; 19; 35; 26; 28; 18; 20; 34])
            launchedStrike) w'
       = Ok [27; 19; 35; 26; 28; 18; 20; 34]
           (set_tilesToDestroyCache (Some [27; 19; 35; 26; 28; 18; 20; 34])
              launchedStrike) w' [].
Proof.
  apply (tilesToDestroy_cached Path Z launchedStrike
           (set_tilesToDestroyCache (Some [27; 19; 35; 26; 28; 18; 20; 34])
              launchedStrike)
           launchedWorld launchedWorld [27; 19; 35; 26; 28; 18; 20; 34] []).
  vm_compute. reflexivity.
Defined.

Lemma tick_launch_refused_witness :
  tick (Rng := Z) 0%Z atomStrike noSilo
  = Ok tt (set_active false atomStrike) noSilo [cannotBuild].
Proof.
  apply (tick_launch_refused Path Z 0%Z atomStrike noSilo).
  - reflexivity.
  - vm_compute. reflexivity.
Defined.

Lemma tick_after_interception_witness :
  tick (Rng := Z) 0%Z launchedStrike interceptedWorld
  = Ok tt (set_active false launchedStrike) interceptedWorld [intercepted]
  /\ ticks_in_a_row (Rng := Z) 4 launchedStrike interceptedWorld
     = (set_active false launchedStrike, interceptedWorld,
        [intercepted; intercepted; intercepted; intercepted]).
Proof.
  destruct (tick_after_interception Path Z 0%Z launchedStrike
              interceptedWorld 2) as (H1 & _ & H3 & _).
  - reflexivity.
  - vm_compute. reflexivity.
  - split; [exact H1|exact (H3 3)].
Defined.

Lemma launch_announcements_witness :
  exists e' w' out,
    tick (Rng := Z) 0%Z atomStrike world0 = Ok tt e' w' out
    /\ filter isAnnouncement out
       = [DisplayIncomingUnit 2 "player1 - atom bomb inbound" NUKE_INBOUND 2;
          BombLaunch 1 (OwnerPlayer 2) AtomBomb].
Proof.
  destruct (launch_announcements Path Z 0%Z atomStrike world0 (mkPath [] 0) 0)
    as (e' & w' & out & H1 & H2 & _).
  - reflexivity.
  - reflexivity.
  - reflexivity.
  - vm_compute. reflexivity.
  - exists e', w', out. split; [exact H1|exact H2].
Defined.

Lemma inactive_is_final_witness :
  isActive
    (history (Rng := Z)
       ([(OpTick 0%Z, noSilo)]
        ++ [(OpInit 1%Z, world0); (OpTick 1%Z, world0);
            (OpDestroyInFlight, world0); (OpTick 2%Z, world0)])
       atomStrike)
  = false.
Proof.
  apply (inactive_is_final Path Z).
  vm_compute. reflexivity.
Defined.

Lemma tick_waits_witness :
  tick (Rng := Z) 0%Z delayedStrike launchedWorld
  = Ok tt (set_waitTicks 2%Z delayedStrike) launchedWorld [].
Proof.
  apply (tick_waits Path Z 0%Z delayedStrike launchedWorld 2).
  - reflexivity.
  - vm_compute. reflexivity.
  - vm_compute. reflexivity.
Defined.

Lemma destroyInFlight_once_witness :
  destroyInFlight (set_active false launchedStrike) launchedWorld
  = Ok tt (set_active false launchedStrike) launchedWorld [].
Proof.
  apply (proj1 (proj2 (destroyInFlight_once Path
                         (set_active false launchedStrike) launchedWorld))).
  reflexivity.
Defined.

(** The launch of a warhead sub-munition on a tile of player 2: the
    launch statistics are recorded, and no alert is sent to player 2. *)
Lemma warhead_launch_sends_no_alert :
  nuke warheadStrike = None
  /\ canBuild world0 1 MIRVWarhead (ref 3 3) = Some 0
  /\ hasOwner world0 (ref 3 3) = true
  /\ owner world0 (ref 3 3) = OwnerPlayer 2
  /\ tick (Rng := Z) 0%Z warheadStrike world0
     = Ok tt
         (set_nuke (Some 2)
            (set_pathFinder (Some (mkPath (walk 0 27) 0))
               (set_src (Some 0) warheadStrike)))
         (worldOf (tick (Rng := Z) 0%Z warheadStrike world0))
         [BuildUnit 1 MIRVWarhead 0 2;
          BombLaunch 1 (OwnerPlayer 2) MIRVWarhead;
          SiloLaunch 1]
  /\ ~ (exists u msg ty,
          In (DisplayIncomingUnit u msg ty 2)
            (outOf (tick (Rng := Z) 0%Z warheadStrike world0))).
Proof.
  repeat split; try (vm_compute; reflexivity).
  intros (u & msg & ty & H). vm_compute in H.
  repeat (destruct H as [H|H]; [discriminate|]). exact H.
Qed.

(** [tick] does not look at [active]: called on a queued execution that
    has been made inactive, with a launch site at hand, it spawns the
    unit all the same.  That a cancelled strike never launches rests on
    the scheduler, which calls [tick] on no inactive execution. *)
Example tick_has_no_guard_of_its_own :
  let cancelled := thisOf (destroyInFlight atomStrike world0) in
  isActive cancelled = false
  /\ nuke (thisOf (tick (Rng := Z) 0%Z cancelled world0)) = Some 2
  /\ isActive (thisOf (tick (Rng := Z) 0%Z cancelled world0)) = false.
Proof. vm_compute. auto. Qed.

(** ** The further facts on the 8x8 board *)

Lemma no_unit_not_initialized_witness :
  tilesInRange queuedStrike world0
  = Throw "Not initialized" queuedStrike world0 []
  /\ detonate (Rng := Z) queuedStrike world0
     = Throw "Not initialized" queuedStrike world0 [].
Proof.
  destruct (no_unit_not_initialized Path Z queuedStrike world0 [])
    as (H1 & _ & H3 & _).
  - reflexivity.
  - split; [exact H1|exact H3].
Defined.

Lemma tick_before_init_witness :
  tick (Rng := Z) 0%Z queuedStrike world0
  = Throw "TypeError: this.pathFinder is undefined"
      (set_src (Some 0) queuedStrike) world0 [].
Proof.
  destruct (tick_before_init Path Z 0%Z queuedStrike world0 0) as [H _].
  - reflexivity.
  - reflexivity.
  - vm_compute. reflexivity.
  - exact H.
Defined.

Lemma tick_never_throws_witness :
  exists e' w' out,
    tick (Rng := Z) 0%Z atomStrike world0 = Ok tt e' w' out
    /\ isInitialised e'.
Proof.
  apply (tick_never_throws Path Z 0%Z atomStrike world0).
  split; [reflexivity|discriminate].
Defined.


Lemma tick_holds_its_unit_witness :
  nuke (thisOf (tick (Rng := Z) 0%Z launchedStrike launchedWorld)) = Some 2
  /\ map unit_id
       (worldUnits (worldOf (tick (Rng := Z) 0%Z launchedStrike
                               launchedWorld)))
     = map unit_id (worldUnits launchedWorld)
  /\ filter isBuildUnit
       (outOf (tick (Rng := Z) 0%Z launchedStrike launchedWorld)) = [].
Proof.
  apply (tick_holds_its_unit Path Z 0%Z launchedStrike launchedWorld 2).
  reflexivity.
Defined.

Lemma tick_moves_unit_witness :
  exists w',
    tick (Rng := Z) 0%Z launchedStrike launchedWorld
    = Ok tt (set_pathFinder (Some (mkPath (walk 0 27) 20)) launchedStrike) w'
        [SetTargetable 2 true; UnitMove 2 20; SetTrajectoryIndex 2 20%Z].
Proof.
  destruct (tick_moves_unit Path Z 0%Z launchedStrike launchedWorld 2
              (unitOf launchedWorld 2) (mkPath (walk 0 27) 0)
              (mkPath (walk 0 27) 20) 20)
    as (w' & H & _).
  - reflexivity.
  - vm_compute. reflexivity.
  - vm_compute. reflexivity.
  - vm_compute. discriminate.
  - reflexivity.
  - vm_compute. reflexivity.
  - vm_compute. reflexivity.
  - exists w'. exact H.
Defined.

Lemma detonation_clears_ownership_witness :
  owner (worldOf (tick (Rng := Z) 0%Z arrivingStrike arrivingWorld)) 27
  = TerraNullius
  /\ tileOwners (worldOf (tick (Rng := Z) 0%Z arrivingStrike arrivingWorld))
     = [(0, 1); (8, 2); (54, 3)].
Proof.
  destruct (detonation_clears_ownership Path Z 0%Z arrivingStrike
              arrivingWorld 2 (mkPath (walk 0 27) 20)
              (mkPath (walk 0 27) 40))
    as (H1 & H2 & _).
  - reflexivity.
  - vm_compute. reflexivity.
  - vm_compute. discriminate.
  - reflexivity.
  - vm_compute. reflexivity.
  - vm_compute. reflexivity.
  - split.
    + apply H2. vm_compute. auto.
    + etransitivity; [exact H1|]. vm_compute. reflexivity.
Defined.

Lemma detonation_fallout_witness :
  In 27 (fallout (worldOf (tick (Rng := Z) 0%Z arrivingStrike
                             arrivingWorld))).
Proof.
  destruct (detonation_fallout Path Z 0%Z arrivingStrike
              arrivingWorld 2 (mkPath (walk 0 27) 20)
              (mkPath (walk 0 27) 40))
    as (_ & H2 & _).
  - reflexivity.
  - vm_compute. reflexivity.
  - vm_compute. discriminate.
  - reflexivity.
  - vm_compute. reflexivity.
  - vm_compute. reflexivity.
  - apply H2; [vm_compute; auto|reflexivity].
Defined.

Lemma detonation_units_witness :
  exists x',
    findUnit (worldOf (tick (Rng := Z) 0%Z arrivingStrike arrivingWorld)) 1
    = Some x'
    /\ unit_tile x' = 0
    /\ unit_active x' = true.
Proof.
  destruct (detonation_units Path Z 0%Z arrivingStrike
              arrivingWorld 2 (mkPath (walk 0 27) 20)
              (mkPath (walk 0 27) 40) 1 (unitOf arrivingWorld 1))
    as (_ & x' & Hf & _ & _ & Hl & Ha).
  - reflexivity.
  - vm_compute. reflexivity.
  - vm_compute. discriminate.
  - reflexivity.
  - vm_compute. reflexivity.
  - vm_compute. reflexivity.
  - apply distinct_NoDup. vm_compute. reflexivity.
  - vm_compute. reflexivity.
  - exists x'. split; [exact Hf|]. split; [exact Hl|exact Ha].
Defined.

Lemma detonation_is_final_witness :
  exists e' w' calls,
    tick (Rng := Z) 0%Z arrivingStrike arrivingWorld
    = Ok tt e' w' (calls ++ [BombLand 1 (OwnerPlayer 2) AtomBomb])
    /\ isActive e' = false
    /\ unitIsActive w' 2 = false.
Proof.
  destruct (detonation_is_final Path Z 0%Z arrivingStrike
              arrivingWorld 2 (mkPath (walk 0 27) 20)
              (mkPath (walk 0 27) 40))
    as (e' & w' & calls & H1 & H2 & _ & _ & H5 & _).
  - reflexivity.
  - vm_compute. reflexivity.
  - vm_compute. discriminate.
  - reflexivity.
  - vm_compute. reflexivity.
  - vm_compute. reflexivity.
  - exists e', w', calls. split; [exact H1|]. split; [exact H2|exact H5].
Defined.

Lemma detonation_spares_bystanders_witness :
  troops (worldOf (tick (Rng := Z) 0%Z arrivingStrike arrivingWorld)) 3
  = 60%Z.
Proof.
  destruct (detonation_spares_bystanders Path Z 0%Z arrivingStrike
              arrivingWorld 2 (mkPath (walk 0 27) 20)
              (mkPath (walk 0 27) 40) 3)
    as (H1 & _).
  - reflexivity.
  - vm_compute. reflexivity.
  - vm_compute. discriminate.
  - reflexivity.
  - vm_compute. reflexivity.
  - vm_compute. reflexivity.
  - intros tile H. vm_compute in H.
    repeat (destruct H as [<-|H]; [vm_compute; discriminate|]).
    contradiction.
  - exact H1.
Defined.

Lemma launch_spares_the_rest_witness :
  exists e' w' out,
    tick (Rng := Z) 0%Z atomStrike world0 = Ok tt e' w' out
    /\ filter (concerns 3) out = [].
Proof.
  destruct (launch_spares_the_rest Path Z 0%Z atomStrike world0
              (mkPath [] 0) 0 3)
    as (e' & w' & out & H1 & H2 & _).
  - reflexivity.
  - reflexivity.
  - reflexivity.
  - vm_compute. reflexivity.
  - vm_compute. reflexivity.
  - right. vm_compute. discriminate.
  - exists e', w', out. split; [exact H1|exact H2].
Defined.

Lemma launch_cools_one_silo_witness :
  exists e' w' out,
    tick (Rng := Z) 0%Z atomStrike world0 = Ok tt e' w' out
    /\ filter isSiloCall out = [SiloLaunch 1].
Proof.
  destruct (launch_cools_one_silo Path Z 0%Z atomStrike world0
              (mkPath [] 0) 0)
    as (e' & w' & out & H1 & H2 & _).
  - reflexivity.
  - reflexivity.
  - reflexivity.
  - vm_compute. reflexivity.
  - exists e', w', out. split; [exact H1|exact H2].
Defined.

Lemma tilesInRange_weights_witness :
  exists r,
    tilesInRange launchedStrike launchedWorld
    = Ok r launchedStrike launchedWorld []
    /\ NoDup (map fst r).
Proof.
  destruct (tilesInRange_weights Path launchedStrike launchedWorld 2)
    as (r & H1 & H2 & _).
  - reflexivity.
  - reflexivity.
  - exists r. split; [exact H1|exact H2].
Defined.
